(** * telemetry-test-tools: background job queue

    A shallow embedding of the Go packages [bgjob], [bgqueue] and [bgstats]
    (and of the two command-line front ends) together with the properties
    their specification states about them.

    Conventions of the embedding:
    - Go's [int] and [time.Duration] are 64-bit signed integers: they are
      values of [Z], every arithmetic result is passed through [wrap];
    - Go's [float64] is IEEE-754 binary64, taken from [SpecFloat] with
      precision 53 and maximal exponent 1024, so every operation rounds
      exactly as the hardware does;
    - a run-time panic (index out of range, integer division by zero) is
      the [None] of an [option];
    - [time.Now()] and the outcome of [exec.Cmd.Run] come from the
      environment: they are explicit arguments. *)

From Stdlib Require Import ZArith List Bool String Ascii Lia.
From Stdlib Require Import Decimal DecimalString DecimalN DecimalPos.
From Stdlib Require Import Permutation Floats.SpecFloat.
Import ListNotations.
Open Scope Z_scope.

(** ** Go's 64-bit integers *)

Module GoInt.

Definition min_int : Z := - 2 ^ 63.
Definition max_int : Z := 2 ^ 63 - 1.

(** Two's complement wrap-around of an exact result. *)
Definition wrap (z : Z) : Z := (z + 2 ^ 63) mod 2 ^ 64 - 2 ^ 63.

Definition in_range (z : Z) : Prop := min_int <= z <= max_int.

Definition add (a b : Z) : Z := wrap (a + b).
Definition sub (a b : Z) : Z := wrap (a - b).
Definition mul (a b : Z) : Z := wrap (a * b).

(** [a / b] truncates toward zero and panics when [b] is zero. *)
Definition quo (a b : Z) : option Z :=
  if b =? 0 then None else Some (wrap (Z.quot a b)).

(** [a % b] has the sign of [a] and panics when [b] is zero. *)
Definition rem (a b : Z) : option Z :=
  if b =? 0 then None else Some (Z.rem a b).

End GoInt.

(** ** Go's float64 *)

Module F64.

Definition prec : Z := 53.
Definition emax : Z := 1024.

Definition float64 : Type := spec_float.

Definition add : float64 -> float64 -> float64 := SFadd prec emax.
Definition sub : float64 -> float64 -> float64 := SFsub prec emax.
Definition mul : float64 -> float64 -> float64 := SFmul prec emax.
Definition div : float64 -> float64 -> float64 := SFdiv prec emax.
Definition sqrt : float64 -> float64 := SFsqrt prec emax.
Definition ltb : float64 -> float64 -> bool := SFltb.

(** The conversion [float64(n)] of an integer, rounded to nearest even. *)
Definition of_int (n : Z) : float64 := binary_normalize prec emax n 0 false.

Definition is_nan (x : float64) : bool :=
  match x with S754_nan => true | _ => false end.

Definition is_inf (x : float64) : bool :=
  match x with S754_infinity _ => true | _ => false end.

Definition is_finite (x : float64) : bool :=
  match x with S754_zero _ | S754_finite _ _ _ => true | _ => false end.

(** The integer part and the fraction bits of a finite number
    [m * 2^e] with [e < 0]. *)
Definition int_part (m : positive) (e : Z) : Z := Z.shiftr (Zpos m) (- e).
Definition has_fraction (m : positive) (e : Z) : bool :=
  negb (Z.land (Zpos m) (Z.ones (- e)) =? 0).
Definition half_bit (m : positive) (e : Z) : bool :=
  Z.testbit (Zpos m) (- e - 1).

(** [math.Trunc]: the integer part, the sign kept (also on zero). *)
Definition Trunc (x : float64) : float64 :=
  match x with
  | S754_finite s m e =>
      if 0 <=? e then x
      else binary_normalize prec emax (cond_Zopp s (int_part m e)) 0 s
  | _ => x
  end.

(** [math.Round]: the nearest integer, halves away from zero. *)
Definition Round (x : float64) : float64 :=
  match x with
  | S754_finite s m e =>
      if 0 <=? e then x
      else
        let q := int_part m e in
        let q := if half_bit m e then q + 1 else q in
        binary_normalize prec emax (cond_Zopp s q) 0 s
  | _ => x
  end.

(** [math.Ceil]: the least integer not below [x]. *)
Definition Ceil (x : float64) : float64 :=
  match x with
  | S754_finite s m e =>
      if 0 <=? e then x
      else
        let q := int_part m e in
        let q := if negb s && has_fraction m e then q + 1 else q in
        binary_normalize prec emax (cond_Zopp s q) 0 s
  | _ => x
  end.

(** The conversion [int(x)] (and [int64(x)]): the fraction is discarded.
    Go leaves the result open when the value does not fit; the amd64
    instruction returns the least integer then, and so does this model. *)
Definition to_int (x : float64) : Z :=
  match x with
  | S754_zero _ => 0
  | S754_finite s m e =>
      let z := if 0 <=? e then Z.shiftl (Zpos m) e else int_part m e in
      let z := cond_Zopp s z in
      if (GoInt.min_int <=? z) && (z <=? GoInt.max_int) then z
      else GoInt.min_int
  | _ => GoInt.min_int
  end.

End F64.

(** ** Package time (the part the program uses) *)

Module time.

(** A [Duration] counts nanoseconds in an int64. *)
Definition Duration : Type := Z.

(** A [Time] is read off the monotonic clock, in nanoseconds. *)
Definition Time : Type := Z.

Definition Second : Duration := 1000000000.

(** [t.Sub(u)]: the difference, saturated to the range of [Duration]. *)
Definition Sub (t u : Time) : Duration :=
  Z.max GoInt.min_int (Z.min GoInt.max_int (t - u)).

(** [d.Seconds()]: whole seconds and the rest are converted apart. *)
Definition Seconds (d : Duration) : F64.float64 :=
  let sec := Z.quot d Second in
  let nsec := Z.rem d Second in
  F64.add (F64.of_int sec) (F64.div (F64.of_int nsec) (F64.of_int 1000000000)).

End time.

(** ** Package fmt (the two verbs the program uses) *)

Module fmt.

Fixpoint zeros (n : nat) : string :=
  match n with
  | O => EmptyString
  | S n => String "0" (zeros n)
  end.

(** The decimal digits of a natural number, without sign. *)
Definition digits (n : N) : string := NilZero.string_of_uint (N.to_uint n).

(** The verb [%06d]: at least six characters, the sign first, then
    zeros, then the digits; more than six when the number needs them. *)
Definition pad06d (n : Z) : string :=
  let ds := digits (Z.abs_N n) in
  if n <? 0
  then String "-" (zeros (5 - String.length ds) ++ ds)
  else zeros (6 - String.length ds) ++ ds.

End fmt.

(** ** Package os/exec as the program sees it *)

Module exec.

(** An [error] value is inspected in one way only: is it an
    [*exec.ExitError], and with which [ExitCode()]. *)
Inductive error : Type :=
| ExitError (code : Z)
| OtherError (msg : string).

(** What one [exec.Command(...)] followed by [cmd.Run()] leaves behind:
    the error [Run] returns, the field [cmd.Err], and the two buffers. *)
Record Outcome : Type := {
  run_error : option error;
  cmd_Err : option error;
  out_buffer : string;
  err_buffer : string
}.

(** What package os/exec promises about an outcome: when [cmd.Err] is set,
    [Run] returns that error without starting a process, and it is not an
    [*ExitError]; an [*ExitError] reports an unsuccessful exit, so its
    code is not zero. *)
Definition consistent (o : Outcome) : Prop :=
  (forall e, cmd_Err o = Some e ->
             exists msg, e = OtherError msg /\ run_error o = Some e) /\
  run_error o <> Some (ExitError 0).

End exec.

(** ** Package bgjob *)

Module bgjob.

Import exec.

Record BackgroundJob : Type := {
  Id : Z;
  Name : string;
  Command : list string;
  Created : time.Time;
  Started : time.Time;
  Duration : time.Duration;
  Stdout : string;
  Stderr : string;
  ExitStatus : Z;
  Error : option error;
  CmdError : option error
}.

(** The zero value [new(BackgroundJob)]. *)
Definition zero : BackgroundJob := {|
  Id := 0; Name := EmptyString; Command := [];
  Created := 0; Started := 0; Duration := 0;
  Stdout := EmptyString; Stderr := EmptyString;
  ExitStatus := 0; Error := None; CmdError := None
|}.

Definition setName (bj : BackgroundJob) (prefix : string) : BackgroundJob := {|
  Id := Id bj;
  Name := prefix ++ "_" ++ fmt.pad06d (Id bj);
  Command := Command bj;
  Created := Created bj; Started := Started bj; Duration := Duration bj;
  Stdout := Stdout bj; Stderr := Stderr bj;
  ExitStatus := ExitStatus bj; Error := Error bj; CmdError := CmdError bj
|}.

Definition Init (bj : BackgroundJob) (id : Z) (prefix : string)
    (command : list string) : BackgroundJob :=
  let bj := {|
    Id := id; Name := Name bj; Command := Command bj;
    Created := Created bj; Started := Started bj; Duration := Duration bj;
    Stdout := Stdout bj; Stderr := Stderr bj;
    ExitStatus := ExitStatus bj; Error := Error bj; CmdError := CmdError bj
  |} in
  let bj := setName bj prefix in
  {|
    Id := Id bj; Name := Name bj; Command := command;
    Created := Created bj; Started := Started bj; Duration := Duration bj;
    Stdout := Stdout bj; Stderr := Stderr bj;
    ExitStatus := ExitStatus bj; Error := Error bj; CmdError := CmdError bj
  |}.

Definition New (id : Z) (prefix : string) (command : list string)
    : BackgroundJob :=
  Init zero id prefix command.

Definition MarkReady (bj : BackgroundJob) (now : time.Time) : BackgroundJob := {|
  Id := Id bj; Name := Name bj; Command := Command bj;
  Created := now; Started := Started bj; Duration := Duration bj;
  Stdout := Stdout bj; Stderr := Stderr bj;
  ExitStatus := ExitStatus bj; Error := Error bj; CmdError := CmdError bj
|}.

Definition MarkStarted (bj : BackgroundJob) (now : time.Time) : BackgroundJob := {|
  Id := Id bj; Name := Name bj; Command := Command bj;
  Created := Created bj; Started := now; Duration := Duration bj;
  Stdout := Stdout bj; Stderr := Stderr bj;
  ExitStatus := ExitStatus bj; Error := Error bj; CmdError := CmdError bj
|}.

Definition MarkFinished (bj : BackgroundJob) (now : time.Time) : BackgroundJob := {|
  Id := Id bj; Name := Name bj; Command := Command bj;
  Created := Created bj; Started := Started bj;
  Duration := time.Sub now (Started bj);
  Stdout := Stdout bj; Stderr := Stderr bj;
  ExitStatus := ExitStatus bj; Error := Error bj; CmdError := CmdError bj
|}.

(** The exit status [Run] stores, given what [cmd.Run()] returned; with
    no error the field keeps the value it had. *)
Definition exit_status_of (old : Z) (e : option error) : Z :=
  match e with
  | None => old
  | Some (ExitError code) => code
  | Some (OtherError _) => -1
  end.

(** [cmd.Err] is copied only inside the branch [bj.Error != nil]. *)
Definition cmd_error_of (old : option error) (e cmdErr : option error)
    : option error :=
  match e with
  | None => old
  | Some _ => match cmdErr with Some c => Some c | None => old end
  end.

(** [Run]: [bj.Command[0]] panics on an empty command, hence the option.
    [now] is the clock when [cmd.Run()] returns and [o] what it left. *)
Definition Run (bj : BackgroundJob) (now : time.Time) (o : Outcome)
    : option (BackgroundJob * option error) :=
  match Command bj with
  | [] => None
  | _ :: _ =>
      let bj := MarkFinished bj now in
      let bj := {|
        Id := Id bj; Name := Name bj; Command := Command bj;
        Created := Created bj; Started := Started bj; Duration := Duration bj;
        Stdout := out_buffer o; Stderr := err_buffer o;
        ExitStatus := exit_status_of (ExitStatus bj) (run_error o);
        Error := run_error o;
        CmdError := cmd_error_of (CmdError bj) (run_error o) (cmd_Err o)
      |} in
      Some (bj, Error bj)
  end.

End bgjob.

(** ** Package bgstats (durations kept as samples) *)

Module bgstats.

Import F64.

Record BgQueueStats : Type := {
  started : time.Time;
  finished : time.Time;
  durations : list time.Duration;
  Total : Z;
  Completed : Z;
  Succeeded : Z;
  Failed : Z;
  Invalid : Z;
  ActiveTime : time.Duration
}.

(** The zero value [new(BgQueueStats)]; the nil slice is the empty list. *)
Definition zero : BgQueueStats := {|
  started := 0; finished := 0; durations := [];
  Total := 0; Completed := 0; Succeeded := 0; Failed := 0; Invalid := 0;
  ActiveTime := 0
|}.

Definition Init (bqs : BgQueueStats) (totalJobs : Z) : BgQueueStats := {|
  started := started bqs; finished := finished bqs;
  durations := durations bqs;
  Total := totalJobs;
  Completed := Completed bqs; Succeeded := Succeeded bqs;
  Failed := Failed bqs; Invalid := Invalid bqs;
  ActiveTime := ActiveTime bqs
|}.

Definition New (totalJobs : Z) : BgQueueStats := Init zero totalJobs.

Definition Start (bqs : BgQueueStats) (now : time.Time) : BgQueueStats := {|
  started := now; finished := finished bqs;
  durations := durations bqs;
  Total := Total bqs;
  Completed := Completed bqs; Succeeded := Succeeded bqs;
  Failed := Failed bqs; Invalid := Invalid bqs;
  ActiveTime := ActiveTime bqs
|}.

Definition Finish (bqs : BgQueueStats) (now : time.Time) : BgQueueStats := {|
  started := started bqs; finished := now;
  durations := durations bqs;
  Total := Total bqs;
  Completed := Completed bqs; Succeeded := Succeeded bqs;
  Failed := Failed bqs; Invalid := Invalid bqs;
  ActiveTime := time.Sub now (started bqs)
|}.

(** Assignments to the four running counters and to the sample list. *)
Definition set_counts (bqs : BgQueueStats) (c s f i : Z) : BgQueueStats := {|
  started := started bqs; finished := finished bqs;
  durations := durations bqs;
  Total := Total bqs;
  Completed := c; Succeeded := s; Failed := f; Invalid := i;
  ActiveTime := ActiveTime bqs
|}.

Definition set_durations (bqs : BgQueueStats) (ds : list time.Duration)
    : BgQueueStats := {|
  started := started bqs; finished := finished bqs;
  durations := ds;
  Total := Total bqs;
  Completed := Completed bqs; Succeeded := Succeeded bqs;
  Failed := Failed bqs; Invalid := Invalid bqs;
  ActiveTime := ActiveTime bqs
|}.

Definition Update (bqs : BgQueueStats) (bj : bgjob.BackgroundJob)
    : BgQueueStats :=
  let bqs :=
    set_counts bqs (GoInt.add (Completed bqs) 1)
               (Succeeded bqs) (Failed bqs) (Invalid bqs) in
  let bqs :=
    if bgjob.ExitStatus bj =? 0 then
      set_counts bqs (Completed bqs)
                 (GoInt.add (Succeeded bqs) 1) (Failed bqs) (Invalid bqs)
    else if bgjob.ExitStatus bj >? 0 then
      set_counts bqs (Completed bqs)
                 (Succeeded bqs) (GoInt.add (Failed bqs) 1) (Invalid bqs)
    else
      set_counts bqs (Completed bqs)
                 (Succeeded bqs) (Failed bqs) (GoInt.add (Invalid bqs) 1) in
  set_durations bqs (durations bqs ++ [bgjob.Duration bj]).

(** The accumulator after the consumer has fed it the jobs of a list,
    first job first. *)
Definition feed (bqs : BgQueueStats) (jobs : list bgjob.BackgroundJob)
    : BgQueueStats :=
  fold_left Update jobs bqs.

Definition percentage (fraction total : float64) : float64 :=
  let roundingFactor := of_int 1000 in
  div (Round (mul (mul (div fraction total) (of_int 100)) roundingFactor))
      roundingFactor.

Definition CompletionPercentage (bqs : BgQueueStats) : float64 :=
  percentage (of_int (Completed bqs)) (of_int (Total bqs)).

Definition SuccessPercentage (bqs : BgQueueStats) : float64 :=
  percentage (of_int (Succeeded bqs)) (of_int (Total bqs)).

Definition FailurePercentage (bqs : BgQueueStats) : float64 :=
  percentage (of_int (Failed bqs)) (of_int (Total bqs)).

Definition InvalidPercentage (bqs : BgQueueStats) : float64 :=
  percentage (of_int (Failed bqs)) (of_int (Total bqs)).

Definition CompletionRate (bqs : BgQueueStats) : float64 :=
  div (of_int 1)
      (div (time.Seconds (ActiveTime bqs)) (of_int (Completed bqs))).

(** The divisors of the two divisions [CompletionRate] evaluates, the
    inner division first. *)
Definition CompletionRate_divisors (bqs : BgQueueStats) : list float64 :=
  [of_int (Completed bqs);
   div (time.Seconds (ActiveTime bqs)) (of_int (Completed bqs))].

(** The type constraint [numeric]: what the generic helpers need of
    their element type.  Division may panic (integers) or not (floats). *)
Class numeric (T : Type) : Type := {
  num_zero : T;
  num_add : T -> T -> T;
  num_mul : T -> T -> T;
  num_lt : T -> T -> bool;
  num_of_len : nat -> T;
  num_div : T -> T -> option T
}.

#[export] Instance numeric_Duration : numeric time.Duration := {|
  num_zero := 0;
  num_add := GoInt.add;
  num_mul := GoInt.mul;
  num_lt := Z.ltb;
  num_of_len := Z.of_nat;
  num_div := GoInt.quo
|}.

#[export] Instance numeric_float64 : numeric float64 := {|
  num_zero := S754_zero false;
  num_add := F64.add;
  num_mul := F64.mul;
  num_lt := F64.ltb;
  num_of_len := fun n => of_int (Z.of_nat n);
  num_div := fun x y => Some (F64.div x y)
|}.

Section Generic.
Context {T : Type} `{numeric T}.

Definition sum (vals : list T) : T :=
  fold_left num_add vals num_zero.

(** [vals[0]] panics on an empty slice. *)
Definition max (vals : list T) : option T :=
  match vals with
  | [] => None
  | v0 :: rest =>
      Some (fold_left (fun m v => if num_lt m v then v else m) rest v0)
  end.

Definition min (vals : list T) : option T :=
  match vals with
  | [] => None
  | v0 :: rest =>
      Some (fold_left (fun m v => if num_lt v m then v else m) rest v0)
  end.

Definition average (vals : list T) : option T :=
  num_div (sum vals) (num_of_len (List.length vals)).

Definition squared (vals : list T) : list T :=
  map (fun v => num_mul v v) vals.

End Generic.

Definition toSeconds (ds : list time.Duration) : list float64 :=
  map time.Seconds ds.

Definition fromSecond (second : float64) : time.Duration :=
  to_int (mul second (of_int time.Second)).

Definition fromSeconds (seconds : list float64) : list time.Duration :=
  map fromSecond seconds.

Definition AggregateRunTime (bqs : BgQueueStats) : time.Duration :=
  sum (durations bqs).

Definition AverageRunTime (bqs : BgQueueStats) : option time.Duration :=
  average (durations bqs).

Definition MinimumRunTime (bqs : BgQueueStats) : option time.Duration :=
  min (durations bqs).

Definition MaximumRunTime (bqs : BgQueueStats) : option time.Duration :=
  max (durations bqs).

Definition Variance (bqs : BgQueueStats) : option time.Duration :=
  match average (toSeconds (durations bqs)) with
  | None => None
  | Some avg =>
      let deltas := map (fun d => sub d avg) (toSeconds (durations bqs)) in
      let squaredDeltas := fromSeconds (squared deltas) in
      average squaredDeltas
  end.

Definition StdDev (bqs : BgQueueStats) : option time.Duration :=
  match Variance bqs with
  | None => None
  | Some v => Some (fromSecond (sqrt (time.Seconds v)))
  end.

Definition RootMeanSquare (bqs : BgQueueStats) : option time.Duration :=
  match average (squared (toSeconds (durations bqs))) with
  | None => None
  | Some a => Some (fromSecond (sqrt a))
  end.

End bgstats.

(** ** The earlier statistics engine (running aggregate, minimum, maximum)

    The second [bgstats] of the repository keeps no samples: it folds every
    duration into [AggregateTime], [MinDuration] and [MaxDuration]. *)

Module bgstats_running.

Import F64.

Record BgQueueStats : Type := {
  started : time.Time;
  finished : time.Time;
  Total : Z;
  Completed : Z;
  Succeeded : Z;
  Failed : Z;
  Invalid : Z;
  ActiveTime : time.Duration;
  AggregateTime : time.Duration;
  MinDuration : time.Duration;
  MaxDuration : time.Duration
}.

Definition zero : BgQueueStats := {|
  started := 0; finished := 0;
  Total := 0; Completed := 0; Succeeded := 0; Failed := 0; Invalid := 0;
  ActiveTime := 0; AggregateTime := 0; MinDuration := 0; MaxDuration := 0
|}.

Definition Init (bqs : BgQueueStats) (totalJobs : Z) : BgQueueStats := {|
  started := started bqs; finished := finished bqs;
  Total := totalJobs;
  Completed := Completed bqs; Succeeded := Succeeded bqs;
  Failed := Failed bqs; Invalid := Invalid bqs;
  ActiveTime := ActiveTime bqs; AggregateTime := AggregateTime bqs;
  MinDuration := MinDuration bqs; MaxDuration := MaxDuration bqs
|}.

Definition New (totalJobs : Z) : BgQueueStats := Init zero totalJobs.

Definition Start (bqs : BgQueueStats) (now : time.Time) : BgQueueStats := {|
  started := now; finished := finished bqs;
  Total := Total bqs;
  Completed := Completed bqs; Succeeded := Succeeded bqs;
  Failed := Failed bqs; Invalid := Invalid bqs;
  ActiveTime := ActiveTime bqs; AggregateTime := AggregateTime bqs;
  MinDuration := MinDuration bqs; MaxDuration := MaxDuration bqs
|}.

Definition Finish (bqs : BgQueueStats) (now : time.Time) : BgQueueStats := {|
  started := started bqs; finished := now;
  Total := Total bqs;
  Completed := Completed bqs; Succeeded := Succeeded bqs;
  Failed := Failed bqs; Invalid := Invalid bqs;
  ActiveTime := time.Sub now (started bqs);
  AggregateTime := AggregateTime bqs;
  MinDuration := MinDuration bqs; MaxDuration := MaxDuration bqs
|}.

Definition set_counts (bqs : BgQueueStats) (c s f i : Z) : BgQueueStats := {|
  started := started bqs; finished := finished bqs;
  Total := Total bqs;
  Completed := c; Succeeded := s; Failed := f; Invalid := i;
  ActiveTime := ActiveTime bqs; AggregateTime := AggregateTime bqs;
  MinDuration := MinDuration bqs; MaxDuration := MaxDuration bqs
|}.

Definition set_times (bqs : BgQueueStats) (agg mn mx : time.Duration)
    : BgQueueStats := {|
  started := started bqs; finished := finished bqs;
  Total := Total bqs;
  Completed := Completed bqs; Succeeded := Succeeded bqs;
  Failed := Failed bqs; Invalid := Invalid bqs;
  ActiveTime := ActiveTime bqs;
  AggregateTime := agg; MinDuration := mn; MaxDuration := mx
|}.

Definition Update (bqs : BgQueueStats) (bj : bgjob.BackgroundJob)
    : BgQueueStats :=
  let bqs :=
    set_counts bqs (GoInt.add (Completed bqs) 1)
               (Succeeded bqs) (Failed bqs) (Invalid bqs) in
  let bqs :=
    if bgjob.ExitStatus bj =? 0 then
      set_counts bqs (Completed bqs)
                 (GoInt.add (Succeeded bqs) 1) (Failed bqs) (Invalid bqs)
    else if bgjob.ExitStatus bj >? 0 then
      set_counts bqs (Completed bqs)
                 (Succeeded bqs) (GoInt.add (Failed bqs) 1) (Invalid bqs)
    else
      set_counts bqs (Completed bqs)
                 (Succeeded bqs) (Failed bqs) (GoInt.add (Invalid bqs) 1) in
  let bqs :=
    set_times bqs (GoInt.add (AggregateTime bqs) (bgjob.Duration bj))
              (MinDuration bqs) (MaxDuration bqs) in
  let bqs :=
    if (bgjob.Duration bj <? MinDuration bqs) || (MinDuration bqs =? 0)
    then set_times bqs (AggregateTime bqs) (bgjob.Duration bj) (MaxDuration bqs)
    else bqs in
  if bgjob.Duration bj >? MaxDuration bqs
  then set_times bqs (AggregateTime bqs) (MinDuration bqs) (bgjob.Duration bj)
  else bqs.

Definition feed (bqs : BgQueueStats) (jobs : list bgjob.BackgroundJob)
    : BgQueueStats :=
  fold_left Update jobs bqs.

Definition percentage (fraction total : float64) : float64 :=
  let roundingFactor := of_int 1000 in
  div (Round (mul (mul (div fraction total) (of_int 100)) roundingFactor))
      roundingFactor.

Definition CompletionPercentage (bqs : BgQueueStats) : float64 :=
  percentage (of_int (Completed bqs)) (of_int (Total bqs)).

Definition SuccessPercentage (bqs : BgQueueStats) : float64 :=
  percentage (of_int (Succeeded bqs)) (of_int (Total bqs)).

Definition FailurePercentage (bqs : BgQueueStats) : float64 :=
  percentage (of_int (Failed bqs)) (of_int (Total bqs)).

Definition InvalidPercentage (bqs : BgQueueStats) : float64 :=
  percentage (of_int (Failed bqs)) (of_int (Total bqs)).

Definition CompletionRate (bqs : BgQueueStats) : float64 :=
  div (of_int 1)
      (div (time.Seconds (ActiveTime bqs)) (of_int (Completed bqs))).

Definition AverageRunTime (bqs : BgQueueStats) : option time.Duration :=
  GoInt.quo (AggregateTime bqs) (Completed bqs).

Definition MinimumRunTime (bqs : BgQueueStats) : time.Duration :=
  MinDuration bqs.

Definition MaximumRunTime (bqs : BgQueueStats) : time.Duration :=
  MaxDuration bqs.

End bgstats_running.

(** ** Package bgqueue: construction and progress ticks *)

Module bgqueue.

Record BgQueue : Type := {
  numJobs : Z;
  numSlots : Z;
  prefix : string;
  numTicks : Z;
  nextTick : Z;
  tickStep : Z;
  Command : list string;
  Jobs : list bgjob.BackgroundJob;
  QueueStart : time.Time;
  Stats : bgstats.BgQueueStats
}.

(** The zero value [new(BgQueue)]; the channels and the wait group are
    part of the scheduler state further down. *)
Definition zero : BgQueue := {|
  numJobs := 0; numSlots := 0; prefix := EmptyString;
  numTicks := 0; nextTick := 0; tickStep := 0;
  Command := []; Jobs := []; QueueStart := 0;
  Stats := bgstats.zero
|}.

Definition set_ticks (bq : BgQueue) (n next step : Z) : BgQueue := {|
  numJobs := numJobs bq; numSlots := numSlots bq; prefix := prefix bq;
  numTicks := n; nextTick := next; tickStep := step;
  Command := Command bq; Jobs := Jobs bq; QueueStart := QueueStart bq;
  Stats := Stats bq
|}.

Definition set_Stats (bq : BgQueue) (st : bgstats.BgQueueStats) : BgQueue := {|
  numJobs := numJobs bq; numSlots := numSlots bq; prefix := prefix bq;
  numTicks := numTicks bq; nextTick := nextTick bq; tickStep := tickStep bq;
  Command := Command bq; Jobs := Jobs bq; QueueStart := QueueStart bq;
  Stats := st
|}.

Definition updateNextTick (bq : BgQueue) : BgQueue :=
  set_ticks bq (numTicks bq)
            (Z.min (GoInt.add (nextTick bq) (tickStep bq)) (numJobs bq))
            (tickStep bq).

Definition setTicks (bq : BgQueue) (ticks : Z) : BgQueue :=
  let bq := set_ticks bq ticks (nextTick bq) (tickStep bq) in
  let bq :=
    set_ticks bq (numTicks bq) (nextTick bq)
      (F64.to_int
         (F64.Ceil (F64.div (F64.of_int (numJobs bq))
                            (F64.of_int (numTicks bq))))) in
  let bq := set_ticks bq (numTicks bq) 0 (tickStep bq) in
  updateNextTick bq.

(** The job ids [0 .. n-1] of [for i := range bq.Jobs]. *)
Definition job_ids (n : Z) : list Z := map Z.of_nat (seq 0 (Z.to_nat n)).

(** [Init]: [make] panics on a negative size, hence the option. *)
Definition Init (bq : BgQueue) (totalJobs jobSlots : Z) (pfx : string)
    (command : list string) : option BgQueue :=
  let bq := {|
    numJobs := totalJobs; numSlots := jobSlots; prefix := pfx;
    numTicks := numTicks bq; nextTick := nextTick bq; tickStep := tickStep bq;
    Command := command; Jobs := Jobs bq; QueueStart := QueueStart bq;
    Stats := Stats bq
  |} in
  let bq := setTicks bq 20 in
  let bq := set_Stats bq (bgstats.New totalJobs) in
  if (numSlots bq <? 0) || (numJobs bq <? 0) then None
  else Some {|
    numJobs := numJobs bq; numSlots := numSlots bq; prefix := prefix bq;
    numTicks := numTicks bq; nextTick := nextTick bq; tickStep := tickStep bq;
    Command := Command bq;
    Jobs := map (fun i => bgjob.New i "bgjob" (Command bq))
                (job_ids (numJobs bq));
    QueueStart := QueueStart bq;
    Stats := Stats bq
  |}.

Definition New (totalJobs jobSlots : Z) (pfx : string)
    (command : list string) : option BgQueue :=
  Init zero totalJobs jobSlots pfx command.

(** One turn of the consumer loop of [Run] on a received job; the flag
    tells whether the progress callback fires. *)
Definition consume (bq : BgQueue) (bj : bgjob.BackgroundJob)
    : BgQueue * bool :=
  let bq := set_Stats bq (bgstats.Update (Stats bq) bj) in
  if bgstats.Completed (Stats bq) >=? nextTick bq
  then (updateNextTick bq, true)
  else (bq, false).

(** The boundary in force after [k] further calls of [updateNextTick]. *)
Fixpoint boundary (bq : BgQueue) (k : nat) : Z :=
  match k with
  | O => nextTick bq
  | S k => boundary (updateNextTick bq) k
  end.

(** The consumer loop of [Run] over the jobs in the order the result
    stream delivers them; the flags tell, job by job, whether the progress
    callback fired. *)
Fixpoint drain (bq : BgQueue) (jobs : list bgjob.BackgroundJob)
    : BgQueue * list bool :=
  match jobs with
  | [] => (bq, [])
  | bj :: rest =>
      let (bq1, fired) := consume bq bj in
      let (bq2, flags) := drain bq1 rest in
      (bq2, fired :: flags)
  end.

(** The main goroutine of [Run]: the clock is read twice on entry (by
    [Stats.Start] and for [QueueStart]), the stream is drained until it
    is closed, the clock is read again by [Stats.Finish]. *)
Definition Run_main (bq : BgQueue) (start queueStart : time.Time)
    (received : list bgjob.BackgroundJob) (finish : time.Time)
    : BgQueue * list bool :=
  let bq := set_Stats bq (bgstats.Start (Stats bq) start) in
  let bq := {|
    numJobs := numJobs bq; numSlots := numSlots bq; prefix := prefix bq;
    numTicks := numTicks bq; nextTick := nextTick bq; tickStep := tickStep bq;
    Command := Command bq; Jobs := Jobs bq; QueueStart := queueStart;
    Stats := Stats bq
  |} in
  let (bq, flags) := drain bq received in
  (set_Stats bq (bgstats.Finish (Stats bq) finish), flags).

End bgqueue.

(** ** The first front end (before [bgqueue] existed as a package)

    [runBackgroundJob] of the stand-alone programs classifies the outcome
    of a command as [bgjob.Run] does, except that it forgets the error of a
    command that ran and exited non-zero.  The consumer loop of the oldest
    program tracks the minimum and maximum durations in local variables. *)

Module legacy.

Import exec.

(** The part of [runBackgroundJob] after [cmd.Run()] has returned. *)
Definition classify (job : bgjob.BackgroundJob) (now : time.Time)
    (o : Outcome) : bgjob.BackgroundJob :=
  let job := {|
    bgjob.Id := bgjob.Id job; bgjob.Name := bgjob.Name job;
    bgjob.Command := bgjob.Command job;
    bgjob.Created := bgjob.Created job; bgjob.Started := bgjob.Started job;
    bgjob.Duration := time.Sub now (bgjob.Started job);
    bgjob.Stdout := out_buffer o; bgjob.Stderr := err_buffer o;
    bgjob.ExitStatus := bgjob.ExitStatus job;
    bgjob.Error := run_error o;
    bgjob.CmdError := bgjob.CmdError job
  |} in
  match bgjob.Error job with
  | None => job
  | Some e =>
      let job :=
        match e with
        | ExitError code => {|
            bgjob.Id := bgjob.Id job; bgjob.Name := bgjob.Name job;
            bgjob.Command := bgjob.Command job;
            bgjob.Created := bgjob.Created job;
            bgjob.Started := bgjob.Started job;
            bgjob.Duration := bgjob.Duration job;
            bgjob.Stdout := bgjob.Stdout job; bgjob.Stderr := bgjob.Stderr job;
            bgjob.ExitStatus := code;
            bgjob.Error := None;
            bgjob.CmdError := bgjob.CmdError job
          |}
        | OtherError _ => {|
            bgjob.Id := bgjob.Id job; bgjob.Name := bgjob.Name job;
            bgjob.Command := bgjob.Command job;
            bgjob.Created := bgjob.Created job;
            bgjob.Started := bgjob.Started job;
            bgjob.Duration := bgjob.Duration job;
            bgjob.Stdout := bgjob.Stdout job; bgjob.Stderr := bgjob.Stderr job;
            bgjob.ExitStatus := -1;
            bgjob.Error := bgjob.Error job;
            bgjob.CmdError := bgjob.CmdError job
          |}
        end in
      match cmd_Err o with
      | None => job
      | Some c => {|
          bgjob.Id := bgjob.Id job; bgjob.Name := bgjob.Name job;
          bgjob.Command := bgjob.Command job;
          bgjob.Created := bgjob.Created job;
          bgjob.Started := bgjob.Started job;
          bgjob.Duration := bgjob.Duration job;
          bgjob.Stdout := bgjob.Stdout job; bgjob.Stderr := bgjob.Stderr job;
          bgjob.ExitStatus := bgjob.ExitStatus job;
          bgjob.Error := bgjob.Error job;
          bgjob.CmdError := Some c
        |}
      end
  end.

(** The name the oldest [runBackgroundJob] gives its job. *)
Definition job_name (optPrefix : string) (jobId : Z) : string :=
  optPrefix ++ "_" ++ fmt.pad06d jobId.

(** The locals of the consumer loop of the oldest [main]. *)
Record Totals : Type := {
  totalDuration : time.Duration;
  minDuration : time.Duration;
  maxDuration : time.Duration;
  completed : Z
}.

Definition start : Totals := {|
  totalDuration := 0; minDuration := 0; maxDuration := 0; completed := 0
|}.

Definition account (t : Totals) (d : time.Duration) : Totals :=
  let mn :=
    if (d <? minDuration t) || (minDuration t =? 0) then d
    else minDuration t in
  let mx := if d >? maxDuration t then d else maxDuration t in
  {| totalDuration := GoInt.add (totalDuration t) d;
     minDuration := mn; maxDuration := mx;
     completed := GoInt.add (completed t) 1 |}.

Definition drain (ds : list time.Duration) : Totals :=
  fold_left account ds start.

End legacy.

(** ** Vocabulary of the specification *)

(** The exit statuses of a list of jobs and how many satisfy a test. *)
Definition statuses (jobs : list bgjob.BackgroundJob) : list Z :=
  map bgjob.ExitStatus jobs.

Definition count_status (p : Z -> bool) (jobs : list bgjob.BackgroundJob) : Z :=
  Z.of_nat (List.length (filter p (statuses jobs))).

(** One completed job moves exactly one of the three outcome counters,
    the one its exit status selects, by one. *)
Definition one_outcome (status : Z) (s f i s' f' i' : Z) : Prop :=
  (status = 0 /\ s' = s + 1 /\ f' = f /\ i' = i) \/
  (status > 0 /\ s' = s /\ f' = f + 1 /\ i' = i) \/
  (status < 0 /\ s' = s /\ f' = f /\ i' = i + 1).

(** A completed job of the default command with a given exit status and
    duration, as the result stream delivers it to the statistics engine. *)
Definition finished_job (status : Z) (d : time.Duration)
    : bgjob.BackgroundJob := {|
  bgjob.Id := 0; bgjob.Name := "bgjob_000000";
  bgjob.Command := ["echo"%string; "Hello"%string; "World"%string];
  bgjob.Created := 0; bgjob.Started := 0; bgjob.Duration := d;
  bgjob.Stdout := EmptyString; bgjob.Stderr := EmptyString;
  bgjob.ExitStatus := status; bgjob.Error := None; bgjob.CmdError := None
|}.

(** The exact sum of a list of durations. *)
Definition total (ds : list Z) : Z := fold_right Z.add 0 ds.

(** The three run-time queries answer, and in the order minimum, average,
    maximum. *)
Definition run_times_ordered (s : bgstats.BgQueueStats) : Prop :=
  exists mn avg mx,
    bgstats.MinimumRunTime s = Some mn /\
    bgstats.AverageRunTime s = Some avg /\
    bgstats.MaximumRunTime s = Some mx /\
    mn <= avg <= mx.

(** Every sample-based query answers: none of them panics. *)
Definition queries_defined (s : bgstats.BgQueueStats) : Prop :=
  (exists d, bgstats.AverageRunTime s = Some d) /\
  (exists d, bgstats.MinimumRunTime s = Some d) /\
  (exists d, bgstats.MaximumRunTime s = Some d) /\
  (exists d, bgstats.Variance s = Some d) /\
  (exists d, bgstats.StdDev s = Some d) /\
  (exists d, bgstats.RootMeanSquare s = Some d).

(** [m] is the least element of [ds]. *)
Definition is_minimum (m : Z) (ds : list Z) : Prop :=
  In m ds /\ Forall (fun d => m <= d) ds.

Definition is_zero (x : F64.float64) : bool :=
  match x with S754_zero _ => true | _ => false end.

(** No division of [CompletionRate] has a zero divisor. *)
Definition rate_divides_by_nonzero (s : bgstats.BgQueueStats) : Prop :=
  Forall (fun d => is_zero d = false) (bgstats.CompletionRate_divisors s).

(** The invariant the specification states of a job that has run: a
    negative exit status exactly when a launch cause is recorded. *)
Definition launch_invariant (bj : bgjob.BackgroundJob) : Prop :=
  bgjob.ExitStatus bj < 0 <-> bgjob.CmdError bj <> None.

(** Outcomes of [cmd.Run()] used as examples: a command that exits with
    status 0, one that exits with a given non-zero status, a name that
    [exec.Command] could not resolve, a path that could not be started
    (no lookup takes place for a name containing a separator, [cmd.Err]
    stays nil and [Run] returns the error of the failed fork/exec). *)
Definition exited_zero : exec.Outcome := {|
  exec.run_error := None; exec.cmd_Err := None;
  exec.out_buffer := "Hello World"; exec.err_buffer := EmptyString
|}.

Definition exited_with (code : Z) : exec.Outcome := {|
  exec.run_error := Some (exec.ExitError code); exec.cmd_Err := None;
  exec.out_buffer := EmptyString; exec.err_buffer := EmptyString
|}.

Definition not_found : exec.Outcome := {|
  exec.run_error := Some (exec.OtherError "executable file not found in $PATH");
  exec.cmd_Err := Some (exec.OtherError "executable file not found in $PATH");
  exec.out_buffer := EmptyString; exec.err_buffer := EmptyString
|}.

Definition not_started : exec.Outcome := {|
  exec.run_error := Some (exec.OtherError "fork/exec: no such file or directory");
  exec.cmd_Err := None;
  exec.out_buffer := EmptyString; exec.err_buffer := EmptyString
|}.

(** The ceiling of [n / t] for positive [t]. *)
Definition ceil_div (n t : Z) : Z := (n + t - 1) / t.

(** The positions [1 .. n] of the jobs in the order of their arrival. *)
Definition arrivals (n : nat) : list Z := map Z.of_nat (seq 1 n).

(** The arrival fires the progress callback: the count is a multiple of
    the tick step, or the last job has arrived. *)
Definition at_tick (step n i : Z) : bool := (i mod step =? 0) || (i =? n).

(** What the consumer loop keeps true after [i] jobs. *)
Definition ticking (N s i : Z) (bq : bgqueue.BgQueue) : Prop :=
  bgqueue.numJobs bq = N /\ bgqueue.tickStep bq = s /\
  bgstats.Completed (bgqueue.Stats bq) = i /\
  bgqueue.nextTick bq = Z.min ((i / s + 1) * s) N.

(** How often the progress callback fired. *)
Definition fired (flags : list bool) : Z :=
  Z.of_nat (List.length (filter (fun b : bool => b) flags)).

(** [m] is the greatest element of [ds]. *)
Definition is_maximum (m : Z) (ds : list Z) : Prop :=
  In m ds /\ Forall (fun d => d <= m) ds.

(** ** The command line of the front ends *)

Module cli.






End cli.

(** ** Package bgqueue: the goroutines of [Run]

    [Run] starts one goroutine [runJob] per job and one goroutine that
    closes the result channel, and then drains that channel.  The state
    below holds the queue (with the job objects all goroutines share by
    pointer), one program counter per goroutine, the two channels and the
    wait group; [step] has one rule per statement that touches shared
    state, so every interleaving Go allows is a sequence of steps.

    The slot channel has capacity [numSlots] and the result channel
    capacity [numJobs], as [Init] allocates them: a send is a step when
    the channel holds fewer elements than its capacity.  (With capacity
    0 a send needs a receiver that is already waiting; on the slot
    channel there is none, and the result channel has capacity 0 only
    for a queue of no jobs as long as [numJobs] is the number of jobs.)
    A panic of [bj.Run] ends the program: it is not a step. *)

Module sched.

(** Where the goroutine of a job stands in [runJob]. *)
Inductive job_pc : Type :=
| Unspawned    (* [go bq.runJob(...)] not yet executed *)
| Ready        (* spawned, before [bj.MarkReady()] *)
| Waiting      (* blocked in [slot <- bgJobSlot{}] *)
| Started      (* slot held, [bj.MarkStarted()] done, command running *)
| Finished     (* [bj.Run()] returned, before [resultQueue <- bj] *)
| Published    (* result sent, before the deferred [<-slot] *)
| Released     (* slot given back, before the deferred [JobGroup.Done()] *)
| Exited.

(** Where the main goroutine stands in [Run]. *)
Inductive main_pc : Type :=
| Entering               (* before [bq.Stats.Start()] *)
| Spawning (i : nat)     (* in the first loop, [i] goroutines started *)
| Draining               (* in [for bj := range bq.jobResults] *)
| Leaving                (* the channel was found closed and empty *)
| Returned.

(** Where the goroutine that closes the result channel stands. *)
Inductive closer_pc : Type :=
| Absent       (* not yet started *)
| Joining      (* in [bq.JobGroup.Wait()] *)
| Closing      (* before [close(bq.jobResults)] *)
| Gone.

Record State : Type := {
  queue : bgqueue.BgQueue;
  main : main_pc;
  closer : closer_pc;
  pcs : list job_pc;
  slots : nat;              (* number of tokens in [bq.jobSlots] *)
  results : list nat;       (* [bq.jobResults]: indices of the jobs sent *)
  closed : bool;            (* [bq.jobResults] is closed *)
  group : nat;              (* counter of [bq.JobGroup] *)
  consumed : list nat;      (* jobs received by the consumer, in order *)
  ticks : list bool         (* did the progress callback fire, per job *)
}.

Fixpoint replace_at {A : Type} (l : list A) (i : nat) (x : A) : list A :=
  match l, i with
  | [], _ => []
  | _ :: l, O => x :: l
  | a :: l, S i => a :: replace_at l i x
  end.

Definition set_Jobs (bq : bgqueue.BgQueue) (jobs : list bgjob.BackgroundJob)
    : bgqueue.BgQueue := {|
  bgqueue.numJobs := bgqueue.numJobs bq; bgqueue.numSlots := bgqueue.numSlots bq;
  bgqueue.prefix := bgqueue.prefix bq;
  bgqueue.numTicks := bgqueue.numTicks bq; bgqueue.nextTick := bgqueue.nextTick bq;
  bgqueue.tickStep := bgqueue.tickStep bq;
  bgqueue.Command := bgqueue.Command bq; bgqueue.Jobs := jobs;
  bgqueue.QueueStart := bgqueue.QueueStart bq; bgqueue.Stats := bgqueue.Stats bq
|}.

Definition set_QueueStart (bq : bgqueue.BgQueue) (t : time.Time)
    : bgqueue.BgQueue := {|
  bgqueue.numJobs := bgqueue.numJobs bq; bgqueue.numSlots := bgqueue.numSlots bq;
  bgqueue.prefix := bgqueue.prefix bq;
  bgqueue.numTicks := bgqueue.numTicks bq; bgqueue.nextTick := bgqueue.nextTick bq;
  bgqueue.tickStep := bgqueue.tickStep bq;
  bgqueue.Command := bgqueue.Command bq; bgqueue.Jobs := bgqueue.Jobs bq;
  bgqueue.QueueStart := t; bgqueue.Stats := bgqueue.Stats bq
|}.

(** The job object [bq.Jobs[i]] is overwritten in place. *)
Definition store_job (bq : bgqueue.BgQueue) (i : nat) (bj : bgjob.BackgroundJob)
    : bgqueue.BgQueue :=
  set_Jobs bq (replace_at (bgqueue.Jobs bq) i bj).

Definition job_at (s : State) (i : nat) : option bgjob.BackgroundJob :=
  nth_error (bgqueue.Jobs (queue s)) i.

(** A goroutine of a job moves on: its counter and, possibly, its job
    object, the token count and the wait group change. *)
Definition move (s : State) (i : nat) (pc : job_pc) (q : bgqueue.BgQueue)
    (tokens : nat) (counter : nat) : State := {|
  queue := q; main := main s; closer := closer s;
  pcs := replace_at (pcs s) i pc;
  slots := tokens; results := results s; closed := closed s;
  group := counter; consumed := consumed s; ticks := ticks s
|}.

(** The state on entry of [Run]. *)
Definition init (bq : bgqueue.BgQueue) : State := {|
  queue := bq; main := Entering; closer := Absent;
  pcs := repeat Unspawned (List.length (bgqueue.Jobs bq));
  slots := 0; results := []; closed := false; group := 0;
  consumed := []; ticks := []
|}.

Inductive step : State -> State -> Prop :=
(* bq.Stats.Start(); bq.QueueStart = time.Now() *)
| step_enter s now1 now2 :
    main s = Entering ->
    step s {| queue := set_QueueStart
                         (bgqueue.set_Stats (queue s)
                            (bgstats.Start (bgqueue.Stats (queue s)) now1)) now2;
              main := Spawning 0; closer := closer s; pcs := pcs s;
              slots := slots s; results := results s; closed := closed s;
              group := group s; consumed := consumed s; ticks := ticks s |}
(* bq.JobGroup.Add(1); go bq.runJob(bq.Jobs[i], ...) *)
| step_spawn s i :
    main s = Spawning i ->
    (i < List.length (bgqueue.Jobs (queue s)))%nat ->
    step s {| queue := queue s; main := Spawning (S i); closer := closer s;
              pcs := replace_at (pcs s) i Ready;
              slots := slots s; results := results s; closed := closed s;
              group := S (group s); consumed := consumed s; ticks := ticks s |}
(* go func() { bq.JobGroup.Wait(); close(bq.jobResults) }() *)
| step_spawn_closer s i :
    main s = Spawning i ->
    i = List.length (bgqueue.Jobs (queue s)) ->
    step s {| queue := queue s; main := Draining; closer := Joining;
              pcs := pcs s;
              slots := slots s; results := results s; closed := closed s;
              group := group s; consumed := consumed s; ticks := ticks s |}
(* bj.MarkReady() *)
| step_ready s i bj now :
    nth_error (pcs s) i = Some Ready ->
    job_at s i = Some bj ->
    step s (move s i Waiting (store_job (queue s) i (bgjob.MarkReady bj now))
                 (slots s) (group s))
(* slot <- bgJobSlot{}; bj.MarkStarted() *)
| step_acquire s i bj now :
    nth_error (pcs s) i = Some Waiting ->
    job_at s i = Some bj ->
    Z.of_nat (slots s) < bgqueue.numSlots (queue s) ->
    step s (move s i Started (store_job (queue s) i (bgjob.MarkStarted bj now))
                 (S (slots s)) (group s))
(* bj.Run() *)
| step_run s i bj now o bj' err :
    nth_error (pcs s) i = Some Started ->
    job_at s i = Some bj ->
    bgjob.Run bj now o = Some (bj', err) ->
    step s (move s i Finished (store_job (queue s) i bj') (slots s) (group s))
(* resultQueue <- bj *)
| step_publish s i :
    nth_error (pcs s) i = Some Finished ->
    Z.of_nat (List.length (results s)) < bgqueue.numJobs (queue s) ->
    closed s = false ->
    step s {| queue := queue s; main := main s; closer := closer s;
              pcs := replace_at (pcs s) i Published;
              slots := slots s; results := results s ++ [i];
              closed := closed s; group := group s;
              consumed := consumed s; ticks := ticks s |}
(* deferred: <-slot *)
| step_release s i k :
    nth_error (pcs s) i = Some Published ->
    slots s = S k ->
    step s (move s i Released (queue s) k (group s))
(* deferred: bq.JobGroup.Done() *)
| step_done s i g :
    nth_error (pcs s) i = Some Released ->
    group s = S g ->
    step s (move s i Exited (queue s) (slots s) g)
(* bq.JobGroup.Wait() returns *)
| step_join s :
    closer s = Joining -> group s = 0%nat ->
    step s {| queue := queue s; main := main s; closer := Closing;
              pcs := pcs s;
              slots := slots s; results := results s; closed := closed s;
              group := group s; consumed := consumed s; ticks := ticks s |}
(* close(bq.jobResults) *)
| step_close s :
    closer s = Closing ->
    step s {| queue := queue s; main := main s; closer := Gone;
              pcs := pcs s;
              slots := slots s; results := results s; closed := true;
              group := group s; consumed := consumed s; ticks := ticks s |}
(* bj := <-bq.jobResults; Stats.Update(bj); tick; progress *)
| step_receive s i rest bj :
    main s = Draining ->
    results s = i :: rest ->
    job_at s i = Some bj ->
    step s {| queue := fst (bgqueue.consume (queue s) bj);
              main := main s; closer := closer s; pcs := pcs s;
              slots := slots s; results := rest; closed := closed s;
              group := group s; consumed := consumed s ++ [i];
              ticks := ticks s ++ [snd (bgqueue.consume (queue s) bj)] |}
(* the range loop ends: the channel is empty and closed *)
| step_leave s :
    main s = Draining -> results s = [] -> closed s = true ->
    step s {| queue := queue s; main := Leaving; closer := closer s;
              pcs := pcs s;
              slots := slots s; results := results s; closed := closed s;
              group := group s; consumed := consumed s; ticks := ticks s |}
(* bq.Stats.Finish() *)
| step_finish s now :
    main s = Leaving ->
    step s {| queue := bgqueue.set_Stats (queue s)
                         (bgstats.Finish (bgqueue.Stats (queue s)) now);
              main := Returned; closer := closer s; pcs := pcs s;
              slots := slots s; results := results s; closed := closed s;
              group := group s; consumed := consumed s; ticks := ticks s |}.

(** The states of the runs of [Run] on a queue. *)
Inductive reachable (bq : bgqueue.BgQueue) : State -> Prop :=
| reach_init : reachable bq (init bq)
| reach_step s s' : reachable bq s -> step s s' -> reachable bq s'.

(** The job holds a token of the admission pool. *)
Definition holding (pc : job_pc) : bool :=
  match pc with Started | Finished | Published => true | _ => false end.

(** The command of the job is running. *)
Definition executing (pc : job_pc) : bool :=
  match pc with Started => true | _ => false end.

(** The goroutine was started and has not called [Done]. *)
Definition alive (pc : job_pc) : bool :=
  match pc with Unspawned | Exited => false | _ => true end.

(** The result of the job was sent. *)
Definition handed (pc : job_pc) : bool :=
  match pc with Published | Released | Exited => true | _ => false end.

Definition count (p : job_pc -> bool) (l : list job_pc) : nat :=
  List.length (filter p l).

(** *** Invariants of the goroutines *)

Definition b2n (b : bool) : nat := if b then 1%nat else 0%nat.

(** The first job whose goroutine is still to be started. *)
Definition frontier (m : main_pc) (n : nat) : nat :=
  match m with
  | Entering => 0
  | Spawning i => i
  | _ => n
  end.

(** The part of the state that no step changes, and the counters. *)
Record shape (bq : bgqueue.BgQueue) (s : State) : Prop := {
  sh_pcs : List.length (pcs s) = List.length (bgqueue.Jobs bq);
  sh_jobs : List.length (bgqueue.Jobs (queue s)) = List.length (bgqueue.Jobs bq);
  sh_numJobs : bgqueue.numJobs (queue s) = bgqueue.numJobs bq;
  sh_numSlots : bgqueue.numSlots (queue s) = bgqueue.numSlots bq;
  sh_slots : slots s = count holding (pcs s);
  sh_cap : Z.of_nat (slots s) <= bgqueue.numSlots bq;
  sh_group : group s = count alive (pcs s);
  sh_ticks : List.length (ticks s) = List.length (consumed s);
  sh_bound : (frontier (main s) (List.length (bgqueue.Jobs bq))
              <= List.length (bgqueue.Jobs bq))%nat;
  sh_frontier : forall j pc, nth_error (pcs s) j = Some pc ->
      (pc = Unspawned <->
       (frontier (main s) (List.length (bgqueue.Jobs bq)) <= j)%nat)
}.

(** The main goroutine is still starting goroutines. *)
Definition starting (m : main_pc) : Prop :=
  m = Entering \/ exists i, m = Spawning i.

(** How the channels, the wait group and the goroutines hang together. *)
Record protocol (s : State) : Prop := {
  pr_absent : closer s = Absent <-> starting (main s);
  pr_joined : closer s = Closing \/ closer s = Gone ->
              forall j pc, nth_error (pcs s) j = Some pc -> pc = Exited;
  pr_closed : closed s = true <-> closer s = Gone;
  pr_nodup : NoDup (consumed s ++ results s);
  pr_handed : forall j, In j (consumed s ++ results s) <->
                exists pc, nth_error (pcs s) j = Some pc /\ handed pc = true;
  pr_end : main s = Leaving \/ main s = Returned ->
           results s = [] /\ closed s = true
}.

(** The jobs the consumer loop has received so far, as the objects are
    now. *)
Definition received (s : State) : list bgjob.BackgroundJob :=
  map (fun i => nth i (bgqueue.Jobs (queue s)) bgjob.zero) (consumed s).

(** Two accumulators agree on everything but the clock readings. *)
Definition same_counts (a b : bgstats.BgQueueStats) : Prop :=
  bgstats.durations a = bgstats.durations b /\
  bgstats.Total a = bgstats.Total b /\
  bgstats.Completed a = bgstats.Completed b /\
  bgstats.Succeeded a = bgstats.Succeeded b /\
  bgstats.Failed a = bgstats.Failed b /\
  bgstats.Invalid a = bgstats.Invalid b.

(** Two job objects are the same job: id, name and command. *)
Definition same_job (a b : bgjob.BackgroundJob) : Prop :=
  bgjob.Id a = bgjob.Id b /\ bgjob.Name a = bgjob.Name b /\
  bgjob.Command a = bgjob.Command b.

(** The accumulator has seen exactly the received jobs, and the job
    objects keep their identity. *)
Record accounting (bq : bgqueue.BgQueue) (s : State) : Prop := {
  ac_stats : same_counts (bgqueue.Stats (queue s))
               (bgstats.feed (bgqueue.Stats bq) (received s));
  ac_jobs : forall i a b,
      nth_error (bgqueue.Jobs bq) i = Some a -> job_at s i = Some b ->
      same_job a b
}.

(** Steps left to the goroutine of a job, to the closing goroutine and to
    the main goroutine. *)
Definition job_left (pc : job_pc) : nat :=
  match pc with
  | Unspawned | Ready => 6
  | Waiting => 5
  | Started => 4
  | Finished => 3
  | Published => 2
  | Released => 1
  | Exited => 0
  end.

Definition closer_left (pc : closer_pc) : nat :=
  match pc with
  | Absent | Joining => 2
  | Closing => 1
  | Gone => 0
  end.

Definition main_left (n : nat) (pc : main_pc) : nat :=
  match pc with
  | Entering => n + 4
  | Spawning i => (n - i) + 3
  | Draining => 2
  | Leaving => 1
  | Returned => 0
  end.

Definition steps_left (s : State) : nat :=
  let n := List.length (pcs s) in
  list_sum (map job_left (pcs s))
  + closer_left (closer s)
  + main_left n (main s)
  + (n - List.length (consumed s)).

(** The states reached after exactly [k] steps. *)
Inductive reachable_in (bq : bgqueue.BgQueue) : nat -> State -> Prop :=
| reach_0 : reachable_in bq 0 (init bq)
| reach_S k s s' :
    reachable_in bq k s -> step s s' -> reachable_in bq (S k) s'.

(** A run continues from one state to another. *)
Inductive steps : State -> State -> Prop :=
| steps_refl s : steps s s
| steps_step s s' s'' : step s s' -> steps s' s'' -> steps s s''.

(** The queue is as [Init] leaves it: as many jobs as [numJobs], so that
    the result channel has room for every job. *)
Definition sized (bq : bgqueue.BgQueue) : Prop :=
  Z.of_nat (List.length (bgqueue.Jobs bq)) = bgqueue.numJobs bq.

(** ... and every job has a command, so that [bj.Run] does not panic on
    [Command[0]]. *)
Definition well_formed (bq : bgqueue.BgQueue) : Prop :=
  sized bq /\
  Forall (fun bj => bgjob.Command bj <> []) (bgqueue.Jobs bq).

(** *** The run as a sequential loop *)

(** The queue after the first two statements of [Run]. *)
Definition entered (bq : bgqueue.BgQueue) (start queueStart : time.Time)
    : bgqueue.BgQueue :=
  set_QueueStart
    (bgqueue.set_Stats bq (bgstats.Start (bgqueue.Stats bq) start))
    queueStart.

(** The queue (its job objects apart) and the progress flags are those of
    the sequential loop over the jobs received so far. *)
Definition sequential (bq : bgqueue.BgQueue) (s : State) : Prop :=
  let q := set_Jobs (queue s) (bgqueue.Jobs bq) in
  match main s with
  | Entering => q = bq /\ consumed s = [] /\ ticks s = []
  | Returned =>
      exists t1 t2 t3,
        (q, ticks s) = bgqueue.Run_main bq t1 t2 (received s) t3
  | _ =>
      exists t1 t2,
        (q, ticks s) = bgqueue.drain (entered bq t1 t2) (received s)
  end.

(** What the goroutine of a job has done to its object [a] so far. *)
Definition stage (pc : job_pc) (a b : bgjob.BackgroundJob) : Prop :=
  match pc with
  | Unspawned | Ready => b = a
  | Waiting => exists t1, b = bgjob.MarkReady a t1
  | Started =>
      exists t1 t2, b = bgjob.MarkStarted (bgjob.MarkReady a t1) t2
  | Finished | Published | Released | Exited =>
      exists t1 t2 t3 o,
        bgjob.Run (bgjob.MarkStarted (bgjob.MarkReady a t1) t2) t3 o
        = Some (b, bgjob.Error b)
  end.

Definition lifecycle (bq : bgqueue.BgQueue) (s : State) : Prop :=
  forall i pc a b,
    nth_error (pcs s) i = Some pc ->
    nth_error (bgqueue.Jobs bq) i = Some a ->
    job_at s i = Some b ->
    stage pc a b.

End sched.

(** A queue of one job on one slot, and one without a slot, as [New]
    builds them. *)
Definition one_job : bgqueue.BgQueue :=
  Eval cbv in
  match bgqueue.New 1 1 "bgjob" ["true"%string] with
  | Some bq => bq
  | None => bgqueue.zero
  end.

Definition no_slot : bgqueue.BgQueue :=
  Eval cbv in
  match bgqueue.New 1 0 "bgjob" ["true"%string] with
  | Some bq => bq
  | None => bgqueue.zero
  end.

(** * Properties *)

(** ** Wrap-around arithmetic *)

Section WrapFacts.

Import GoInt.

Lemma wrap_id (z : Z) : in_range z -> wrap z = z.
Proof.
  unfold in_range, wrap, min_int, max_int. intros Hz.
  rewrite Z.mod_small; lia.
Qed.

Lemma wrap_in_range (z : Z) : in_range (wrap z).
Proof.
  unfold in_range, wrap, min_int, max_int.
  pose proof (Z.mod_pos_bound (z + 2 ^ 63) (2 ^ 64) ltac:(lia)). lia.
Qed.

Lemma wrap_add_l (a b : Z) : wrap (wrap a + b) = wrap (a + b).
Proof.
  unfold wrap.
  replace ((a + 2 ^ 63) mod 2 ^ 64 - 2 ^ 63 + b + 2 ^ 63)
    with ((a + 2 ^ 63) mod 2 ^ 64 + b) by lia.
  rewrite Zplus_mod_idemp_l. f_equal. f_equal. lia.
Qed.

Lemma add_exact (a b : Z) : in_range (a + b) -> add a b = a + b.
Proof. apply wrap_id. Qed.

End WrapFacts.

(** ** Counters of the statistics engines *)

Lemma count_status_snoc (p : Z -> bool) jobs bj :
  count_status p (jobs ++ [bj]) =
  count_status p jobs + (if p (bgjob.ExitStatus bj) then 1 else 0).
Proof.
  unfold count_status, statuses.
  rewrite map_app, filter_app, length_app. simpl.
  destruct (p (bgjob.ExitStatus bj)); simpl; lia.
Qed.

Lemma count_status_bounds (p : Z -> bool) jobs :
  0 <= count_status p jobs <= Z.of_nat (List.length jobs).
Proof.
  unfold count_status, statuses. split; [lia|].
  apply inj_le. rewrite <- (length_map bgjob.ExitStatus jobs).
  apply filter_length_le.
Qed.

Lemma count_status_partition jobs :
  count_status (fun z => z =? 0) jobs + count_status (fun z => z >? 0) jobs
  + count_status (fun z => z <? 0) jobs = Z.of_nat (List.length jobs).
Proof.
  induction jobs as [|bj jobs IH] using rev_ind.
  - reflexivity.
  - rewrite !count_status_snoc, length_app. simpl.
    destruct (Z.eqb_spec (bgjob.ExitStatus bj) 0);
      destruct (Z.gtb_spec (bgjob.ExitStatus bj) 0);
      destruct (Z.ltb_spec (bgjob.ExitStatus bj) 0); lia.
Qed.

Lemma max_int_value : GoInt.max_int = 9223372036854775807.
Proof. reflexivity. Qed.

Lemma min_int_value : GoInt.min_int = -9223372036854775808.
Proof. reflexivity. Qed.

Ltac int_range :=
  unfold GoInt.in_range; rewrite ?max_int_value, ?min_int_value in *; lia.

Module StatsCounters.

Import bgstats.

Lemma feed_snoc bqs jobs bj :
  feed bqs (jobs ++ [bj]) = Update (feed bqs jobs) bj.
Proof. unfold feed. now rewrite fold_left_app. Qed.

Lemma Update_Total bqs bj : Total (Update bqs bj) = Total bqs.
Proof.
  unfold Update.
  destruct (bgjob.ExitStatus bj =? 0); [reflexivity|].
  destruct (bgjob.ExitStatus bj >? 0); reflexivity.
Qed.

Lemma Update_durations bqs bj :
  durations (Update bqs bj) = durations bqs ++ [bgjob.Duration bj].
Proof.
  unfold Update.
  destruct (bgjob.ExitStatus bj =? 0); [reflexivity|].
  destruct (bgjob.ExitStatus bj >? 0); reflexivity.
Qed.

Lemma Update_Completed bqs bj :
  Completed (Update bqs bj) = GoInt.add (Completed bqs) 1.
Proof.
  unfold Update.
  destruct (bgjob.ExitStatus bj =? 0); [reflexivity|].
  destruct (bgjob.ExitStatus bj >? 0); reflexivity.
Qed.

Lemma Update_Succeeded bqs bj :
  Succeeded (Update bqs bj) =
  if bgjob.ExitStatus bj =? 0 then GoInt.add (Succeeded bqs) 1
  else Succeeded bqs.
Proof.
  unfold Update.
  destruct (bgjob.ExitStatus bj =? 0); [reflexivity|].
  destruct (bgjob.ExitStatus bj >? 0); reflexivity.
Qed.

Lemma Update_Failed bqs bj :
  Failed (Update bqs bj) =
  if bgjob.ExitStatus bj >? 0 then GoInt.add (Failed bqs) 1
  else Failed bqs.
Proof.
  unfold Update.
  destruct (Z.eqb_spec (bgjob.ExitStatus bj) 0) as [E|E].
  - rewrite E. reflexivity.
  - destruct (bgjob.ExitStatus bj >? 0); reflexivity.
Qed.

Lemma Update_Invalid bqs bj :
  Invalid (Update bqs bj) =
  if bgjob.ExitStatus bj <? 0 then GoInt.add (Invalid bqs) 1
  else Invalid bqs.
Proof.
  unfold Update.
  destruct (Z.eqb_spec (bgjob.ExitStatus bj) 0) as [E|E].
  - rewrite E. reflexivity.
  - destruct (Z.gtb_spec (bgjob.ExitStatus bj) 0);
      destruct (Z.ltb_spec (bgjob.ExitStatus bj) 0);
      try reflexivity; lia.
Qed.

(** The counters are the exact counts as long as the number of jobs
    fits an [int]. *)
Lemma feed_counts (n : Z) (jobs : list bgjob.BackgroundJob) :
  Z.of_nat (List.length jobs) <= GoInt.max_int ->
  let s := feed (New n) jobs in
  Completed s = Z.of_nat (List.length jobs) /\
  Succeeded s = count_status (fun z => z =? 0) jobs /\
  Failed s = count_status (fun z => z >? 0) jobs /\
  Invalid s = count_status (fun z => z <? 0) jobs.
Proof.
  induction jobs as [|bj jobs IH] using rev_ind; intros Hlen.
  - repeat split.
  - rewrite length_app in Hlen. simpl in Hlen.
    destruct IH as (HC & HS & HF & HI); [lia|].
    pose proof (count_status_bounds (fun z => z =? 0) jobs).
    pose proof (count_status_bounds (fun z => z >? 0) jobs).
    pose proof (count_status_bounds (fun z => z <? 0) jobs).
    cbv zeta. rewrite feed_snoc, Update_Completed, Update_Succeeded,
      Update_Failed, Update_Invalid, !count_status_snoc, length_app.
    rewrite HC, HS, HF, HI. simpl List.length.
    repeat split.
    + rewrite add_exact; [lia | int_range].
    + destruct (bgjob.ExitStatus bj =? 0); [|lia].
      rewrite add_exact; [lia | int_range].
    + destruct (bgjob.ExitStatus bj >? 0); [|lia].
      rewrite add_exact; [lia | int_range].
    + destruct (bgjob.ExitStatus bj <? 0); [|lia].
      rewrite add_exact; [lia | int_range].
Qed.

Lemma feed_durations (n : Z) (jobs : list bgjob.BackgroundJob) :
  durations (feed (New n) jobs) = map bgjob.Duration jobs.
Proof.
  induction jobs as [|bj jobs IH] using rev_ind.
  - reflexivity.
  - now rewrite feed_snoc, Update_durations, IH, map_app.
Qed.

Lemma feed_Total (n : Z) (jobs : list bgjob.BackgroundJob) :
  Total (feed (New n) jobs) = n.
Proof.
  induction jobs as [|bj jobs IH] using rev_ind.
  - reflexivity.
  - now rewrite feed_snoc, Update_Total.
Qed.

End StatsCounters.

Module RunningCounters.

Import bgstats_running.

Lemma running_feed_snoc bqs jobs bj :
  feed bqs (jobs ++ [bj]) = Update (feed bqs jobs) bj.
Proof. unfold feed. now rewrite fold_left_app. Qed.

Ltac split_update bj :=
  unfold Update;
  destruct (Z.eqb_spec (bgjob.ExitStatus bj) 0);
  destruct (Z.gtb_spec (bgjob.ExitStatus bj) 0);
  destruct (Z.ltb_spec (bgjob.ExitStatus bj) 0);
  try lia; cbn;
  repeat match goal with
         | |- context [if ?c then _ else _] => destruct c; cbn
         end;
  reflexivity.

Lemma running_Update_Completed bqs bj :
  Completed (Update bqs bj) = GoInt.add (Completed bqs) 1.
Proof. split_update bj. Qed.

Lemma running_Update_Succeeded bqs bj :
  Succeeded (Update bqs bj) =
  if bgjob.ExitStatus bj =? 0 then GoInt.add (Succeeded bqs) 1
  else Succeeded bqs.
Proof. split_update bj. Qed.

Lemma running_Update_Failed bqs bj :
  Failed (Update bqs bj) =
  if bgjob.ExitStatus bj >? 0 then GoInt.add (Failed bqs) 1
  else Failed bqs.
Proof. split_update bj. Qed.

Lemma running_Update_Invalid bqs bj :
  Invalid (Update bqs bj) =
  if bgjob.ExitStatus bj <? 0 then GoInt.add (Invalid bqs) 1
  else Invalid bqs.
Proof. split_update bj. Qed.

Lemma running_feed_counts (n : Z) (jobs : list bgjob.BackgroundJob) :
  Z.of_nat (List.length jobs) <= GoInt.max_int ->
  let s := feed (New n) jobs in
  Completed s = Z.of_nat (List.length jobs) /\
  Succeeded s = count_status (fun z => z =? 0) jobs /\
  Failed s = count_status (fun z => z >? 0) jobs /\
  Invalid s = count_status (fun z => z <? 0) jobs.
Proof.
  induction jobs as [|bj jobs IH] using rev_ind; intros Hlen.
  - repeat split.
  - rewrite length_app in Hlen. simpl in Hlen.
    destruct IH as (HC & HS & HF & HI); [lia|].
    pose proof (count_status_bounds (fun z => z =? 0) jobs).
    pose proof (count_status_bounds (fun z => z >? 0) jobs).
    pose proof (count_status_bounds (fun z => z <? 0) jobs).
    cbv zeta. rewrite running_feed_snoc, running_Update_Completed, running_Update_Succeeded,
      running_Update_Failed, running_Update_Invalid, !count_status_snoc, length_app.
    rewrite HC, HS, HF, HI. simpl List.length.
    repeat split.
    + rewrite add_exact; [lia | int_range].
    + destruct (bgjob.ExitStatus bj =? 0); [|lia].
      rewrite add_exact; [lia | int_range].
    + destruct (bgjob.ExitStatus bj >? 0); [|lia].
      rewrite add_exact; [lia | int_range].
    + destruct (bgjob.ExitStatus bj <? 0); [|lia].
      rewrite add_exact; [lia | int_range].
Qed.

End RunningCounters.

Lemma one_outcome_counts jobs bj :
  one_outcome (bgjob.ExitStatus bj)
    (count_status (fun z => z =? 0) jobs)
    (count_status (fun z => z >? 0) jobs)
    (count_status (fun z => z <? 0) jobs)
    (count_status (fun z => z =? 0) (jobs ++ [bj]))
    (count_status (fun z => z >? 0) (jobs ++ [bj]))
    (count_status (fun z => z <? 0) (jobs ++ [bj])).
Proof.
  unfold one_outcome. rewrite !count_status_snoc.
  destruct (Z.eqb_spec (bgjob.ExitStatus bj) 0);
    destruct (Z.gtb_spec (bgjob.ExitStatus bj) 0);
    destruct (Z.ltb_spec (bgjob.ExitStatus bj) 0); lia.
Qed.

(** C2. Starting from a fresh accumulator, after every sequence of Update
    calls Completed = Succeeded + Failed + Invalid, and one more Update
    raises Completed by one and exactly one of Succeeded (exit status 0),
    Failed (exit status above 0) and Invalid (exit status below 0) by one.
    Both statistics engines are covered; the number of jobs fits an int,
    as the length of every Go slice does. *)
Theorem C2_completed_is_sum_of_outcomes
    (n : Z) (jobs : list bgjob.BackgroundJob) (bj : bgjob.BackgroundJob) :
  Z.of_nat (List.length jobs) < GoInt.max_int ->
  (let s := bgstats.feed (bgstats.New n) jobs in
   let s' := bgstats.Update s bj in
   bgstats.Completed s
     = bgstats.Succeeded s + bgstats.Failed s + bgstats.Invalid s /\
   bgstats.Completed s' = bgstats.Completed s + 1 /\
   one_outcome (bgjob.ExitStatus bj)
     (bgstats.Succeeded s) (bgstats.Failed s) (bgstats.Invalid s)
     (bgstats.Succeeded s') (bgstats.Failed s') (bgstats.Invalid s') /\
   bgstats.Completed s'
     = bgstats.Succeeded s' + bgstats.Failed s' + bgstats.Invalid s') /\
  (let r := bgstats_running.feed (bgstats_running.New n) jobs in
   let r' := bgstats_running.Update r bj in
   bgstats_running.Completed r
     = bgstats_running.Succeeded r + bgstats_running.Failed r
       + bgstats_running.Invalid r /\
   bgstats_running.Completed r' = bgstats_running.Completed r + 1 /\
   one_outcome (bgjob.ExitStatus bj)
     (bgstats_running.Succeeded r) (bgstats_running.Failed r)
     (bgstats_running.Invalid r)
     (bgstats_running.Succeeded r') (bgstats_running.Failed r')
     (bgstats_running.Invalid r') /\
   bgstats_running.Completed r'
     = bgstats_running.Succeeded r' + bgstats_running.Failed r'
       + bgstats_running.Invalid r').
Proof.
  intros Hlen.
  assert (Hlen' : Z.of_nat (List.length (jobs ++ [bj])) <= GoInt.max_int)
    by (rewrite length_app; simpl; lia).
  pose proof (count_status_partition jobs) as P.
  pose proof (count_status_partition (jobs ++ [bj])) as P'.
  pose proof (one_outcome_counts jobs bj) as O.
  rewrite length_app in P'. simpl List.length in P'.
  split.
  - destruct (StatsCounters.feed_counts n jobs) as (HC & HS & HF & HI); [lia|].
    destruct (StatsCounters.feed_counts n (jobs ++ [bj]) Hlen')
      as (HC' & HS' & HF' & HI').
    rewrite StatsCounters.feed_snoc in HC', HS', HF', HI'.
    rewrite length_app in HC'. simpl List.length in HC'.
    cbv zeta. rewrite HC, HS, HF, HI, HC', HS', HF', HI'.
    repeat split; try lia. exact O.
  - destruct (RunningCounters.running_feed_counts n jobs) as (HC & HS & HF & HI); [lia|].
    destruct (RunningCounters.running_feed_counts n (jobs ++ [bj]) Hlen')
      as (HC' & HS' & HF' & HI').
    rewrite RunningCounters.running_feed_snoc in HC', HS', HF', HI'.
    rewrite length_app in HC'. simpl List.length in HC'.
    cbv zeta. rewrite HC, HS, HF, HI, HC', HS', HF', HI'.
    repeat split; try lia. exact O.
Qed.

(** Witness of C2: two jobs fed, a third one arriving. *)
Lemma C2_witness :
  Z.of_nat (List.length [finished_job 0 5; finished_job 1 7]) < GoInt.max_int /\
  bgstats.Completed
    (bgstats.feed (bgstats.New 3) [finished_job 0 5; finished_job 1 7]) = 2.
Proof.
  split; [reflexivity|].
  pose proof (C2_completed_is_sum_of_outcomes 3
                [finished_job 0 5; finished_job 1 7] (finished_job (-1) 2)
                eq_refl) as H.
  destruct H as [[H _] _]. rewrite H. reflexivity.
Defined.

(** ** Samples of the statistics engine *)

Module Samples.

Import bgstats.

Lemma sum_Duration (ds : list time.Duration) (a : Z) :
  GoInt.in_range a ->
  fold_left GoInt.add ds a = GoInt.wrap (a + total ds).
Proof.
  revert a. induction ds as [|d ds IH]; intros a Ha; simpl.
  - rewrite Z.add_0_r. symmetry. now apply wrap_id.
  - rewrite IH by apply wrap_in_range.
    unfold GoInt.add. rewrite wrap_add_l. f_equal. lia.
Qed.

Lemma sum_exact (ds : list time.Duration) :
  GoInt.in_range (total ds) -> sum ds = total ds.
Proof.
  intros H. unfold sum. simpl. rewrite sum_Duration by int_range.
  now apply wrap_id.
Qed.

Lemma fold_min_spec (ds : list Z) (a : Z) :
  let m := fold_left (fun m v => if v <? m then v else m) ds a in
  m <= a /\ Forall (fun d => m <= d) ds /\ (m = a \/ In m ds).
Proof.
  revert a. induction ds as [|d ds IH]; intros a; simpl.
  - repeat split; [lia | constructor | now left].
  - specialize (IH (if d <? a then d else a)).
    destruct IH as (H1 & H2 & H3).
    destruct (Z.ltb_spec d a); repeat split; try lia; try assumption.
    + constructor; [lia | assumption].
    + destruct H3 as [->|]; [right; now left | right; now right].
    + constructor; [lia | assumption].
    + destruct H3 as [->|]; [now left | right; now right].
Qed.

Lemma fold_max_spec (ds : list Z) (a : Z) :
  let m := fold_left (fun m v => if m <? v then v else m) ds a in
  a <= m /\ Forall (fun d => d <= m) ds /\ (m = a \/ In m ds).
Proof.
  revert a. induction ds as [|d ds IH]; intros a; simpl.
  - repeat split; [lia | constructor | now left].
  - specialize (IH (if a <? d then d else a)).
    destruct IH as (H1 & H2 & H3).
    destruct (Z.ltb_spec a d); repeat split; try lia; try assumption.
    + constructor; [lia | assumption].
    + destruct H3 as [->|]; [right; now left | right; now right].
    + constructor; [lia | assumption].
    + destruct H3 as [->|]; [now left | right; now right].
Qed.

(** [min] returns a lower bound that is a sample. *)
Lemma min_spec (ds : list time.Duration) :
  ds <> [] ->
  exists m, min ds = Some m /\ Forall (fun d => m <= d) ds /\ In m ds.
Proof.
  destruct ds as [|d ds]; [congruence|]. intros _.
  exists (fold_left (fun m v => if v <? m then v else m) ds d).
  split; [reflexivity|].
  destruct (fold_min_spec ds d) as (H1 & H2 & H3).
  split; [constructor; assumption|].
  destruct H3 as [E|E]; [left; symmetry; exact E | right; exact E].
Qed.

Lemma max_spec (ds : list time.Duration) :
  ds <> [] ->
  exists m, max ds = Some m /\ Forall (fun d => d <= m) ds /\ In m ds.
Proof.
  destruct ds as [|d ds]; [congruence|]. intros _.
  exists (fold_left (fun m v => if m <? v then v else m) ds d).
  split; [reflexivity|].
  destruct (fold_max_spec ds d) as (H1 & H2 & H3).
  split; [constructor; assumption|].
  destruct H3 as [E|E]; [left; symmetry; exact E | right; exact E].
Qed.

Lemma total_lower (ds : list Z) (m : Z) :
  Forall (fun d => m <= d) ds -> Z.of_nat (List.length ds) * m <= total ds.
Proof.
  induction 1 as [|d ds Hd _ IH]; simpl total; simpl List.length; [lia|].
  rewrite Nat2Z.inj_succ. lia.
Qed.

Lemma total_upper (ds : list Z) (m : Z) :
  Forall (fun d => d <= m) ds -> total ds <= Z.of_nat (List.length ds) * m.
Proof.
  induction 1 as [|d ds Hd _ IH]; simpl total; simpl List.length; [lia|].
  rewrite Nat2Z.inj_succ. lia.
Qed.

(** Truncated division keeps a quotient between integer bounds of the
    exact mean. *)
Lemma quot_between (t k lo hi : Z) :
  0 < k -> k * lo <= t <= k * hi -> lo <= Z.quot t k <= hi.
Proof.
  intros Hk [Hlo Hhi].
  pose proof (Z.quot_rem' t k) as E.
  destruct (Z_le_gt_dec 0 t) as [Ht|Ht].
  - pose proof (Z.rem_bound_pos t k Ht Hk). nia.
  - pose proof (Z.rem_bound_pos_neg t k ltac:(lia) ltac:(lia)). nia.
Qed.

Lemma quot_in_range (t k : Z) :
  0 < k -> GoInt.in_range t -> GoInt.in_range (Z.quot t k).
Proof.
  intros Hk Ht. unfold GoInt.in_range in *.
  rewrite max_int_value, min_int_value in *.
  pose proof (Z.quot_rem' t k) as E.
  destruct (Z_le_gt_dec 0 t) as [H0|H0].
  - pose proof (Z.rem_bound_pos t k H0 Hk). nia.
  - pose proof (Z.rem_bound_pos_neg t k ltac:(lia) ltac:(lia)). nia.
Qed.

Lemma average_exact (ds : list time.Duration) :
  ds <> [] -> GoInt.in_range (total ds) ->
  average ds = Some (Z.quot (total ds) (Z.of_nat (List.length ds))).
Proof.
  intros Hne Hr. unfold average. rewrite sum_exact by assumption.
  simpl. unfold GoInt.quo.
  assert (0 < Z.of_nat (List.length ds))
    by (destruct ds; [congruence | simpl; lia]).
  destruct (Z.eqb_spec (Z.of_nat (List.length ds)) 0); [lia|].
  f_equal. apply wrap_id. now apply quot_in_range.
Qed.

End Samples.

(** C6, as amended. Once at least one job is completed and the sum of the
    stored durations fits the 64-bit Duration, the minimum, the truncated
    mean and the maximum of the stored durations are returned, in this
    order: MinimumRunTime <= AverageRunTime <= MaximumRunTime. *)
Theorem C6_run_times_ordered_without_overflow
    (n : Z) (jobs : list bgjob.BackgroundJob) :
  jobs <> [] ->
  GoInt.in_range (total (map bgjob.Duration jobs)) ->
  let s := bgstats.feed (bgstats.New n) jobs in
  let ds := map bgjob.Duration jobs in
  run_times_ordered s /\
  bgstats.AverageRunTime s
    = Some (Z.quot (total ds) (Z.of_nat (List.length ds))) /\
  (exists mn, bgstats.MinimumRunTime s = Some mn /\
              In mn ds /\ Forall (fun d => mn <= d) ds) /\
  (exists mx, bgstats.MaximumRunTime s = Some mx /\
              In mx ds /\ Forall (fun d => d <= mx) ds).
Proof.
  intros Hne Hr s ds.
  assert (Hds : bgstats.durations s = ds) by apply StatsCounters.feed_durations.
  assert (Hne' : ds <> []) by (subst ds; destruct jobs; [congruence | discriminate]).
  destruct (Samples.min_spec ds Hne') as (mn & Hmn & Hlo & Hin).
  destruct (Samples.max_spec ds Hne') as (mx & Hmx & Hhi & Hix).
  pose proof (Samples.average_exact ds Hne' Hr) as Havg.
  assert (Hlen : 0 < Z.of_nat (List.length ds))
    by (destruct ds; [congruence | simpl; lia]).
  unfold run_times_ordered, bgstats.MinimumRunTime, bgstats.AverageRunTime,
    bgstats.MaximumRunTime. rewrite Hds.
  split; [|split; [|split]].
  - exists mn, (Z.quot (total ds) (Z.of_nat (List.length ds))), mx.
    split; [exact Hmn|]. split; [exact Havg|]. split; [exact Hmx|].
    apply (Samples.quot_between _ _ mn mx Hlen).
    split; [now apply Samples.total_lower | now apply Samples.total_upper].
  - exact Havg.
  - exists mn. auto.
  - exists mx. auto.
Qed.

(** Witness of C6: durations of 3, 9 and 4 nanoseconds. *)
Lemma C6_witness :
  run_times_ordered
    (bgstats.feed (bgstats.New 3)
       [finished_job 0 3; finished_job 0 9; finished_job 1 4]).
Proof.
  refine (proj1 (C6_run_times_ordered_without_overflow 3
            [finished_job 0 3; finished_job 0 9; finished_job 1 4] _ _)).
  - discriminate.
  - vm_compute. split; discriminate.
Defined.

(** Counterexample to C6 as stated: two completed jobs of 2^62 ns each.
    Their sum wraps around to -2^63, the average is -2^62 and lies below
    the minimum 2^62. *)
Lemma C6_counterexample :
  let s := bgstats.feed (bgstats.New 2)
             [finished_job 0 (2 ^ 62); finished_job 0 (2 ^ 62)] in
  1 <= bgstats.Completed s /\
  bgstats.MinimumRunTime s = Some (2 ^ 62) /\
  bgstats.AverageRunTime s = Some (- 2 ^ 62) /\
  bgstats.MaximumRunTime s = Some (2 ^ 62) /\
  ~ run_times_ordered s.
Proof.
  cbv zeta.
  assert (Hmin : bgstats.MinimumRunTime
            (bgstats.feed (bgstats.New 2)
               [finished_job 0 (2 ^ 62); finished_job 0 (2 ^ 62)])
          = Some (2 ^ 62)) by (vm_compute; reflexivity).
  assert (Havg : bgstats.AverageRunTime
            (bgstats.feed (bgstats.New 2)
               [finished_job 0 (2 ^ 62); finished_job 0 (2 ^ 62)])
          = Some (- 2 ^ 62)) by (vm_compute; reflexivity).
  split; [|split; [|split; [|split]]].
  - vm_compute. discriminate.
  - exact Hmin.
  - exact Havg.
  - vm_compute. reflexivity.
  - intros (mn & avg & mx & H1 & H2 & _ & H4).
    rewrite Hmin in H1. rewrite Havg in H2.
    injection H1 as <-. injection H2 as <-. lia.
Qed.

Module SampleQueries.

Import bgstats.

Lemma average_Duration_defined (ds : list time.Duration) :
  ds <> [] -> exists d, average ds = Some d.
Proof.
  intros Hne. unfold average. simpl. unfold GoInt.quo.
  destruct (Z.eqb_spec (Z.of_nat (List.length ds)) 0) as [E|E].
  - destruct ds; [congruence | simpl in E; lia].
  - eexists. reflexivity.
Qed.

Lemma average_float64_defined (xs : list F64.float64) :
  exists x, average xs = Some x.
Proof. eexists. reflexivity. Qed.

Lemma queries_defined_nonempty (s : BgQueueStats) :
  durations s <> [] -> queries_defined s.
Proof.
  intros Hne. unfold queries_defined.
  assert (HV : exists d, Variance s = Some d).
  { unfold Variance.
    destruct (average_float64_defined (toSeconds (durations s))) as [a ->].
    apply average_Duration_defined.
    unfold fromSeconds, squared, toSeconds. rewrite !map_map.
    destruct (durations s); [congruence | discriminate]. }
  repeat split.
  - now apply average_Duration_defined.
  - destruct (Samples.min_spec _ Hne) as (m & Hm & _). now exists m.
  - destruct (Samples.max_spec _ Hne) as (m & Hm & _). now exists m.
  - exact HV.
  - unfold StdDev. destruct HV as [v ->]. eexists. reflexivity.
  - unfold RootMeanSquare.
    destruct (average_float64_defined (squared (toSeconds (durations s))))
      as [a ->].
    eexists. reflexivity.
Qed.

End SampleQueries.

(** C10. After any sequence of Update calls on a fresh accumulator the
    number of stored duration samples equals Completed; hence with
    Completed >= 1 the sample list is not empty and AverageRunTime,
    MinimumRunTime, MaximumRunTime, Variance, StdDev and RootMeanSquare
    all answer: indexing the first sample and dividing by the sample count
    do not panic. *)
Theorem C10_samples_match_completed
    (n : Z) (jobs : list bgjob.BackgroundJob) :
  Z.of_nat (List.length jobs) <= GoInt.max_int ->
  let s := bgstats.feed (bgstats.New n) jobs in
  Z.of_nat (List.length (bgstats.durations s)) = bgstats.Completed s /\
  (1 <= bgstats.Completed s ->
   bgstats.durations s <> [] /\ queries_defined s).
Proof.
  intros Hlen s.
  destruct (StatsCounters.feed_counts n jobs Hlen) as (HC & _).
  fold s in HC.
  assert (Hds : bgstats.durations s = map bgjob.Duration jobs)
    by apply StatsCounters.feed_durations.
  assert (HL : Z.of_nat (List.length (bgstats.durations s)) = bgstats.Completed s)
    by (rewrite Hds, length_map; now symmetry).
  split; [exact HL|].
  intros H1.
  assert (Hne : bgstats.durations s <> []).
  { intros E. rewrite E in HL. simpl in HL. lia. }
  split; [exact Hne | now apply SampleQueries.queries_defined_nonempty].
Qed.

(** Witness of C10: three completed jobs. *)
Lemma C10_witness :
  Z.of_nat (List.length (bgstats.durations
     (bgstats.feed (bgstats.New 3)
        [finished_job 0 3; finished_job 0 9; finished_job 1 4])))
  = bgstats.Completed
      (bgstats.feed (bgstats.New 3)
         [finished_job 0 3; finished_job 0 9; finished_job 1 4]).
Proof.
  refine (proj1 (C10_samples_match_completed 3
            [finished_job 0 3; finished_job 0 9; finished_job 1 4] _)).
  vm_compute. discriminate.
Defined.

(** ** The zero-seeded minimum of the earlier engine *)

Lemma running_Update_MinDuration bqs bj :
  bgstats_running.MinDuration (bgstats_running.Update bqs bj) =
  if (bgjob.Duration bj <? bgstats_running.MinDuration bqs)
     || (bgstats_running.MinDuration bqs =? 0)
  then bgjob.Duration bj else bgstats_running.MinDuration bqs.
Proof.
  unfold bgstats_running.Update.
  destruct (bgjob.ExitStatus bj =? 0); [|destruct (bgjob.ExitStatus bj >? 0)];
    cbn;
    destruct ((bgjob.Duration bj <? bgstats_running.MinDuration bqs)
              || (bgstats_running.MinDuration bqs =? 0)); cbn;
    match goal with
    | |- context [if ?c then _ else _] => destruct c; reflexivity
    end.
Qed.

(** A zero duration followed by a positive one: the positive one is
    reported as the minimum. *)
Lemma running_min_after_zero (n : Z) (d : time.Duration) :
  0 < d ->
  bgstats_running.MinimumRunTime
    (bgstats_running.feed (bgstats_running.New n)
       [finished_job 0 0; finished_job 0 d]) = d.
Proof.
  intros Hd. unfold bgstats_running.MinimumRunTime, bgstats_running.feed.
  cbn [fold_left]. rewrite !running_Update_MinDuration. cbn.
  rewrite Bool.orb_true_r. reflexivity.
Qed.

(** C9. In the engine that seeds its minimum at zero and updates it when
    (duration < min || min == 0), some sequence of completed jobs contains
    a job of duration zero and yet MinimumRunTime() is not the minimum of
    the durations: after durations 0 and 5 it answers 5.  The consumer
    loop of the oldest front end has the same test and the same answer. *)
Theorem C9_zero_duration_is_overwritten :
  exists jobs : list bgjob.BackgroundJob,
    (exists bj, In bj jobs /\ bgjob.Duration bj = 0) /\
    is_minimum 0 (map bgjob.Duration jobs) /\
    (forall n,
       bgstats_running.MinimumRunTime
         (bgstats_running.feed (bgstats_running.New n) jobs) = 5 /\
       ~ is_minimum
           (bgstats_running.MinimumRunTime
              (bgstats_running.feed (bgstats_running.New n) jobs))
           (map bgjob.Duration jobs)) /\
    legacy.minDuration (legacy.drain (map bgjob.Duration jobs)) = 5.
Proof.
  exists [finished_job 0 0; finished_job 0 5].
  split; [|split; [|split]].
  - exists (finished_job 0 0). split; [now left | reflexivity].
  - split; [now left|]. repeat constructor; simpl; lia.
  - intros n. split; [reflexivity|].
    intros [_ H]. inversion H as [|x l Hx _]; subst.
    simpl in Hx. vm_compute in Hx. now apply Hx.
  - reflexivity.
Qed.

(** ** Percentages *)

(** C1 (the code departs from it). With Total = 2, one job that could not
    be launched and one that succeeded, Completed = Total. The claim makes
    InvalidPercentage() answer round(1 / 2 * 100) = 50 and the three
    outcome percentages add up to 100; InvalidPercentage() passes the
    Failed counter instead of the Invalid one, answers 0, and the three
    add up to 50.  SuccessPercentage and FailurePercentage read their own
    counters.  Both statistics engines behave alike. *)
Theorem C1_invalid_percentage_reads_failed :
  let jobs := [finished_job (-1) 3; finished_job 0 4] in
  (let s := bgstats.feed (bgstats.New 2) jobs in
   bgstats.Total s = 2 /\ bgstats.Completed s = 2 /\
   bgstats.Succeeded s = 1 /\ bgstats.Failed s = 0 /\ bgstats.Invalid s = 1 /\
   bgstats.percentage (F64.of_int (bgstats.Invalid s))
                      (F64.of_int (bgstats.Total s)) = F64.of_int 50 /\
   bgstats.InvalidPercentage s = F64.of_int 0 /\
   bgstats.SuccessPercentage s = F64.of_int 50 /\
   bgstats.FailurePercentage s = F64.of_int 0 /\
   F64.add (F64.add (bgstats.SuccessPercentage s) (bgstats.FailurePercentage s))
           (bgstats.InvalidPercentage s) = F64.of_int 50) /\
  (let r := bgstats_running.feed (bgstats_running.New 2) jobs in
   bgstats_running.Total r = 2 /\ bgstats_running.Completed r = 2 /\
   bgstats_running.Invalid r = 1 /\
   bgstats_running.percentage (F64.of_int (bgstats_running.Invalid r))
                      (F64.of_int (bgstats_running.Total r)) = F64.of_int 50 /\
   bgstats_running.InvalidPercentage r = F64.of_int 0) /\
  (forall s, bgstats.InvalidPercentage s = bgstats.FailurePercentage s) /\
  (forall r, bgstats_running.InvalidPercentage r
             = bgstats_running.FailurePercentage r).
Proof.
  cbv zeta. split; [|split; [|split]].
  - repeat split; vm_compute; reflexivity.
  - repeat split; vm_compute; reflexivity.
  - intros s. reflexivity.
  - intros r. reflexivity.
Qed.

(** ** Completion rate *)

Lemma div_zero_not_finite (x y : F64.float64) :
  is_zero y = true -> F64.is_finite (F64.div x y) = false.
Proof.
  destruct y; try discriminate. intros _.
  destruct x; reflexivity.
Qed.

Lemma div_by_quotient_of_zero (x y : F64.float64) :
  is_zero x = true ->
  is_zero (F64.div x y) = true \/ F64.is_nan (F64.div x y) = true.
Proof.
  destruct x; try discriminate. intros _.
  destruct y; simpl; auto.
Qed.

Lemma rate_not_finite_when_idle (s : bgstats.BgQueueStats) :
  bgstats.ActiveTime s = 0 -> F64.is_finite (bgstats.CompletionRate s) = false.
Proof.
  intros H. unfold bgstats.CompletionRate. rewrite H.
  destruct (div_by_quotient_of_zero (time.Seconds 0)
              (F64.of_int (bgstats.Completed s)) eq_refl) as [Hz|Hn].
  - now apply div_zero_not_finite.
  - destruct (F64.div (time.Seconds 0) (F64.of_int (bgstats.Completed s)));
      try discriminate. reflexivity.
Qed.

Lemma rate_zero_or_nan_when_nothing_completed (s : bgstats.BgQueueStats) :
  bgstats.Completed s = 0 ->
  is_zero (bgstats.CompletionRate s) = true \/
  F64.is_nan (bgstats.CompletionRate s) = true.
Proof.
  intros H. unfold bgstats.CompletionRate. rewrite H.
  change (F64.of_int 0) with (S754_zero false).
  change (F64.of_int 1) with (S754_finite false 4503599627370496 (-52)).
  destruct (time.Seconds (bgstats.ActiveTime s)) as [sg|sg| |sg m e];
    simpl; auto.
Qed.

(** C3, as amended. CompletionRate() returns 1 / (ActiveTime in seconds /
    Completed), which algebraically is Completed / ActiveTime in seconds,
    computed in float64 with no guard: the inner division divides by
    float64(Completed) and the outer one by its quotient. With ActiveTime
    = 0 the result is an infinity or NaN, never a number; with Completed =
    0 the inner divisor is zero and the result is a zero or NaN; with both
    0 it is NaN. *)
Theorem C3_completion_rate_unguarded (s : bgstats.BgQueueStats) :
  bgstats.CompletionRate s
    = F64.div (F64.of_int 1)
        (F64.div (time.Seconds (bgstats.ActiveTime s))
                 (F64.of_int (bgstats.Completed s))) /\
  bgstats.CompletionRate_divisors s
    = [F64.of_int (bgstats.Completed s);
       F64.div (time.Seconds (bgstats.ActiveTime s))
               (F64.of_int (bgstats.Completed s))] /\
  (bgstats.ActiveTime s = 0 ->
   F64.is_finite (bgstats.CompletionRate s) = false) /\
  (bgstats.Completed s = 0 ->
   ~ rate_divides_by_nonzero s /\
   (is_zero (bgstats.CompletionRate s) = true \/
    F64.is_nan (bgstats.CompletionRate s) = true)) /\
  (bgstats.ActiveTime s = 0 -> bgstats.Completed s = 0 ->
   F64.is_nan (bgstats.CompletionRate s) = true).
Proof.
  split; [reflexivity|]. split; [reflexivity|].
  split; [apply rate_not_finite_when_idle|]. split.
  - intros H. split; [|now apply rate_zero_or_nan_when_nothing_completed].
    unfold rate_divides_by_nonzero, bgstats.CompletionRate_divisors.
    rewrite H. intros F. inversion F as [|x l Hx _]; subst. discriminate Hx.
  - intros HA HC. unfold bgstats.CompletionRate. rewrite HA, HC. reflexivity.
Qed.

(** Witness of C3: a fresh accumulator, where both ActiveTime and
    Completed are 0. *)
Lemma C3_witness :
  bgstats.ActiveTime (bgstats.New 5) = 0 /\
  bgstats.Completed (bgstats.New 5) = 0 /\
  F64.is_nan (bgstats.CompletionRate (bgstats.New 5)) = true.
Proof.
  split; [reflexivity|]. split; [reflexivity|].
  exact (proj2 (proj2 (proj2 (proj2
           (C3_completion_rate_unguarded (bgstats.New 5)))))
         eq_refl eq_refl).
Defined.

(** Counterexample to C3 as stated. On a fresh accumulator ActiveTime and
    Completed are both 0: the inner division is 0 / 0, a division by zero
    is performed and the rate is NaN.  With one job completed in an active
    time of 0 the outer division is 1 / 0 and the rate is +Inf. *)
Lemma C3_counterexample :
  (let s := bgstats.New 5 in
   (bgstats.ActiveTime s = 0 \/ bgstats.Completed s = 0) /\
   ~ rate_divides_by_nonzero s /\
   bgstats.CompletionRate s = S754_nan) /\
  (let s := bgstats.Finish
              (bgstats.Update (bgstats.Start (bgstats.New 1) 7)
                              (finished_job 0 0)) 7 in
   (bgstats.ActiveTime s = 0 \/ bgstats.Completed s = 0) /\
   ~ rate_divides_by_nonzero s /\
   bgstats.CompletionRate s = S754_infinity false).
Proof.
  split; cbv zeta.
  - split; [now left|]. split; [|reflexivity].
    intros F. inversion F as [|x l Hx _]; subst. discriminate Hx.
  - split; [now left|]. split; [|reflexivity].
    intros F. inversion F as [|x l _ Hl]; subst.
    inversion Hl as [|y l' Hy _]; subst. vm_compute in Hy. discriminate Hy.
Qed.

(** ** Classification of a finished command *)

Lemma Run_fresh (id : Z) (pfx : string) (command : list string)
    (now : time.Time) (o : exec.Outcome) :
  command <> [] ->
  exists bj,
    bgjob.Run (bgjob.New id pfx command) now o = Some (bj, exec.run_error o) /\
    bgjob.Error bj = exec.run_error o /\
    bgjob.ExitStatus bj = bgjob.exit_status_of 0 (exec.run_error o) /\
    bgjob.CmdError bj
      = bgjob.cmd_error_of None (exec.run_error o) (exec.cmd_Err o).
Proof.
  intros Hne. destruct command as [|c cs]; [congruence|].
  eexists. split; [reflexivity|]. repeat split.
Qed.

(** C4, as amended. After Run on a freshly built Job, given what os/exec
    promises of the outcome: a recorded launch cause (CmdError) implies
    ExitStatus = -1; ExitStatus < 0 implies that Error, the error Run
    returned, is set, and holds exactly when that error is not an exit
    error or is an exit error with a negative code; ExitStatus = 0 holds
    exactly when Run returned no error (the command ran and succeeded);
    ExitStatus > 0 means the command ran and exited with that non-zero
    code, no launch cause recorded.  The stand-alone runBackgroundJob
    classifies with the same exit status and launch cause. *)
Theorem C4_exit_status_and_launch_cause
    (id : Z) (pfx : string) (command : list string)
    (now : time.Time) (o : exec.Outcome) :
  command <> [] ->
  exec.consistent o ->
  (exists bj,
     bgjob.Run (bgjob.New id pfx command) now o = Some (bj, exec.run_error o) /\
     (bgjob.CmdError bj <> None -> bgjob.ExitStatus bj = -1) /\
     (bgjob.ExitStatus bj < 0 -> bgjob.Error bj <> None) /\
     (bgjob.ExitStatus bj < 0 <->
      (exists msg, exec.run_error o = Some (exec.OtherError msg)) \/
      (exists c, exec.run_error o = Some (exec.ExitError c) /\ c < 0)) /\
     (bgjob.ExitStatus bj = 0 <-> exec.run_error o = None) /\
     (bgjob.ExitStatus bj > 0 ->
      exec.run_error o = Some (exec.ExitError (bgjob.ExitStatus bj)) /\
      bgjob.CmdError bj = None) /\
     bgjob.ExitStatus
       (legacy.classify (bgjob.New id pfx command) now o)
       = bgjob.ExitStatus bj /\
     bgjob.CmdError
       (legacy.classify (bgjob.New id pfx command) now o)
       = bgjob.CmdError bj).
Proof.
  intros Hne [Hcmd Hexit].
  destruct (Run_fresh id pfx command now o Hne) as (bj & HR & HE & HS & HC).
  exists bj. split; [exact HR|].
  rewrite HE, HS, HC.
  unfold legacy.classify. cbn.
  destruct o as [re ce ob eb]. cbn in *.
  destruct re as [[c|msg]|]; destruct ce as [e|]; cbn.
  all: try (destruct (Hcmd e eq_refl) as (m & -> & He); try discriminate He).
  all: repeat split; intros; try lia; try congruence; try discriminate.
  all: try (right; exists c; split; [reflexivity | lia]).
  all: try (left; eexists; reflexivity).
  all: try match goal with
           | H : _ \/ _ |- _ =>
               destruct H as [(m' & Hm) | (c' & Hc & Hlt)];
               try discriminate; try (injection Hc as <-; lia)
           end.
  all: try (assert (c = 0) by lia; subst; contradiction).
  all: try (f_equal; f_equal; lia).
Qed.

(** Witness of C4: a command name that cannot be resolved. *)
Lemma C4_witness :
  exec.consistent not_found /\
  exists bj,
    bgjob.Run (bgjob.New 0 "bgjob" ["nosuchcmd"%string]) 9 not_found
      = Some (bj, exec.run_error not_found) /\
    (bgjob.CmdError bj <> None -> bgjob.ExitStatus bj = -1).
Proof.
  assert (Hc : exec.consistent not_found).
  { split.
    - intros e He. injection He as <-. eexists. split; reflexivity.
    - discriminate. }
  split; [exact Hc|].
  destruct (C4_exit_status_and_launch_cause 0 "bgjob" ["nosuchcmd"%string]
              9 not_found ltac:(discriminate) Hc) as (bj & HR & H1 & _).
  exists bj. split; [exact HR | exact H1].
Defined.

(** Counterexample to C4 as stated. A command given by a path that cannot
    be started: Run returns an error that is no exit error while cmd.Err
    is nil, so ExitStatus = -1 and no launch cause is recorded.  Likewise a
    command killed by a signal: the exit error carries the code -1. *)
Lemma C4_counterexample :
  exec.consistent not_started /\
  (exists bj,
     bgjob.Run (bgjob.New 0 "bgjob" ["/no/such/binary"%string]) 9 not_started
       = Some (bj, exec.run_error not_started) /\
     bgjob.ExitStatus bj = -1 /\ bgjob.CmdError bj = None /\
     ~ launch_invariant bj) /\
  (exists bj,
     bgjob.Run (bgjob.New 0 "bgjob" ["sleep"%string; "60"%string]) 9
               (exited_with (-1))
       = Some (bj, exec.run_error (exited_with (-1))) /\
     bgjob.ExitStatus bj = -1 /\ bgjob.CmdError bj = None /\
     ~ launch_invariant bj) /\
  ~ launch_invariant
      (legacy.classify (bgjob.New 0 "bgjob" ["/no/such/binary"%string]) 9
         not_started).
Proof.
  split; [|split; [|split]].
  - split; [intros e He; discriminate He | discriminate].
  - eexists. split; [reflexivity|]. split; [reflexivity|].
    split; [reflexivity|].
    unfold launch_invariant. cbn. intros [H _]. apply H; [lia | reflexivity].
  - eexists. split; [reflexivity|]. split; [reflexivity|].
    split; [reflexivity|].
    unfold launch_invariant. cbn. intros [H _]. apply H; [lia | reflexivity].
  - unfold launch_invariant. cbn. intros [H _]. apply H; [lia | reflexivity].
Qed.

(** ** Job names *)

Lemma New_Name (id : Z) (pfx : string) (command : list string) :
  bgjob.Name (bgjob.New id pfx command) = (pfx ++ "_" ++ fmt.pad06d id)%string.
Proof. reflexivity. Qed.

Lemma New_Id (id : Z) (pfx : string) (command : list string) :
  bgjob.Id (bgjob.New id pfx command) = id.
Proof. reflexivity. Qed.

(** Whatever prefix the queue is configured with, its jobs are named
    after the literal "bgjob". *)
Lemma queue_job_names (N C : Z) (pfx : string) (command : list string)
    (bq : bgqueue.BgQueue) :
  bgqueue.New N C pfx command = Some bq ->
  bgqueue.prefix bq = pfx /\
  map bgjob.Name (bgqueue.Jobs bq)
    = map (fun i => ("bgjob_" ++ fmt.pad06d i)%string) (bgqueue.job_ids N).
Proof.
  unfold bgqueue.New, bgqueue.Init. cbn.
  destruct ((C <? 0) || (N <? 0)); [discriminate|].
  intros H. injection H as <-. cbn. split; [reflexivity|].
  rewrite map_map. apply map_ext. intros i. reflexivity.
Qed.

(** C7 (the code departs from it). A queue configured with the prefix "xy"
    for three jobs: the claim names them xy_000000, xy_000001, xy_000002,
    which is what the job constructor does with the prefix it is given and
    what the oldest front end does with the configured one; the queue
    records the prefix and hands the literal "bgjob" to the constructor,
    so the jobs are named bgjob_000000, bgjob_000001, bgjob_000002. *)
Theorem C7_queue_ignores_prefix :
  (exists bq,
     bgqueue.New 3 2 "xy" ["true"%string] = Some bq /\
     bgqueue.prefix bq = "xy"%string /\
     map bgjob.Id (bgqueue.Jobs bq) = [0; 1; 2] /\
     map bgjob.Name (bgqueue.Jobs bq)
       = ["bgjob_000000"; "bgjob_000001"; "bgjob_000002"]%string) /\
  map (fun i => bgjob.Name (bgjob.New i "xy" ["true"%string])) [0; 1; 2]
    = ["xy_000000"; "xy_000001"; "xy_000002"]%string /\
  map (legacy.job_name "xy") [1; 2; 3]
    = ["xy_000001"; "xy_000002"; "xy_000003"]%string.
Proof.
  split; [|split].
  - eexists. split; [reflexivity|]. repeat split.
  - reflexivity.
  - reflexivity.
Qed.

(** ** Binary64 arithmetic on integers

    The progress ticks and the percentages go through float64.  For
    integers below [2^53] the conversion is exact and the division is
    correctly rounded; the lemmas follow the rounding of [SpecFloat] step
    by step. *)

Lemma digits2_size (p : positive) : digits2_pos p = Pos.size p.
Proof. induction p; simpl; congruence. Qed.

Lemma size_bounds (p : positive) :
  2 ^ (Zpos (Pos.size p) - 1) <= Zpos p < 2 ^ Zpos (Pos.size p).
Proof.
  induction p as [p IH|p IH|].
  - simpl Pos.size. rewrite Pos2Z.inj_succ.
    replace (Z.succ (Zpos (Pos.size p)) - 1) with (Z.succ (Zpos (Pos.size p) - 1)) by lia.
    rewrite !Z.pow_succ_r by lia. lia.
  - simpl Pos.size. rewrite Pos2Z.inj_succ.
    replace (Z.succ (Zpos (Pos.size p)) - 1) with (Z.succ (Zpos (Pos.size p) - 1)) by lia.
    rewrite !Z.pow_succ_r by lia. lia.
  - simpl. lia.
Qed.

Lemma digits_of_bounds (p : positive) (d : Z) :
  2 ^ (d - 1) <= Zpos p < 2 ^ d -> 0 < d -> Zpos (digits2_pos p) = d.
Proof.
  intros [Hlo Hhi] Hd. rewrite digits2_size.
  pose proof (size_bounds p) as [Slo Shi].
  destruct (Z.lt_trichotomy (Zpos (Pos.size p)) d) as [H|[H|H]]; [|exact H|].
  - exfalso. assert (2 ^ Zpos (Pos.size p) <= 2 ^ (d - 1)) by (apply Z.pow_le_mono_r; lia). lia.
  - exfalso. assert (2 ^ d <= 2 ^ (Zpos (Pos.size p) - 1)) by (apply Z.pow_le_mono_r; lia). lia.
Qed.

Lemma iter_xO_value (p : positive) (k : positive) :
  Zpos (Pos.iter xO p k) = Zpos p * 2 ^ Zpos k.
Proof.
  induction k as [|k IH] using Pos.peano_ind.
  - simpl. lia.
  - rewrite Pos.iter_succ, Pos2Z.inj_succ, Z.pow_succ_r by lia.
    rewrite Pos2Z.inj_xO, IH. lia.
Qed.

Lemma emin_value : emin 53 1024 = -1074.
Proof. reflexivity. Qed.

Lemma fexp_normal (x : Z) : -1074 <= x - 53 -> fexp 53 1024 x = x - 53.
Proof. intros H. unfold fexp. rewrite emin_value. lia. Qed.

Lemma shr_fexp_shift (m e k : Z) (l : location) :
  Zdigits2 m = 53 + k -> -1074 <= k + e ->
  shr_fexp 53 1024 m e l = shr (shr_record_of_loc m l) e k.
Proof.
  intros Hd He. unfold shr_fexp. rewrite Hd, fexp_normal by lia.
  f_equal. lia.
Qed.

Lemma loc_of_record_of_loc (m : Z) (l : location) :
  loc_of_shr_record (shr_record_of_loc m l) = l.
Proof. destruct l as [|[| |]]; reflexivity. Qed.

Lemma shr_m_record_of_loc (m : Z) (l : location) :
  shr_m (shr_record_of_loc m l) = m.
Proof. destruct l as [|[| |]]; reflexivity. Qed.

(** The last step of [binary_round_aux] on a mantissa of 53 bits. *)
Lemma round_aux_exact (s : bool) (m : positive) (e : Z) :
  Zpos (digits2_pos m) = 53 -> -1074 <= e <= 971 ->
  binary_round_aux 53 1024 s (Zpos m) e loc_Exact = S754_finite s m e.
Proof.
  intros Hd He. unfold binary_round_aux.
  rewrite (shr_fexp_shift (Zpos m) e 0) by (simpl; lia).
  cbn [shr shr_record_of_loc loc_of_shr_record shr_m round_nearest_even].
  rewrite (shr_fexp_shift (Zpos m) e 0) by (simpl; lia).
  cbn [shr shr_record_of_loc shr_m].
  destruct (Z.leb_spec e (1024 - 53)); [reflexivity | lia].
Qed.

(** [float64(n)] is exact for [0 < n < 2^53]: the mantissa is [n] shifted
    left to 53 bits. *)
Lemma of_int_exact (n d : Z) :
  0 < d <= 53 -> 2 ^ (d - 1) <= n < 2 ^ d ->
  exists m, F64.of_int n = S754_finite false m (d - 53) /\
            Zpos m = n * 2 ^ (53 - d) /\ Zpos (digits2_pos m) = 53.
Proof.
  intros Hd Hn.
  assert (0 < n) by (assert (0 < 2 ^ (d - 1)) by (apply Z.pow_pos_nonneg; lia); lia).
  destruct n as [|p|p]; try lia.
  unfold F64.of_int, binary_normalize, binary_round.
  rewrite (digits_of_bounds p d Hn) by lia.
  rewrite Z.add_0_r, fexp_normal by lia.
  unfold shl_align. rewrite Z.sub_0_r.
  destruct (d - 53) as [|q|q] eqn:E; try lia.
  - exists p. assert (d = 53) by lia. subst d.
    rewrite round_aux_exact; [|apply digits_of_bounds; [exact Hn | lia] | lia].
    repeat split. + simpl. lia. + apply digits_of_bounds; [exact Hn | lia].
  - assert (Hv := iter_xO_value p q).
    assert (Hq : Zpos q = 53 - d) by lia.
    assert (Hdig : Zpos (digits2_pos (Pos.iter xO p q)) = 53).
    { apply digits_of_bounds; [|lia]. rewrite Hv, Hq.
      assert (E1 : 2 ^ (53 - 1) = 2 ^ (d - 1) * 2 ^ (53 - d))
        by (rewrite <- Z.pow_add_r by lia; f_equal; lia).
      assert (E2 : 2 ^ 53 = 2 ^ d * 2 ^ (53 - d))
        by (rewrite <- Z.pow_add_r by lia; f_equal; lia).
      rewrite E1, E2.
      assert (0 < 2 ^ (53 - d)) by (apply Z.pow_pos_nonneg; lia). nia. }
    exists (Pos.iter xO p q).
    rewrite round_aux_exact; [| exact Hdig | lia].
    repeat split; [|exact Hdig]. rewrite Hv, Hq. reflexivity.
Qed.

Lemma Zdigits2_of_bounds (q d : Z) :
  2 ^ (d - 1) <= q < 2 ^ d -> 0 < d -> Zdigits2 q = d.
Proof.
  intros Hq Hd.
  assert (0 < q) by (assert (0 < 2 ^ (d - 1)) by (apply Z.pow_pos_nonneg; lia); lia).
  destruct q as [|p|p]; try lia. simpl. now apply digits_of_bounds.
Qed.

Lemma new_location_exact (nb k : Z) :
  new_location nb k = loc_Exact <-> k = 0.
Proof.
  unfold new_location, new_location_even, new_location_odd.
  destruct (Z.even nb); destruct (Z.eqb_spec k 0); split; intros; try congruence; try discriminate.
Qed.

Lemma round_nearest_even_bounds (mx : Z) (l : location) :
  mx <= round_nearest_even mx l <= mx + 1.
Proof.
  destruct l as [|[| |]]; simpl; try lia. destruct (Z.even mx); lia.
Qed.

Lemma shr_1_pos (p : positive) (rb sb : bool) :
  shr_1 (Build_shr_record (Zpos p) rb sb)
  = Build_shr_record (Zpos p / 2) (Z.odd (Zpos p)) (rb || sb).
Proof.
  rewrite <- Z.div2_div. destruct p; reflexivity.
Qed.

(** The closing step of [binary_round_aux]: a rounded mantissa of 53 bits
    is kept, the mantissa [2^53] is renormalised. *)
Lemma round_aux_finish (s : bool) (m e : Z) :
  2 ^ 52 <= m <= 2 ^ 53 -> -1074 <= e -> e + 1 <= 971 ->
  exists m3 e3,
    (let '(mrs, e') := shr_fexp 53 1024 m e loc_Exact in
     match shr_m mrs with
     | Z0 => S754_zero s
     | Zpos m0 => if e' <=? 1024 - 53 then S754_finite s m0 e' else S754_infinity s
     | Zneg _ => S754_nan
     end) = S754_finite s m3 e3 /\
    e <= e3 /\ Zpos m3 * 2 ^ (e3 - e) = m.
Proof.
  intros Hm He1 He2.
  destruct (Z_lt_le_dec m (2 ^ 53)) as [Hlt|Hge].
  - rewrite (shr_fexp_shift m e 0);
      [| apply Zdigits2_of_bounds; simpl; lia | lia].
    cbn [shr shr_record_of_loc shr_m].
    destruct m as [|p|p]; try lia.
    exists p, e. destruct (Z.leb_spec e (1024 - 53)); [|lia].
    split; [reflexivity|]. split; [lia|]. rewrite Z.sub_diag. simpl. lia.
  - assert (m = 2 ^ 53) by lia. subst m.
    exists 4503599627370496%positive, (e + 1).
    rewrite (shr_fexp_shift (2 ^ 53) e 1); [| reflexivity | lia].
    cbn. destruct (Z.leb_spec (e + 1) 971); [|lia].
    split; [reflexivity|]. split; [lia|].
    replace (e + 1 - e) with 1 by lia. reflexivity.
Qed.

Lemma round_aux_spec (q r m2 e : Z) :
  2 ^ 52 <= q < 2 ^ 54 -> 0 <= r < m2 -> -1074 <= e -> e + 2 <= 971 ->
  exists (m3 : positive) (e3 k m' : Z),
    binary_round_aux 53 1024 false q e (new_location m2 r)
      = S754_finite false m3 e3 /\
    (k = 0 \/ k = 1) /\ 2 ^ (52 + k) <= q < 2 ^ (53 + k) /\ e <= e3 /\
    Zpos m3 * 2 ^ (e3 - e) = m' * 2 ^ k /\
    q / 2 ^ k <= m' <= q / 2 ^ k + 1 /\
    (q mod 2 ^ k = 0 -> r = 0 -> m' = q / 2 ^ k) /\
    (k = 1 -> q mod 2 = 1 -> 0 < r -> m' = q / 2 + 1).
Proof.
  intros Hq Hr He1 He2.
  destruct (Z_lt_le_dec q (2 ^ 53)) as [Hlt|Hge].
  - (* no shift *)
    unfold binary_round_aux.
    rewrite (shr_fexp_shift q e 0);
      [| apply Zdigits2_of_bounds; simpl; lia | lia].
    cbn [shr]. rewrite shr_m_record_of_loc, loc_of_record_of_loc.
    set (m' := round_nearest_even q (new_location m2 r)).
    pose proof (round_nearest_even_bounds q (new_location m2 r)) as Hb.
    fold m' in Hb.
    destruct (round_aux_finish false m' e) as (m3 & e3 & HF & He3 & Hv);
      [lia | lia | lia |].
    exists m3, e3, 0, m'. rewrite HF.
    split; [reflexivity|]. split; [now left|].
    split; [simpl; lia|]. split; [exact He3|].
    split; [rewrite Hv; simpl; lia|].
    rewrite Z.pow_0_r, Z.div_1_r.
    split; [exact Hb|]. split; [|intros; lia].
    intros _ Hr0. subst m'.
    rewrite (proj2 (new_location_exact m2 r) Hr0). reflexivity.
  - (* one shift *)
    unfold binary_round_aux.
    rewrite (shr_fexp_shift q e 1);
      [| apply Zdigits2_of_bounds; simpl; lia | lia].
    cbn [shr iter_pos].
    destruct q as [|p|p]; try lia.
    assert (Hrec : exists rb sb,
               shr_record_of_loc (Zpos p) (new_location m2 r)
               = Build_shr_record (Zpos p) rb sb /\
               (r = 0 -> rb || sb = false) /\ (0 < r -> rb || sb = true)).
    { destruct (new_location m2 r) as [|[| |]] eqn:EL; cbn;
        eexists _, _; (split; [reflexivity|]); split; intros Hx; try reflexivity.
      all: try (apply new_location_exact in EL; lia).
      all: try (apply (proj2 (new_location_exact m2 r)) in Hx; congruence). }
    destruct Hrec as (rb & sb & -> & Hex & Hin).
    rewrite shr_1_pos.
    set (l' := loc_of_shr_record
                 {| shr_m := Zpos p / 2; shr_r := Z.odd (Zpos p); shr_s := rb || sb |}).
    cbn [shr_m].
    set (m' := round_nearest_even (Zpos p / 2) l').
    pose proof (round_nearest_even_bounds (Zpos p / 2) l') as Hb.
    fold m' in Hb.
    assert (Hdiv : 2 ^ 52 <= Zpos p / 2 < 2 ^ 53).
    { split.
      - apply Z.div_le_lower_bound; lia.
      - apply Z.div_lt_upper_bound; lia. }
    destruct (round_aux_finish false m' (e + 1)) as (m3 & e3 & HF & He3 & Hv);
      [lia | lia | lia |].
    exists m3, e3, 1, m'. rewrite HF.
    split; [reflexivity|]. split; [now right|].
    split; [simpl; lia|]. split; [lia|].
    split.
    { replace (e3 - e) with ((e3 - (e + 1)) + 1) by lia.
      rewrite Z.pow_add_r by lia. rewrite Z.mul_assoc, Hv. reflexivity. }
    rewrite Z.pow_1_r.
    split; [exact Hb|]. split.
    + intros Hmod Hr0. subst m' l'.
      rewrite (Hex Hr0).
      assert (Z.odd (Zpos p) = false) as ->.
      { rewrite <- Z.negb_even. 
        assert (Z.even (Zpos p) = true) as ->; [|reflexivity].
        rewrite Zeven_mod. apply Z.eqb_eq. exact Hmod. }
      reflexivity.
    + intros _ Hmod Hr0. subst m' l'.
      rewrite (Hin Hr0).
      assert (Z.odd (Zpos p) = true) as ->.
      { rewrite Zodd_mod. apply Z.eqb_eq. exact Hmod. }
      reflexivity.
Qed.

Lemma log2_digits (n : Z) :
  0 < n -> 2 ^ (Z.log2 n + 1 - 1) <= n < 2 ^ (Z.log2 n + 1).
Proof.
  intros Hn. replace (Z.log2 n + 1 - 1) with (Z.log2 n) by lia.
  replace (Z.log2 n + 1) with (Z.succ (Z.log2 n)) by lia.
  now apply Z.log2_spec.
Qed.

Lemma log2_bound53 (n : Z) : 0 < n < 2 ^ 53 -> 0 < Z.log2 n + 1 <= 53.
Proof.
  intros [H0 H1]. pose proof (Z.log2_nonneg n).
  assert (Z.log2 n < 53) by (apply Z.log2_lt_pow2; lia). lia.
Qed.

Lemma to_int_of_int (c : Z) : 1 <= c < 2 ^ 53 -> F64.to_int (F64.of_int c) = c.
Proof.
  intros Hc.
  destruct (of_int_exact c (Z.log2 c + 1)) as (m & -> & Hm & _);
    [apply log2_bound53; lia | apply log2_digits; lia |].
  pose proof (log2_bound53 c ltac:(lia)) as Hd.
  set (d := Z.log2 c + 1) in *.
  unfold F64.to_int, F64.int_part.
  assert (Hz : (if 0 <=? d - 53 then Z.shiftl (Zpos m) (d - 53)
                else Z.shiftr (Zpos m) (- (d - 53))) = c).
  { destruct (Z.leb_spec 0 (d - 53)).
    - assert (d = 53) by lia. rewrite Hm. replace (d - 53) with 0 by lia.
      replace (53 - d) with 0 by lia. simpl. lia.
    - rewrite Z.shiftr_div_pow2 by lia. rewrite Hm.
      replace (- (d - 53)) with (53 - d) by lia.
      apply Z.div_mul. apply Z.pow_nonzero; lia. }
  rewrite Hz. cbn [cond_Zopp].
  rewrite min_int_value, max_int_value.
  destruct (Z.leb_spec (-9223372036854775808) c);
    destruct (Z.leb_spec c 9223372036854775807); try reflexivity; lia.
Qed.

Lemma has_fraction_mod (m : positive) (e : Z) :
  e < 0 -> F64.has_fraction m e = negb (Zpos m mod 2 ^ (- e) =? 0).
Proof.
  intros He. unfold F64.has_fraction.
  rewrite Z.land_ones by lia. reflexivity.
Qed.

(** [int(math.Ceil(x))] on a positive finite [x = m * 2^e] lying in
    [(c - 1, c]]. *)
Lemma to_int_Ceil (m : positive) (e c : Z) :
  1 <= c < 2 ^ 53 ->
  (0 <= e -> Zpos m * 2 ^ e = c) ->
  (e < 0 -> (c - 1) * 2 ^ (- e) < Zpos m <= c * 2 ^ (- e)) ->
  F64.to_int (F64.Ceil (S754_finite false m e)) = c.
Proof.
  intros Hc Hpos Hneg. unfold F64.Ceil.
  destruct (Z.leb_spec 0 e) as [He|He].
  - specialize (Hpos He). unfold F64.to_int.
    destruct (Z.leb_spec 0 e); [|lia].
    rewrite Z.shiftl_mul_pow2 by lia. rewrite Hpos. cbn [cond_Zopp].
    rewrite min_int_value, max_int_value.
    destruct (Z.leb_spec (-9223372036854775808) c);
      destruct (Z.leb_spec c 9223372036854775807); try reflexivity; lia.
  - specialize (Hneg He).
    rewrite has_fraction_mod by lia. unfold F64.int_part.
    rewrite Z.shiftr_div_pow2 by lia.
    set (G := 2 ^ (- e)) in *.
    assert (HG : 0 < G) by (apply Z.pow_pos_nonneg; lia).
    pose proof (Z.div_mod (Zpos m) G ltac:(lia)) as Hdm.
    pose proof (Z.mod_pos_bound (Zpos m) G HG) as Hmb.
    cbn [negb andb cond_Zopp].
    assert (Hq : (if negb (Zpos m mod G =? 0) then Zpos m / G + 1 else Zpos m / G) = c).
    { destruct (Z.eqb_spec (Zpos m mod G) 0) as [E|E]; cbn [negb]; nia. }
    rewrite Hq. apply to_int_of_int. exact Hc.
Qed.

(** Arithmetic of the scaled quotient [q = N * D / t] around [c * D],
    where [c] is the ceiling of [N / t] and [D > t]. *)
Lemma scaled_quotient_bounds (N t D c q rr : Z) :
  0 < t -> t < D -> (c - 1) * t < N <= c * t ->
  N * D = t * q + rr -> 0 <= rr < t ->
  q <= c * D /\ (c - 1) * D + 1 <= q /\
  (q = c * D -> rr = 0) /\ (q = (c - 1) * D + 1 -> 0 < rr).
Proof.
  intros Ht HD [Hlo Hhi] HQ Hrr.
  assert (H1 : N * D <= (c * t) * D) by (apply Z.mul_le_mono_nonneg_r; lia).
  assert (H2 : ((c - 1) * t + 1) * D <= N * D)
    by (apply Z.mul_le_mono_nonneg_r; lia).
  assert (Hq_hi : q <= c * D).
  { apply Z.nlt_ge. intros Hc.
    assert (t * (c * D + 1) <= t * q) by (apply Z.mul_le_mono_nonneg_l; lia).
    lia. }
  assert (Hq_lo : (c - 1) * D + 1 <= q).
  { apply Z.nlt_ge. intros Hc.
    assert (t * q <= t * ((c - 1) * D)) by (apply Z.mul_le_mono_nonneg_l; lia).
    lia. }
  repeat split; try assumption.
  - intros ->. lia.
  - intros ->. lia.
Qed.

Lemma ceil_div_bounds (N t : Z) :
  0 < t -> 0 < N ->
  let c := (N + t - 1) / t in (c - 1) * t < N <= c * t /\ 1 <= c <= N.
Proof.
  intros Ht HN c.
  pose proof (Z.div_mod (N + t - 1) t ltac:(lia)) as Hc.
  pose proof (Z.mod_pos_bound (N + t - 1) t ltac:(lia)) as Hcm.
  fold c in Hc.
  assert (H1 : (c - 1) * t < N <= c * t) by lia.
  split; [exact H1|].
  split.
  - apply Z.nlt_ge. intros Hc0.
    assert (c * t <= 0 * t) by (apply Z.mul_le_mono_nonneg_r; lia). lia.
  - apply Z.nlt_ge. intros HcN.
    assert (N * t <= (c - 1) * t) by (apply Z.mul_le_mono_nonneg_r; lia).
    assert (N * 1 <= N * t) by (apply Z.mul_le_mono_nonneg_l; lia). lia.
Qed.

(** The mantissa rounded at [k] dropped bits stays within [((c-1) D, c D]]. *)
Lemma rounded_in_interval (q rr B D' c k m' : Z) :
  k = 0 \/ k = 1 -> 0 < B -> 0 < D' -> 0 <= rr ->
  q <= c * (2 * D') -> (c - 1) * (2 * D') + 1 <= q ->
  (q = c * (2 * D') -> rr = 0) ->
  (q = (c - 1) * (2 * D') + 1 -> 0 < rr) ->
  q / 2 ^ k <= m' <= q / 2 ^ k + 1 ->
  (q mod 2 ^ k = 0 -> rr * B = 0 -> m' = q / 2 ^ k) ->
  (k = 1 -> q mod 2 = 1 -> 0 < rr * B -> m' = q / 2 + 1) ->
  (c - 1) * (2 * D') < m' * 2 ^ k <= c * (2 * D').
Proof.
  intros Hk HB HD' Hrr Hhi Hlo Hex Hin Hm Hdown Hup.
  destruct Hk as [-> | ->].
  - rewrite Z.pow_0_r, Z.div_1_r in *. rewrite Z.mul_1_r.
    split; [lia|].
    destruct (Z.eq_dec q (c * (2 * D'))) as [E|E]; [|lia].
    rewrite Hdown; [lia | apply Z.mod_1_r |].
    rewrite (Hex E). reflexivity.
  - rewrite Z.pow_1_r in *.
    pose proof (Z.div_mod q 2 ltac:(lia)) as Hq2.
    pose proof (Z.mod_pos_bound q 2 ltac:(lia)) as Hq2b.
    set (h := q / 2) in *. set (b := q mod 2) in *.
    split.
    + destruct (Z.eq_dec h ((c - 1) * D')) as [E|E]; [|lia].
      assert (Eq : q = (c - 1) * (2 * D') + 1) by lia.
      assert (Hb : b = 1) by lia.
      specialize (Hin Eq).
      assert (0 < rr * B) by (apply Z.mul_pos_pos; lia).
      rewrite Hup; [lia | reflexivity | exact Hb | assumption].
    + destruct (Z.eq_dec h (c * D')) as [E|E]; [|lia].
      assert (Eq : q = c * (2 * D')) by lia.
      assert (Hb : b = 0) by lia.
      rewrite Hdown; [lia | exact Hb |].
      rewrite (Hex Eq). reflexivity.
Qed.

(** From the mantissa interval to the value interval of the float. *)
Lemma value_interval_neg (m3 X D G P c : Z) :
  0 < G -> 0 < P -> P * G = D -> m3 * P = X ->
  (c - 1) * D < X <= c * D ->
  (c - 1) * G < m3 <= c * G.
Proof.
  intros HG HP <- <- [Hlo Hhi].
  split.
  - apply Z.nle_gt. intros H.
    assert (m3 * P <= ((c - 1) * G) * P) by (apply Z.mul_le_mono_nonneg_r; lia).
    lia.
  - apply Z.nlt_ge. intros H.
    assert ((c * G + 1) * P <= m3 * P) by (apply Z.mul_le_mono_nonneg_r; lia).
    lia.
Qed.

Lemma value_interval_pos (v X D c : Z) :
  0 < D -> v * D = X -> (c - 1) * D < X <= c * D -> v = c.
Proof.
  intros HD <- [Hlo Hhi].
  assert (c - 1 < v).
  { apply Z.nle_gt. intros H.
    assert (v * D <= (c - 1) * D) by (apply Z.mul_le_mono_nonneg_r; lia). lia. }
  assert (v <= c).
  { apply Z.nlt_ge. intros H'.
    assert ((c + 1) * D <= v * D) by (apply Z.mul_le_mono_nonneg_r; lia). lia. }
  lia.
Qed.

Lemma div_normal (m1 m2 : positive) (e1 e2 : Z) :
  Zpos (digits2_pos m1) = 53 -> Zpos (digits2_pos m2) = 53 ->
  -1074 <= e1 - e2 - 53 ->
  F64.div (S754_finite false m1 e1) (S754_finite false m2 e2)
  = binary_round_aux 53 1024 false
      ((Zpos m1 * 2 ^ 53) / Zpos m2) (e1 - e2 - 53)
      (new_location (Zpos m2) ((Zpos m1 * 2 ^ 53) mod Zpos m2)).
Proof.
  intros H1 H2 He.
  unfold F64.div, SFdiv, SFdiv_core_binary.
  cbn [Zdigits2 xorb]. rewrite H1, H2.
  replace (53 + e1 - (53 + e2)) with (e1 - e2) by lia.
  rewrite fexp_normal by lia.
  rewrite Z.min_l by lia.
  replace (e1 - e2 - (e1 - e2 - 53)) with 53 by lia.
  rewrite Z.shiftl_mul_pow2 by lia.
  unfold Z.div, Z.modulo.
  destruct (Z.div_eucl (Zpos m1 * 2 ^ 53) (Zpos m2)) as [q r].
  reflexivity.
Qed.

Lemma pow2_split (a b : Z) : 0 <= a -> 0 <= b -> 2 ^ (a + b) = 2 ^ a * 2 ^ b.
Proof. intros. now apply Z.pow_add_r. Qed.

Lemma mantissa53_bounds (m : positive) :
  Zpos (digits2_pos m) = 53 ->
  4503599627370496 <= Zpos m < 9007199254740992.
Proof.
  intros Hd. pose proof (size_bounds m) as S1.
  rewrite <- digits2_size, Hd in S1. exact S1.
Qed.

Lemma quotient53_bounds (m1 m2 : Z) :
  4503599627370496 <= m1 < 9007199254740992 ->
  4503599627370496 <= m2 < 9007199254740992 ->
  2 ^ 52 <= (m1 * 2 ^ 53) / m2 < 2 ^ 54.
Proof.
  intros H1 H2.
  change (2 ^ 52) with 4503599627370496.
  change (2 ^ 53) with 9007199254740992.
  change (2 ^ 54) with 18014398509481984.
  split.
  - apply Z.div_le_lower_bound; [lia|].
    assert (m2 * 4503599627370496 <= 9007199254740992 * 4503599627370496) by lia.
    lia.
  - apply Z.div_lt_upper_bound; [lia|].
    assert (4503599627370496 * 18014398509481984 <= m2 * 18014398509481984) by lia.
    lia.
Qed.

Lemma float_ceil_div (N t : Z) :
  1 <= N < 2 ^ 53 -> 1 <= t < 2 ^ 53 ->
  F64.to_int (F64.Ceil (F64.div (F64.of_int N) (F64.of_int t)))
  = (N + t - 1) / t.
Proof.
  intros HN Ht.
  pose proof (log2_bound53 N ltac:(lia)) as HdN.
  pose proof (log2_bound53 t ltac:(lia)) as Hdt.
  pose proof (log2_digits N ltac:(lia)) as HbN.
  pose proof (log2_digits t ltac:(lia)) as Hbt.
  set (dN := Z.log2 N + 1) in *. set (dt := Z.log2 t + 1) in *.
  destruct (of_int_exact N dN HdN HbN) as (m1 & -> & Hm1 & Hd1).
  destruct (of_int_exact t dt Hdt Hbt) as (m2 & -> & Hm2 & Hd2).
  rewrite div_normal by (try assumption; lia).
  replace (dN - 53 - (dt - 53) - 53) with (dN - dt - 53) by lia.
  pose proof (quotient53_bounds _ _ (mantissa53_bounds m1 Hd1)
                (mantissa53_bounds m2 Hd2)) as Hqb.
  (* the scaled quotient *)
  set (B := 2 ^ (53 - dt)) in *.
  set (D' := 2 ^ (52 + dt - dN)).
  assert (HB : 0 < B) by (apply Z.pow_pos_nonneg; lia).
  assert (HD' : 0 < D') by (apply Z.pow_pos_nonneg; lia).
  assert (HD2 : 2 ^ (53 + dt - dN) = 2 * D').
  { unfold D'. rewrite <- Z.pow_succ_r by lia. f_equal. lia. }
  assert (HADB : 2 ^ (53 - dN) * 2 ^ 53 = (2 * D') * B).
  { rewrite <- HD2. unfold B. rewrite <- !Z.pow_add_r by lia. f_equal. lia. }
  assert (HDt : t < 2 * D').
  { rewrite <- HD2.
    assert (2 ^ dt <= 2 ^ (53 + dt - dN)) by (apply Z.pow_le_mono_r; lia).
    lia. }
  assert (Hnum : Zpos m1 * 2 ^ 53 = (N * (2 * D')) * B).
  { rewrite Hm1, <- Z.mul_assoc, HADB. ring. }
  rewrite Hnum, Hm2 in Hqb |- *.
  rewrite Z.div_mul_cancel_r in Hqb |- * by lia.
  rewrite Z.mul_mod_distr_r by lia.
  set (Q := N * (2 * D')) in *.
  pose proof (Z.div_mod Q t ltac:(lia)) as HQ.
  pose proof (Z.mod_pos_bound Q t ltac:(lia)) as Hrr.
  set (q := Q / t) in *. set (rr := Q mod t) in *.
  assert (HrB : 0 <= rr * B < t * B).
  { split; [apply Z.mul_nonneg_nonneg; lia|].
    apply Z.mul_lt_mono_pos_r; lia. }
  destruct (round_aux_spec q (rr * B) (t * B) (dN - dt - 53))
    as (m3 & e3 & k & m' & -> & Hk & Hqk & He3 & Hval & Hmb & Hex & Hup);
    [exact Hqb | exact HrB | lia | lia |].
  (* the ceiling *)
  destruct (ceil_div_bounds N t ltac:(lia) ltac:(lia)) as [Hc1 Hc2].
  set (c := (N + t - 1) / t) in *.
  destruct (scaled_quotient_bounds N t (2 * D') c q rr) as (Hq_hi & Hq_lo & Hrr0 & Hrrpos);
    [lia | exact HDt | exact Hc1 | exact HQ | exact Hrr |].
  pose proof (rounded_in_interval q rr B D' c k m' Hk HB HD' ltac:(lia)
                Hq_hi Hq_lo Hrr0 Hrrpos Hmb Hex Hup) as HX.
  rewrite <- Hval in HX.
  apply to_int_Ceil.
  - lia.
  - intros He.
    apply (value_interval_pos (Zpos m3 * 2 ^ e3)
             (Zpos m3 * 2 ^ (e3 - (dN - dt - 53))) (2 * D') c ltac:(lia));
      [|exact HX].
    rewrite <- Z.mul_assoc. f_equal.
    rewrite <- HD2, <- Z.pow_add_r by lia. f_equal. lia.
  - intros He.
    apply (value_interval_neg (Zpos m3)
             (Zpos m3 * 2 ^ (e3 - (dN - dt - 53))) (2 * D') (2 ^ (- e3))
             (2 ^ (e3 - (dN - dt - 53))) c).
    + apply Z.pow_pos_nonneg; lia.
    + apply Z.pow_pos_nonneg; lia.
    + rewrite <- HD2, <- Z.pow_add_r by lia. f_equal. lia.
    + reflexivity.
    + exact HX.
Qed.


(** ** Progress ticks *)

Lemma updateNextTick_fields (bq : bgqueue.BgQueue) :
  bgqueue.numJobs (bgqueue.updateNextTick bq) = bgqueue.numJobs bq /\
  bgqueue.tickStep (bgqueue.updateNextTick bq) = bgqueue.tickStep bq /\
  bgqueue.numTicks (bgqueue.updateNextTick bq) = bgqueue.numTicks bq /\
  bgqueue.Stats (bgqueue.updateNextTick bq) = bgqueue.Stats bq /\
  bgqueue.nextTick (bgqueue.updateNextTick bq)
    = Z.min (GoInt.add (bgqueue.nextTick bq) (bgqueue.tickStep bq))
            (bgqueue.numJobs bq).
Proof. repeat split. Qed.

Lemma pow53_value : 2 ^ 53 = 9007199254740992.
Proof. reflexivity. Qed.

Lemma ceil_div_spec (n t : Z) :
  0 < t -> 0 < n ->
  (ceil_div n t - 1) * t < n <= ceil_div n t * t /\ 1 <= ceil_div n t <= n.
Proof. intros Ht Hn. exact (ceil_div_bounds n t Ht Hn). Qed.

Lemma setTicks_ceiling_step (bq : bgqueue.BgQueue) (ticks : Z) :
  1 <= bgqueue.numJobs bq < 2 ^ 53 -> 1 <= ticks < 2 ^ 53 ->
  let bq' := bgqueue.setTicks bq ticks in
  bgqueue.numTicks bq' = ticks /\
  bgqueue.numJobs bq' = bgqueue.numJobs bq /\
  bgqueue.tickStep bq' = ceil_div (bgqueue.numJobs bq) ticks /\
  (bgqueue.tickStep bq' - 1) * ticks < bgqueue.numJobs bq
     <= bgqueue.tickStep bq' * ticks /\
  bgqueue.nextTick bq' = Z.min (bgqueue.tickStep bq') (bgqueue.numJobs bq).
Proof.
  intros HN Ht bq'.
  assert (Hstep : bgqueue.tickStep bq' = ceil_div (bgqueue.numJobs bq) ticks).
  { unfold bq', bgqueue.setTicks. cbn. apply float_ceil_div; assumption. }
  destruct (ceil_div_spec (bgqueue.numJobs bq) ticks) as [Hc1 Hc2]; [lia | lia |].
  split; [reflexivity|]. split; [reflexivity|]. split; [exact Hstep|].
  split; [rewrite Hstep; exact Hc1|].
  unfold bq', bgqueue.setTicks.
  destruct (updateNextTick_fields
              (bgqueue.set_ticks
                 (bgqueue.set_ticks (bgqueue.set_ticks bq ticks
                     (bgqueue.nextTick bq) (bgqueue.tickStep bq))
                    ticks (bgqueue.nextTick bq)
                    (F64.to_int (F64.Ceil (F64.div
                        (F64.of_int (bgqueue.numJobs bq)) (F64.of_int ticks)))))
                 ticks 0
                 (F64.to_int (F64.Ceil (F64.div
                        (F64.of_int (bgqueue.numJobs bq)) (F64.of_int ticks))))))
    as (_ & Hs & _ & _ & Hn).
  cbn in Hn, Hs |- *.
  rewrite float_ceil_div by assumption.
  fold (ceil_div (bgqueue.numJobs bq) ticks).
  rewrite add_exact; [reflexivity|].
  rewrite pow53_value in HN. int_range.
Qed.

(** X1. For 1 <= numJobs < 2^53 and 1 <= numTicks < 2^53 the float64
    computation of setTicks yields the exact ceiling of numJobs / numTicks,
    and the first boundary is the smaller of that step and numJobs. *)
Theorem setTicks_step_is_ceiling (bq : bgqueue.BgQueue) (ticks : Z) :
  1 <= bgqueue.numJobs bq < 2 ^ 53 -> 1 <= ticks < 2 ^ 53 ->
  let bq' := bgqueue.setTicks bq ticks in
  bgqueue.numTicks bq' = ticks /\
  bgqueue.numJobs bq' = bgqueue.numJobs bq /\
  bgqueue.tickStep bq' = ceil_div (bgqueue.numJobs bq) ticks /\
  (bgqueue.tickStep bq' - 1) * ticks < bgqueue.numJobs bq
     <= bgqueue.tickStep bq' * ticks /\
  bgqueue.nextTick bq' = Z.min (bgqueue.tickStep bq') (bgqueue.numJobs bq).
Proof. exact (setTicks_ceiling_step bq ticks). Qed.

(** Witness of X1: 50 jobs, 20 ticks, step 3. *)
Lemma setTicks_step_is_ceiling_witness :
  bgqueue.tickStep
    (bgqueue.setTicks
       {| bgqueue.numJobs := 50; bgqueue.numSlots := 10;
          bgqueue.prefix := "bgjob"; bgqueue.numTicks := 0;
          bgqueue.nextTick := 0; bgqueue.tickStep := 0;
          bgqueue.Command := []; bgqueue.Jobs := [];
          bgqueue.QueueStart := 0; bgqueue.Stats := bgstats.zero |} 20) = 3.
Proof.
  assert (H50 : 1 <= 50 < 2 ^ 53) by (rewrite pow53_value; lia).
  assert (H20 : 1 <= 20 < 2 ^ 53) by (rewrite pow53_value; lia).
  pose proof (setTicks_step_is_ceiling
     {| bgqueue.numJobs := 50; bgqueue.numSlots := 10;
        bgqueue.prefix := "bgjob"; bgqueue.numTicks := 0;
        bgqueue.nextTick := 0; bgqueue.tickStep := 0;
        bgqueue.Command := []; bgqueue.Jobs := [];
        bgqueue.QueueStart := 0; bgqueue.Stats := bgstats.zero |} 20
     H50 H20) as H.
  destruct H as (_ & _ & H & _). rewrite H. reflexivity.
Defined.

(** Boundaries after [k] further updates, in closed form. *)
Lemma boundary_closed_form (k : nat) (bq : bgqueue.BgQueue) :
  0 <= bgqueue.tickStep bq ->
  0 <= bgqueue.nextTick bq <= bgqueue.numJobs bq ->
  bgqueue.numJobs bq + bgqueue.tickStep bq <= GoInt.max_int ->
  bgqueue.boundary bq k
  = Z.min (bgqueue.nextTick bq + Z.of_nat k * bgqueue.tickStep bq)
          (bgqueue.numJobs bq).
Proof.
  revert bq. induction k as [|k IH]; intros bq Hs Hn Hmax.
  - simpl. lia.
  - cbn [bgqueue.boundary].
    destruct (updateNextTick_fields bq) as (EN & ES & _ & _ & ET).
    rewrite add_exact in ET by int_range.
    assert (0 <= Z.of_nat k * bgqueue.tickStep bq)
      by (apply Z.mul_nonneg_nonneg; lia).
    rewrite IH; rewrite ?EN, ?ES, ?ET; try lia.
Qed.

(** X2. After setTicks, with 1 <= numJobs < 2^53 and 1 <= numTicks < 2^53,
    the boundary in force after k further updateNextTick calls is
    min((k + 1) * tickStep, numJobs): the boundaries never decrease, never
    exceed numJobs, grow by tickStep (capped) while below numJobs, and
    equal numJobs from the numTicks-th boundary on. *)
Theorem tick_boundaries (bq : bgqueue.BgQueue) (ticks : Z) (k : nat) :
  1 <= bgqueue.numJobs bq < 2 ^ 53 -> 1 <= ticks < 2 ^ 53 ->
  let bq' := bgqueue.setTicks bq ticks in
  let N := bgqueue.numJobs bq in
  let step := ceil_div N ticks in
  bgqueue.boundary bq' k = Z.min ((Z.of_nat k + 1) * step) N /\
  bgqueue.boundary bq' k <= bgqueue.boundary bq' (S k) <= N /\
  (bgqueue.boundary bq' k < N ->
   bgqueue.boundary bq' (S k) = Z.min (bgqueue.boundary bq' k + step) N /\
   bgqueue.boundary bq' k < bgqueue.boundary bq' (S k)) /\
  (ticks <= Z.of_nat k + 1 -> bgqueue.boundary bq' k = N).
Proof.
  intros HN Ht bq' N step.
  destruct (setTicks_ceiling_step bq ticks HN Ht)
    as (_ & EN & ES & Hb & ET).
  fold bq' in EN, ES, ET, Hb. fold N in EN, ES, ET, Hb, HN. fold step in ES.
  rewrite ES in ET, Hb.
  destruct (ceil_div_spec N ticks ltac:(lia) ltac:(lia)) as [_ Hc].
  fold step in Hc.
  rewrite pow53_value in HN.
  assert (Hcf : forall j, bgqueue.boundary bq' j
                          = Z.min ((Z.of_nat j + 1) * step) N).
  { intros j.
    assert (0 <= Z.of_nat j * step) by (apply Z.mul_nonneg_nonneg; lia).
    rewrite boundary_closed_form; rewrite ?EN, ?ES, ?ET; try lia.
    int_range. }
  assert (Hmono : 0 <= Z.of_nat k * step) by (apply Z.mul_nonneg_nonneg; lia).
  rewrite !Hcf. rewrite Nat2Z.inj_succ.
  split; [reflexivity|]. split; [lia|]. split; [lia|].
  intros Hk.
  assert (ticks * step <= (Z.of_nat k + 1) * step)
    by (apply Z.mul_le_mono_nonneg_r; lia).
  lia.
Qed.

(** Witness of X2: 50 jobs, 20 ticks, the fourth boundary is 12. *)
Lemma tick_boundaries_witness :
  bgqueue.boundary
    (bgqueue.setTicks
       {| bgqueue.numJobs := 50; bgqueue.numSlots := 10;
          bgqueue.prefix := "bgjob"; bgqueue.numTicks := 0;
          bgqueue.nextTick := 0; bgqueue.tickStep := 0;
          bgqueue.Command := []; bgqueue.Jobs := [];
          bgqueue.QueueStart := 0; bgqueue.Stats := bgstats.zero |} 20) 3
  = 12.
Proof.
  assert (H50 : 1 <= 50 < 2 ^ 53) by (rewrite pow53_value; lia).
  assert (H20 : 1 <= 20 < 2 ^ 53) by (rewrite pow53_value; lia).
  pose proof (tick_boundaries
     {| bgqueue.numJobs := 50; bgqueue.numSlots := 10;
        bgqueue.prefix := "bgjob"; bgqueue.numTicks := 0;
        bgqueue.nextTick := 0; bgqueue.tickStep := 0;
        bgqueue.Command := []; bgqueue.Jobs := [];
        bgqueue.QueueStart := 0; bgqueue.Stats := bgstats.zero |} 20 3
     H50 H20) as H.
  destruct H as (H & _). rewrite H. reflexivity.
Defined.

Lemma div_mod_succ (i s : Z) :
  0 <= i -> 0 < s ->
  ((i + 1) mod s = 0 /\ (i + 1) / s = i / s + 1 /\ i + 1 = (i / s + 1) * s) \/
  ((i + 1) mod s <> 0 /\ (i + 1) / s = i / s /\ i + 1 < (i / s + 1) * s).
Proof.
  intros Hi Hs.
  pose proof (Z.div_mod i s ltac:(lia)) as E.
  pose proof (Z.mod_pos_bound i s Hs) as B.
  destruct (Z.eq_dec (i mod s + 1) s) as [Hr|Hr].
  - left.
    assert (E1 : i + 1 = s * (i / s + 1) + 0) by lia.
    split; [symmetry; apply (Z.mod_unique (i + 1) s (i / s + 1) 0); lia|].
    split; [symmetry; apply (Z.div_unique (i + 1) s (i / s + 1) 0); lia|].
    lia.
  - right.
    assert (E1 : i + 1 = s * (i / s) + (i mod s + 1)) by lia.
    assert (Hm : (i + 1) mod s = i mod s + 1)
      by (symmetry; apply (Z.mod_unique (i + 1) s (i / s) (i mod s + 1)); lia).
    split; [lia|].
    split; [symmetry; apply (Z.div_unique (i + 1) s (i / s) (i mod s + 1)); lia|].
    lia.
Qed.

Lemma consume_ticking (N s i : Z) (bq : bgqueue.BgQueue)
    (bj : bgjob.BackgroundJob) :
  1 <= s -> N + s <= GoInt.max_int -> 0 <= i < N ->
  ticking N s i bq ->
  ticking N s (i + 1) (fst (bgqueue.consume bq bj)) /\
  snd (bgqueue.consume bq bj) = at_tick s N (i + 1) /\
  bgqueue.Stats (fst (bgqueue.consume bq bj))
    = bgstats.Update (bgqueue.Stats bq) bj.
Proof.
  intros Hs Hmax Hi (EN & ES & EC & ET).
  unfold bgqueue.consume.
  set (st := bgstats.Update (bgqueue.Stats bq) bj).
  assert (HC : bgstats.Completed st = i + 1).
  { unfold st. rewrite StatsCounters.Update_Completed, EC.
    apply add_exact. int_range. }
  cbn [bgqueue.set_Stats bgqueue.Stats bgqueue.nextTick].
  rewrite HC, ET.
  unfold at_tick, ticking.
  destruct (div_mod_succ i s ltac:(lia) ltac:(lia)) as [(Hm & Hd & He) | (Hm & Hd & He)].
  - (* the count reaches a multiple of the step *)
    rewrite Hm, Z.eqb_refl. cbn [orb].
    destruct (Z.geb_spec (i + 1) (Z.min ((i / s + 1) * s) N)); [|lia].
    cbn [fst snd].
    destruct (updateNextTick_fields (bgqueue.set_Stats bq st))
      as (E1 & E2 & _ & E4 & E5).
    rewrite E1, E2, E4, E5. cbn [bgqueue.set_Stats bgqueue.numJobs
      bgqueue.tickStep bgqueue.nextTick bgqueue.Stats].
    rewrite EN, ES, ET, HC, Hd.
    rewrite add_exact by int_range.
    repeat split; try reflexivity. lia.
  - destruct (Z.eqb_spec ((i + 1) mod s) 0) as [|_]; [contradiction|].
    cbn [orb].
    destruct (Z.eqb_spec (i + 1) N) as [Hlast|Hnot].
    + destruct (Z.geb_spec (i + 1) (Z.min ((i / s + 1) * s) N)); [|lia].
      cbn [fst snd].
      destruct (updateNextTick_fields (bgqueue.set_Stats bq st))
        as (E1 & E2 & _ & E4 & E5).
      rewrite E1, E2, E4, E5. cbn [bgqueue.set_Stats bgqueue.numJobs
        bgqueue.tickStep bgqueue.nextTick bgqueue.Stats].
      rewrite EN, ES, ET, HC, Hd.
      rewrite add_exact by int_range.
      repeat split; try reflexivity. lia.
    + destruct (Z.geb_spec (i + 1) (Z.min ((i / s + 1) * s) N)); [lia|].
      cbn [fst snd bgqueue.set_Stats bgqueue.numJobs
        bgqueue.tickStep bgqueue.nextTick bgqueue.Stats].
      rewrite HC, Hd. repeat split; try assumption; reflexivity.
Qed.

Lemma drain_cons bq bj rest :
  bgqueue.drain bq (bj :: rest)
  = (fst (bgqueue.drain (fst (bgqueue.consume bq bj)) rest),
     snd (bgqueue.consume bq bj)
       :: snd (bgqueue.drain (fst (bgqueue.consume bq bj)) rest)).
Proof.
  cbn [bgqueue.drain].
  destruct (bgqueue.consume bq bj) as [bq1 fired]. cbn [fst snd].
  destruct (bgqueue.drain bq1 rest) as [bq2 flags]. reflexivity.
Qed.

Lemma drain_ticking (N s : Z) (jobs : list bgjob.BackgroundJob) :
  1 <= s -> N + s <= GoInt.max_int ->
  forall (i : nat) (bq : bgqueue.BgQueue),
  Z.of_nat i + Z.of_nat (List.length jobs) <= N ->
  ticking N s (Z.of_nat i) bq ->
  ticking N s (Z.of_nat i + Z.of_nat (List.length jobs))
          (fst (bgqueue.drain bq jobs)) /\
  snd (bgqueue.drain bq jobs)
    = map (fun j => at_tick s N (Z.of_nat j)) (seq (S i) (List.length jobs)) /\
  bgqueue.Stats (fst (bgqueue.drain bq jobs))
    = bgstats.feed (bgqueue.Stats bq) jobs.
Proof.
  intros Hs Hmax.
  induction jobs as [|bj rest IH]; intros i bq Hlen Hinv.
  - cbn. rewrite Z.add_0_r. auto.
  - cbn [List.length] in Hlen |- *. rewrite Nat2Z.inj_succ in Hlen |- *.
    rewrite drain_cons. cbn [fst snd].
    destruct (consume_ticking N s (Z.of_nat i) bq bj Hs Hmax ltac:(lia) Hinv)
      as (Hinv1 & Hfired & Hst).
    replace (Z.of_nat i + 1) with (Z.of_nat (S i)) in Hinv1, Hfired by lia.
    destruct (IH (S i) (fst (bgqueue.consume bq bj)) ltac:(lia) Hinv1)
      as (Hinv2 & Hflags & Hst2).
    split; [|split].
    + replace (Z.of_nat i + Z.succ (Z.of_nat (List.length rest)))
        with (Z.of_nat (S i) + Z.of_nat (List.length rest)) by lia.
      exact Hinv2.
    + cbn [seq map]. rewrite Hfired, Hflags. reflexivity.
    + rewrite Hst2, Hst. reflexivity.
Qed.

(** A queue fresh from [New] is at the start of the ticking. *)
Lemma New_ticking (N C : Z) (pfx : string) (command : list string)
    (bq : bgqueue.BgQueue) :
  1 <= N < 2 ^ 53 ->
  bgqueue.New N C pfx command = Some bq ->
  ticking N (ceil_div N 20) 0 bq /\ bgqueue.Stats bq = bgstats.New N /\
  bgqueue.numTicks bq = 20.
Proof.
  intros HN. unfold bgqueue.New, bgqueue.Init.
  set (bq0 := {| bgqueue.numJobs := N; bgqueue.numSlots := C;
                 bgqueue.prefix := pfx;
                 bgqueue.numTicks := bgqueue.numTicks bgqueue.zero;
                 bgqueue.nextTick := bgqueue.nextTick bgqueue.zero;
                 bgqueue.tickStep := bgqueue.tickStep bgqueue.zero;
                 bgqueue.Command := command;
                 bgqueue.Jobs := bgqueue.Jobs bgqueue.zero;
                 bgqueue.QueueStart := bgqueue.QueueStart bgqueue.zero;
                 bgqueue.Stats := bgqueue.Stats bgqueue.zero |}).
  assert (H20 : 1 <= 20 < 2 ^ 53) by (rewrite pow53_value; lia).
  destruct (setTicks_ceiling_step bq0 20 HN H20) as (E1 & E2 & E3 & _ & E5).
  cbv zeta.
  destruct ((bgqueue.numSlots (bgqueue.set_Stats (bgqueue.setTicks bq0 20)
               (bgstats.New N)) <? 0)
            || (bgqueue.numJobs (bgqueue.set_Stats (bgqueue.setTicks bq0 20)
               (bgstats.New N)) <? 0)); [discriminate|].
  intros H. injection H as <-.
  cbn [bgqueue.numJobs bgqueue.tickStep bgqueue.nextTick bgqueue.Stats
       bgqueue.set_Stats bgqueue.numTicks].
  unfold ticking.
  cbn [bgqueue.numJobs bgqueue.tickStep bgqueue.nextTick bgqueue.Stats
       bgqueue.set_Stats bgqueue.numTicks].
  change (binary_round F64.prec F64.emax false 20 0) with (F64.of_int 20).
  rewrite !float_ceil_div by assumption. fold (ceil_div N 20).
  destruct (ceil_div_spec N 20 ltac:(lia) ltac:(lia)) as [_ Hc].
  rewrite pow53_value in HN.
  rewrite add_exact by int_range.
  rewrite Z.div_0_l by lia.
  repeat split. f_equal. lia.
Qed.

Lemma arrivals_snoc (n : nat) :
  arrivals (S n) = arrivals n ++ [Z.of_nat (S n)].
Proof.
  unfold arrivals. rewrite seq_S, map_app. reflexivity.
Qed.

Lemma fired_snoc (flags : list bool) (b : bool) :
  fired (flags ++ [b]) = fired flags + (if b then 1 else 0).
Proof.
  unfold fired. rewrite filter_app, length_app. destruct b; simpl; lia.
Qed.

(** Among the first [n] arrivals the callback fires once per multiple of
    the step, and once more for the last job when the step does not divide
    the number of jobs. *)
Lemma fired_count (s N : Z) (n : nat) :
  1 <= s -> Z.of_nat n <= N ->
  fired (map (at_tick s N) (arrivals n))
  = Z.of_nat n / s
    + (if (Z.of_nat n =? N) && negb (N mod s =? 0) then 1 else 0).
Proof.
  intros Hs. induction n as [|n IH]; intros Hn.
  - change (arrivals 0) with (@nil Z). cbn [map].
    change (fired []) with 0. change (Z.of_nat 0) with 0.
    rewrite Z.div_0_l by lia.
    destruct (Z.eqb_spec 0 N) as [<-|]; [|reflexivity].
    rewrite Z.mod_0_l by lia. reflexivity.
  - rewrite arrivals_snoc, map_app.
    change (map (at_tick s N) [Z.of_nat (S n)])
      with [at_tick s N (Z.of_nat (S n))].
    rewrite fired_snoc.
    rewrite IH by lia.
    destruct (Z.eqb_spec (Z.of_nat n) N) as [E|_]; [lia|]. cbn [andb].
    rewrite Nat2Z.inj_succ in *. unfold Z.succ in *.
    unfold at_tick.
    destruct (div_mod_succ (Z.of_nat n) s ltac:(lia) ltac:(lia))
      as [(Hm & Hd & _) | (Hm & Hd & _)].
    + rewrite Hm, Hd. cbn [Z.eqb orb].
      destruct (Z.eqb_spec (Z.of_nat n + 1) N) as [E|_]; [|cbn; lia].
      rewrite <- E, Hm. cbn. lia.
    + rewrite Hd.
      destruct (Z.eqb_spec ((Z.of_nat n + 1) mod s) 0); [contradiction|].
      cbn [orb].
      destruct (Z.eqb_spec (Z.of_nat n + 1) N) as [E|_]; cbn [andb negb].
      * rewrite <- E.
        destruct (Z.eqb_spec ((Z.of_nat n + 1) mod s) 0); [contradiction|].
        cbn [negb]. lia.
      * lia.
Qed.

Lemma fired_at_most_ticks (N t : Z) :
  1 <= N -> 1 <= t ->
  N / ceil_div N t
  + (if negb (N mod ceil_div N t =? 0) then 1 else 0) <= t.
Proof.
  intros HN Ht.
  destruct (ceil_div_spec N t ltac:(lia) ltac:(lia)) as [[_ Hhi] [Hc _]].
  set (s := ceil_div N t) in *.
  pose proof (Z.div_mod N s ltac:(lia)) as E.
  pose proof (Z.mod_pos_bound N s ltac:(lia)) as B.
  assert (Hq : N / s <= t).
  { apply Z.nlt_ge. intros Hlt.
    assert (s * (t + 1) <= s * (N / s)) by (apply Z.mul_le_mono_nonneg_l; lia).
    lia. }
  destruct (Z.eqb_spec (N mod s) 0) as [|Hne]; cbn [negb]; [lia|].
  assert (N / s < t); [|lia].
  apply Z.nle_gt. intros Hge.
  assert (s * t <= s * (N / s)) by (apply Z.mul_le_mono_nonneg_l; lia).
  lia.
Qed.

(** X3. The consumer loop of Run on a queue built by New for N jobs
    (1 <= N < 2^53), draining N received jobs in any order: the progress
    callback fires at the i-th arrival exactly when i is a multiple of
    ceil(N / 20) or i = N; it fires on the last job, between 1 and 20
    times in all; afterwards the statistics are those of feeding the jobs
    to a fresh accumulator, Completed = N and the next boundary is N. *)
Theorem progress_fires_at_ticks (N C : Z) (pfx : string)
    (command : list string) (bq : bgqueue.BgQueue)
    (received : list bgjob.BackgroundJob) :
  1 <= N < 2 ^ 53 ->
  bgqueue.New N C pfx command = Some bq ->
  Z.of_nat (List.length received) = N ->
  let step := ceil_div N 20 in
  let flags := snd (bgqueue.drain bq received) in
  let bq' := fst (bgqueue.drain bq received) in
  flags = map (at_tick step N) (arrivals (List.length received)) /\
  last flags false = true /\
  1 <= fired flags <= 20 /\
  bgqueue.Stats bq' = bgstats.feed (bgstats.New N) received /\
  bgstats.Completed (bgqueue.Stats bq') = N /\
  bgqueue.nextTick bq' = N.
Proof.
  intros HN Hnew Hlen step flags bq'.
  destruct (New_ticking N C pfx command bq HN Hnew) as (Hinv & Hst & _).
  destruct (ceil_div_spec N 20 ltac:(lia) ltac:(lia)) as [Hc1 Hc2].
  fold step in Hinv, Hc1, Hc2.
  assert (Hmax : N + step <= GoInt.max_int)
    by (rewrite pow53_value in HN; int_range).
  destruct (drain_ticking N step received ltac:(lia) Hmax 0%nat bq
              ltac:(lia) Hinv) as (Hinv' & Hflags & Hstats).
  fold flags in Hflags. fold bq' in Hinv', Hstats.
  assert (Ef : flags = map (at_tick step N) (arrivals (List.length received))).
  { rewrite Hflags. unfold arrivals. rewrite map_map. reflexivity. }
  destruct Hinv' as (_ & _ & HC & HT).
  cbn [Z.of_nat] in HC, HT. rewrite Z.add_0_l, Hlen in HC, HT.
  split; [exact Ef|]. split; [|split; [|split; [|split]]].
  - rewrite Ef. destruct (List.length received) as [|n] eqn:En; [simpl in Hlen; lia|].
    rewrite arrivals_snoc, map_app.
    change (map (at_tick step N) [Z.of_nat (S n)])
      with [at_tick step N (Z.of_nat (S n))].
    rewrite last_last.
    unfold at_tick. rewrite Hlen, Z.eqb_refl. apply orb_true_r.
  - rewrite Ef, fired_count by lia. rewrite Hlen, Z.eqb_refl. cbn [andb].
    pose proof (fired_at_most_ticks N 20 ltac:(lia) ltac:(lia)) as Hle.
    fold step in Hle. split; [|exact Hle].
    pose proof (Z.div_mod N step ltac:(lia)) as E.
    pose proof (Z.mod_pos_bound N step ltac:(lia)) as B.
    assert (0 <= N / step) by (apply Z.div_pos; lia).
    destruct (Z.eqb_spec (N mod step) 0) as [E0|]; cbn [negb]; [|lia].
    assert (N / step <> 0); [|lia].
    intros Hz. rewrite Hz, E0 in E. lia.
  - rewrite Hstats, Hst. reflexivity.
  - exact HC.
  - rewrite HT. 
    pose proof (Z.div_mod N step ltac:(lia)) as E.
    pose proof (Z.mod_pos_bound N step ltac:(lia)) as B.
    assert (N <= (N / step + 1) * step) by lia. lia.
Qed.

(** Witness of X3: seven jobs, all succeeding. *)
Lemma progress_fires_at_ticks_witness :
  exists bq,
    bgqueue.New 7 2 "bgjob" ["true"%string] = Some bq /\
    last (snd (bgqueue.drain bq (repeat (finished_job 0 5) 7))) false = true.
Proof.
  assert (H7 : 1 <= 7 < 2 ^ 53) by (rewrite pow53_value; lia).
  eexists. split; [reflexivity|].
  refine (proj1 (proj2 (progress_fires_at_ticks 7 2 "bgjob" ["true"%string] _
                          (repeat (finished_job 0 5) 7) H7 eq_refl eq_refl))).
Defined.

(** ** Construction, statistics and front end *)

Lemma job_ids_length (n : Z) : 0 <= n -> Z.of_nat (List.length (bgqueue.job_ids n)) = n.
Proof.
  intros Hn. unfold bgqueue.job_ids. rewrite length_map, length_seq. lia.
Qed.

Lemma job_ids_nth (n : Z) (i : nat) :
  (i < Z.to_nat n)%nat -> nth_error (bgqueue.job_ids n) i = Some (Z.of_nat i).
Proof.
  intros Hi. unfold bgqueue.job_ids.
  rewrite nth_error_map, nth_error_seq.
  destruct (Nat.ltb_spec i (Z.to_nat n)); [reflexivity | lia].
Qed.

Lemma New_fields (N C : Z) (pfx : string) (command : list string) :
  (bgqueue.New N C pfx command = None <-> N < 0 \/ C < 0) /\
  (forall bq, bgqueue.New N C pfx command = Some bq ->
     bgqueue.numJobs bq = N /\ bgqueue.numSlots bq = C /\
     bgqueue.prefix bq = pfx /\ bgqueue.Command bq = command /\
     bgqueue.numTicks bq = 20 /\
     bgqueue.Stats bq = bgstats.New N /\
     Z.of_nat (List.length (bgqueue.Jobs bq)) = N /\
     map bgjob.Id (bgqueue.Jobs bq) = bgqueue.job_ids N /\
     (forall i, (i < Z.to_nat N)%nat ->
        nth_error (bgqueue.Jobs bq) i
        = Some (bgjob.New (Z.of_nat i) "bgjob" command)) /\
     Forall (fun bj => bgjob.Command bj = command /\
                       bgjob.ExitStatus bj = 0 /\
                       bgjob.Error bj = None /\ bgjob.CmdError bj = None)
            (bgqueue.Jobs bq)).
Proof.
  unfold bgqueue.New, bgqueue.Init. cbv zeta.
  cbn [bgqueue.numSlots bgqueue.numJobs bgqueue.set_Stats bgqueue.setTicks
       bgqueue.updateNextTick bgqueue.set_ticks bgqueue.Command bgqueue.prefix
       bgqueue.numTicks bgqueue.Stats].
  split.
  - destruct (Z.ltb_spec C 0); destruct (Z.ltb_spec N 0); cbn [orb];
      split; intros H'; try discriminate; try reflexivity; lia.
  - intros bq.
    destruct (Z.ltb_spec C 0); destruct (Z.ltb_spec N 0); cbn [orb];
      try discriminate.
    intros E. injection E as <-.
    cbn [bgqueue.numSlots bgqueue.numJobs bgqueue.Command bgqueue.prefix
         bgqueue.numTicks bgqueue.Stats bgqueue.Jobs].
    repeat split.
    + rewrite length_map. now apply job_ids_length.
    + rewrite map_map. cbn. apply map_id.
    + intros i Hi. rewrite nth_error_map, job_ids_nth by assumption.
      reflexivity.
    + apply Forall_map. apply Forall_forall. intros i _. repeat split.
Qed.



(** X5. On an accumulator that holds no duration sample AggregateRunTime
    is 0, and AverageRunTime, MinimumRunTime, MaximumRunTime, Variance and
    StdDev panic (index out of range, integer division by zero);
    RootMeanSquare does not panic, its division is a float64 one. *)
Theorem queries_without_samples (s : bgstats.BgQueueStats) :
  bgstats.durations s = [] ->
  bgstats.AggregateRunTime s = 0 /\
  bgstats.AverageRunTime s = None /\
  bgstats.MinimumRunTime s = None /\
  bgstats.MaximumRunTime s = None /\
  bgstats.Variance s = None /\
  bgstats.StdDev s = None /\
  (exists d, bgstats.RootMeanSquare s = Some d).
Proof.
  intros H.
  unfold bgstats.AggregateRunTime, bgstats.AverageRunTime,
    bgstats.MinimumRunTime, bgstats.MaximumRunTime, bgstats.StdDev,
    bgstats.Variance, bgstats.RootMeanSquare.
  rewrite H. cbn. repeat split. eexists. reflexivity.
Qed.

Lemma feed_app bqs jobs1 jobs2 :
  bgstats.feed bqs (jobs1 ++ jobs2) = bgstats.feed (bgstats.feed bqs jobs1) jobs2.
Proof. unfold bgstats.feed. apply fold_left_app. Qed.

Lemma Update_untouched bqs bj :
  bgstats.Total (bgstats.Update bqs bj) = bgstats.Total bqs /\
  bgstats.ActiveTime (bgstats.Update bqs bj) = bgstats.ActiveTime bqs /\
  bgstats.started (bgstats.Update bqs bj) = bgstats.started bqs /\
  bgstats.finished (bgstats.Update bqs bj) = bgstats.finished bqs.
Proof.
  unfold bgstats.Update.
  destruct (bgjob.ExitStatus bj =? 0); [repeat split|].
  destruct (bgjob.ExitStatus bj >? 0); repeat split.
Qed.

Lemma feed_untouched bqs jobs :
  bgstats.Total (bgstats.feed bqs jobs) = bgstats.Total bqs /\
  bgstats.ActiveTime (bgstats.feed bqs jobs) = bgstats.ActiveTime bqs /\
  bgstats.started (bgstats.feed bqs jobs) = bgstats.started bqs /\
  bgstats.finished (bgstats.feed bqs jobs) = bgstats.finished bqs /\
  bgstats.durations (bgstats.feed bqs jobs)
    = bgstats.durations bqs ++ map bgjob.Duration jobs.
Proof.
  revert bqs. induction jobs as [|bj jobs IH]; intros bqs.
  - cbn. rewrite app_nil_r. repeat split.
  - cbn [bgstats.feed fold_left]. fold (bgstats.feed (bgstats.Update bqs bj) jobs).
    destruct (IH (bgstats.Update bqs bj)) as (H1 & H2 & H3 & H4 & H5).
    destruct (Update_untouched bqs bj) as (U1 & U2 & U3 & U4).
    rewrite H1, H2, H3, H4, H5, U1, U2, U3, U4,
      StatsCounters.Update_durations.
    repeat split. now rewrite <- app_assoc.
Qed.

Lemma drain_Stats (jobs : list bgjob.BackgroundJob) (bq : bgqueue.BgQueue) :
  bgqueue.Stats (fst (bgqueue.drain bq jobs))
  = bgstats.feed (bgqueue.Stats bq) jobs /\
  bgqueue.QueueStart (fst (bgqueue.drain bq jobs)) = bgqueue.QueueStart bq /\
  bgqueue.Jobs (fst (bgqueue.drain bq jobs)) = bgqueue.Jobs bq /\
  List.length (snd (bgqueue.drain bq jobs)) = List.length jobs.
Proof.
  revert bq. induction jobs as [|bj rest IH]; intros bq.
  - repeat split.
  - rewrite drain_cons. cbn [fst snd List.length].
    destruct (IH (fst (bgqueue.consume bq bj))) as (H1 & H2 & H3 & H4).
    rewrite H1, H2, H3, H4.
    unfold bgqueue.consume.
    destruct (bgstats.Completed
                (bgqueue.Stats
                   (bgqueue.set_Stats bq (bgstats.Update (bgqueue.Stats bq) bj)))
              >=? bgqueue.nextTick
                    (bgqueue.set_Stats bq
                       (bgstats.Update (bgqueue.Stats bq) bj)));
      repeat split.
Qed.

Lemma Sub_exact (t u : Z) :
  GoInt.in_range (t - u) -> time.Sub t u = t - u.
Proof.
  unfold GoInt.in_range, time.Sub. rewrite min_int_value, max_int_value. lia.
Qed.

(** X6. The main goroutine of Run leaves Stats = Finish(feed(Start(Stats,
    start), received), finish): QueueStart is the second clock reading,
    ActiveTime is finish - start (saturated to the range of Duration)
    whatever jobs were received, Total is unchanged and the new samples
    are the durations of the received jobs, in order, after the old
    ones. *)
Theorem Run_measures_the_wall_clock (bq : bgqueue.BgQueue)
    (start queueStart finish : time.Time)
    (received : list bgjob.BackgroundJob) :
  let bq' := fst (bgqueue.Run_main bq start queueStart received finish) in
  bgqueue.Stats bq'
    = bgstats.Finish
        (bgstats.feed (bgstats.Start (bgqueue.Stats bq) start) received)
        finish /\
  bgqueue.QueueStart bq' = queueStart /\
  bgstats.ActiveTime (bgqueue.Stats bq') = time.Sub finish start /\
  (GoInt.in_range (finish - start) ->
   bgstats.ActiveTime (bgqueue.Stats bq') = finish - start) /\
  bgstats.Total (bgqueue.Stats bq') = bgstats.Total (bgqueue.Stats bq) /\
  bgstats.durations (bgqueue.Stats bq')
    = bgstats.durations (bgqueue.Stats bq) ++ map bgjob.Duration received.
Proof.
  cbv zeta. unfold bgqueue.Run_main.
  set (bq0 := {| bgqueue.numJobs := _ |}).
  destruct (drain_Stats received bq0) as (H1 & H2 & _).
  destruct (bgqueue.drain bq0 received) as [bq1 flags]. cbn [fst] in *.
  cbn [bgqueue.set_Stats bgqueue.Stats bgqueue.QueueStart].
  rewrite H1, H2. subst bq0.
  cbn [bgqueue.set_Stats bgqueue.Stats bgqueue.QueueStart].
  destruct (feed_untouched (bgstats.Start (bgqueue.Stats bq) start) received)
    as (F1 & F2 & F3 & F4 & F5).
  split; [reflexivity|]. split; [reflexivity|].
  assert (HA : bgstats.ActiveTime
            (bgstats.Finish
               (bgstats.feed (bgstats.Start (bgqueue.Stats bq) start) received)
               finish) = time.Sub finish start).
  { unfold bgstats.Finish. cbn [bgstats.ActiveTime]. rewrite F3. reflexivity. }
  split; [exact HA|]. split; [intros Hr; rewrite HA; now apply Sub_exact|].
  split.
  - unfold bgstats.Finish. cbn [bgstats.Total]. rewrite F1. reflexivity.
  - unfold bgstats.Finish. cbn [bgstats.durations]. rewrite F5. reflexivity.
Qed.

(** Witness of X5: a fresh accumulator. *)
Lemma queries_without_samples_witness :
  bgstats.durations (bgstats.New 5) = [] /\
  bgstats.AverageRunTime (bgstats.New 5) = None.
Proof.
  split; [reflexivity|].
  exact (proj1 (proj2 (queries_without_samples (bgstats.New 5) eq_refl))).
Defined.

(** Witness of X6: a run from time 100 to time 350. *)
Lemma Run_measures_the_wall_clock_witness :
  GoInt.in_range (350 - 100) /\
  bgstats.ActiveTime
    (bgqueue.Stats
       (fst (bgqueue.Run_main bgqueue.zero 100 101
               [finished_job 0 5; finished_job 1 7] 350))) = 350 - 100.
Proof.
  assert (H : GoInt.in_range (350 - 100)) by (vm_compute; split; discriminate).
  split; [exact H|].
  exact (proj1 (proj2 (proj2 (proj2
           (Run_measures_the_wall_clock bgqueue.zero 100 101 350
              [finished_job 0 5; finished_job 1 7])))) H).
Defined.

(** X7. With at least one job and a sum of durations that fits the
    Duration, AggregateRunTime is that sum, and AverageRunTime * Completed
    differs from AggregateRunTime by the remainder of the truncated
    division, which is smaller in absolute value than Completed. *)
Theorem average_times_completed (n : Z) (jobs : list bgjob.BackgroundJob) :
  jobs <> [] ->
  Z.of_nat (List.length jobs) <= GoInt.max_int ->
  GoInt.in_range (total (map bgjob.Duration jobs)) ->
  let s := bgstats.feed (bgstats.New n) jobs in
  bgstats.AggregateRunTime s = total (map bgjob.Duration jobs) /\
  exists avg,
    bgstats.AverageRunTime s = Some avg /\
    bgstats.AggregateRunTime s
      = avg * bgstats.Completed s
        + Z.rem (bgstats.AggregateRunTime s) (bgstats.Completed s) /\
    Z.abs (bgstats.AggregateRunTime s - avg * bgstats.Completed s)
      < bgstats.Completed s.
Proof.
  intros Hne Hlen Hr s.
  destruct (StatsCounters.feed_counts n jobs Hlen) as (HC & _). fold s in HC.
  assert (Hds : bgstats.durations s = map bgjob.Duration jobs)
    by apply StatsCounters.feed_durations.
  assert (Hne' : map bgjob.Duration jobs <> [])
    by (destruct jobs; [congruence | discriminate]).
  assert (Hpos : 0 < Z.of_nat (List.length jobs))
    by (destruct jobs; [congruence | simpl; lia]).
  unfold bgstats.AggregateRunTime, bgstats.AverageRunTime.
  rewrite Hds, HC, (Samples.sum_exact _ Hr), (Samples.average_exact _ Hne' Hr).
  rewrite length_map.
  split; [reflexivity|].
  eexists. split; [reflexivity|].
  set (t := total (map bgjob.Duration jobs)).
  set (k := Z.of_nat (List.length jobs)) in *.
  pose proof (Z.quot_rem' t k) as E.
  pose proof (Z.rem_bound_abs t k ltac:(lia)) as B.
  split; [lia|].
  replace (t - Z.quot t k * k) with (Z.rem t k) by lia. lia.
Qed.

Lemma running_engine_agrees
    (n : Z) (jobs : list bgjob.BackgroundJob) :
  let r := bgstats_running.feed (bgstats_running.New n) jobs in
  let t := legacy.drain (map bgjob.Duration jobs) in
  bgstats_running.Completed r = legacy.completed t /\
  bgstats_running.AggregateTime r = legacy.totalDuration t /\
  bgstats_running.MinDuration r = legacy.minDuration t /\
  bgstats_running.MaxDuration r = legacy.maxDuration t.
Proof.
  cbv zeta.
  induction jobs as [|bj jobs IH] using rev_ind.
  - repeat split.
  - rewrite RunningCounters.running_feed_snoc, map_app.
    unfold legacy.drain in *. rewrite fold_left_app. cbn [map fold_left].
    destruct IH as (H1 & H2 & H3 & H4).
    set (r := bgstats_running.feed (bgstats_running.New n) jobs) in *.
    set (t := fold_left legacy.account (map bgjob.Duration jobs) legacy.start) in *.
    rewrite RunningCounters.running_Update_Completed, running_Update_MinDuration.
    assert (HA : bgstats_running.AggregateTime (bgstats_running.Update r bj)
                 = GoInt.add (bgstats_running.AggregateTime r) (bgjob.Duration bj)).
    { unfold bgstats_running.Update.
      destruct (bgjob.ExitStatus bj =? 0); [|destruct (bgjob.ExitStatus bj >? 0)];
        cbn;
        destruct ((bgjob.Duration bj <? bgstats_running.MinDuration r)
                  || (bgstats_running.MinDuration r =? 0)); cbn;
        match goal with
        | |- context [if ?c then _ else _] => destruct c; reflexivity
        end. }
    assert (HM : bgstats_running.MaxDuration (bgstats_running.Update r bj)
                 = if bgjob.Duration bj >? bgstats_running.MaxDuration r
                   then bgjob.Duration bj else bgstats_running.MaxDuration r).
    { unfold bgstats_running.Update.
      destruct (bgjob.ExitStatus bj =? 0); [|destruct (bgjob.ExitStatus bj >? 0)];
        cbn;
        destruct ((bgjob.Duration bj <? bgstats_running.MinDuration r)
                  || (bgstats_running.MinDuration r =? 0)); cbn;
        match goal with
        | |- context [if ?c then _ else _] => destruct c; reflexivity
        end. }
    rewrite HA, HM, H1, H2, H3, H4. unfold legacy.account. cbn.
    repeat split.
Qed.

(** X8. The running statistics engine keeps, job by job, the values the
    consumer loop of the oldest front end keeps in its local variables:
    the same count, total, minimum and maximum for every list of jobs. *)
Theorem running_engine_matches_old_loop
    (n : Z) (jobs : list bgjob.BackgroundJob) :
  let r := bgstats_running.feed (bgstats_running.New n) jobs in
  let t := legacy.drain (map bgjob.Duration jobs) in
  bgstats_running.Completed r = legacy.completed t /\
  bgstats_running.AggregateTime r = legacy.totalDuration t /\
  bgstats_running.MinDuration r = legacy.minDuration t /\
  bgstats_running.MaxDuration r = legacy.maxDuration t.
Proof. exact (running_engine_agrees n jobs). Qed.

(** Witness of X7: durations 3, 9 and 4. *)
Lemma average_times_completed_witness :
  bgstats.AggregateRunTime
    (bgstats.feed (bgstats.New 3)
       [finished_job 0 3; finished_job 0 9; finished_job 1 4]) = 16.
Proof.
  refine (proj1 (average_times_completed 3
            [finished_job 0 3; finished_job 0 9; finished_job 1 4] _ _ _)).
  - discriminate.
  - vm_compute. discriminate.
  - vm_compute. split; discriminate.
Defined.

Lemma drain_snoc (ds : list Z) (d : Z) :
  legacy.drain (ds ++ [d]) = legacy.account (legacy.drain ds) d.
Proof. unfold legacy.drain. now rewrite fold_left_app. Qed.

Lemma is_minimum_snoc (m d : Z) (ds : list Z) :
  is_minimum m ds -> is_minimum (if d <? m then d else m) (ds ++ [d]).
Proof.
  intros [Hin Hall]. unfold is_minimum.
  destruct (Z.ltb_spec d m); split.
  - apply in_or_app. right. now left.
  - apply Forall_app. split.
    + eapply Forall_impl; [|exact Hall]. cbn. intros; lia.
    + constructor; [lia | constructor].
  - apply in_or_app. now left.
  - apply Forall_app. split; [exact Hall|]. constructor; [lia | constructor].
Qed.

Lemma is_maximum_snoc (m d : Z) (ds : list Z) :
  is_maximum m ds -> is_maximum (if d >? m then d else m) (ds ++ [d]).
Proof.
  intros [Hin Hall]. unfold is_maximum.
  destruct (Z.gtb_spec d m); split.
  - apply in_or_app. right. now left.
  - apply Forall_app. split.
    + eapply Forall_impl; [|exact Hall]. cbn. intros; lia.
    + constructor; [lia | constructor].
  - apply in_or_app. now left.
  - apply Forall_app. split; [exact Hall|]. constructor; [lia | constructor].
Qed.

Lemma old_loop_maximum (ds : list Z) :
  Forall (fun d => 0 <= d) ds ->
  0 <= legacy.maxDuration (legacy.drain ds) /\
  (ds <> [] -> is_maximum (legacy.maxDuration (legacy.drain ds)) ds).
Proof.
  induction ds as [|d ds IH] using rev_ind; intros Hall.
  - split; [cbn; lia | congruence].
  - apply Forall_app in Hall. destruct Hall as [Hds Hd].
    inversion Hd as [|x l Hd0 _]; subst.
    destruct (IH Hds) as [H0 Hmax].
    rewrite drain_snoc. unfold legacy.account. cbn [legacy.maxDuration].
    split; [destruct (Z.gtb_spec d (legacy.maxDuration (legacy.drain ds))); lia|].
    intros _. destruct ds as [|d0 ds'].
    + cbn. destruct (Z.gtb_spec d 0).
      * split; [now left | constructor; [lia | constructor]].
      * assert (d = 0) by lia. subst.
        split; [now left | constructor; [lia | constructor]].
    + apply is_maximum_snoc. apply Hmax. discriminate.
Qed.

Lemma old_loop_minimum (ds : list Z) :
  Forall (fun d => 0 < d) ds ->
  (ds = [] -> legacy.minDuration (legacy.drain ds) = 0) /\
  (ds <> [] -> 0 < legacy.minDuration (legacy.drain ds) /\
               is_minimum (legacy.minDuration (legacy.drain ds)) ds).
Proof.
  induction ds as [|d ds IH] using rev_ind; intros Hall.
  - split; [reflexivity | congruence].
  - apply Forall_app in Hall. destruct Hall as [Hds Hd].
    inversion Hd as [|x l Hd0 _]; subst.
    destruct (IH Hds) as [Hnil Hmin].
    split; [intros E; destruct ds; discriminate E|].
    intros _. rewrite drain_snoc. unfold legacy.account.
    cbn [legacy.minDuration].
    destruct ds as [|d0 ds'].
    + rewrite (Hnil eq_refl). rewrite Bool.orb_true_r. cbn.
      split; [lia|]. split; [now left | constructor; [lia | constructor]].
    + destruct Hmin as [Hpos Hm]; [discriminate|].
      set (m := legacy.minDuration (legacy.drain (d0 :: ds'))) in *.
      destruct (Z.eqb_spec m 0); [lia|]. rewrite Bool.orb_false_r.
      split; [destruct (Z.ltb_spec d m); lia|].
      now apply is_minimum_snoc.
Qed.

(** X9. In the running engine, after at least one job: MaximumRunTime
    is the greatest duration when no duration is negative, MinimumRunTime
    is the least duration when every duration is positive, and
    AggregateTime is their sum when the sum fits the Duration. *)
Theorem running_extremes (n : Z) (jobs : list bgjob.BackgroundJob) :
  jobs <> [] ->
  let r := bgstats_running.feed (bgstats_running.New n) jobs in
  let ds := map bgjob.Duration jobs in
  (Forall (fun d => 0 <= d) ds ->
   is_maximum (bgstats_running.MaximumRunTime r) ds) /\
  (Forall (fun d => 0 < d) ds ->
   is_minimum (bgstats_running.MinimumRunTime r) ds) /\
  (GoInt.in_range (total ds) -> bgstats_running.AggregateTime r = total ds).
Proof.
  intros Hne r ds.
  destruct (running_engine_agrees n jobs) as (_ & HA & Hmin & Hmax).
  fold r in HA, Hmin, Hmax. fold ds in HA, Hmin, Hmax.
  assert (Hds : ds <> []) by (subst ds; destruct jobs; [congruence | discriminate]).
  unfold bgstats_running.MaximumRunTime, bgstats_running.MinimumRunTime.
  rewrite HA, Hmin, Hmax.
  split; [|split].
  - intros H. now apply old_loop_maximum.
  - intros H. now apply old_loop_minimum.
  - intros Hr. unfold legacy.drain.
    assert (G : forall l t,
               legacy.totalDuration (fold_left legacy.account l t)
               = fold_left GoInt.add l (legacy.totalDuration t)).
    { induction l as [|x l IHl]; intros t; [reflexivity|]. cbn [fold_left].
      rewrite IHl. reflexivity. }
    rewrite G. cbn [legacy.totalDuration legacy.start].
    rewrite Samples.sum_Duration by int_range. now apply wrap_id.
Qed.

(** Witness of X9: durations 3, 9 and 4. *)
Lemma running_extremes_witness :
  is_minimum
    (bgstats_running.MinimumRunTime
       (bgstats_running.feed (bgstats_running.New 3)
          [finished_job 0 3; finished_job 0 9; finished_job 1 4]))
    [3; 9; 4].
Proof.
  refine (proj1 (proj2 (running_extremes 3
            [finished_job 0 3; finished_job 0 9; finished_job 1 4] _)) _).
  - discriminate.
  - repeat constructor.
Defined.

Lemma total_permutation (ds ds' : list Z) :
  Permutation ds ds' -> total ds = total ds'.
Proof.
  unfold total.
  induction 1 as [|x l l' _ IH|x y l|l l' l'' _ IH1 _ IH2]; cbn; lia.
Qed.

Lemma count_status_permutation (p : Z -> bool) jobs jobs' :
  Permutation jobs jobs' -> count_status p jobs = count_status p jobs'.
Proof.
  intros HP. unfold count_status, statuses. f_equal.
  assert (H : Permutation (map bgjob.ExitStatus jobs) (map bgjob.ExitStatus jobs'))
    by now apply Permutation_map.
  induction H as [|x l l' _ IH|x y l|l l' l'' _ IH1 _ IH2]; cbn.
  - reflexivity.
  - destruct (p x); cbn; congruence.
  - destruct (p x); destruct (p y); reflexivity.
  - congruence.
Qed.

Module ArrivalOrder.

Import bgstats.

Lemma min_permutation (ds ds' : list time.Duration) :
  Permutation ds ds' -> bgstats.min ds = bgstats.min ds'.
Proof.
  intros HP. destruct ds as [|d ds].
  - apply Permutation_nil in HP. subst. reflexivity.
  - assert (Hne : d :: ds <> []) by discriminate.
    assert (Hne' : ds' <> []).
    { intros ->. apply Permutation_sym, Permutation_nil in HP. discriminate. }
    destruct (Samples.min_spec _ Hne) as (m & -> & Hlo & Hin).
    destruct (Samples.min_spec _ Hne') as (m' & -> & Hlo' & Hin').
    f_equal.
    assert (m <= m').
    { rewrite Forall_forall in Hlo. apply Hlo.
      eapply Permutation_in; [apply Permutation_sym; exact HP | exact Hin']. }
    assert (m' <= m).
    { rewrite Forall_forall in Hlo'. apply Hlo'.
      eapply Permutation_in; [exact HP | exact Hin]. }
    lia.
Qed.

Lemma max_permutation (ds ds' : list time.Duration) :
  Permutation ds ds' -> bgstats.max ds = bgstats.max ds'.
Proof.
  intros HP. destruct ds as [|d ds].
  - apply Permutation_nil in HP. subst. reflexivity.
  - assert (Hne : d :: ds <> []) by discriminate.
    assert (Hne' : ds' <> []).
    { intros ->. apply Permutation_sym, Permutation_nil in HP. discriminate. }
    destruct (Samples.max_spec _ Hne) as (m & -> & Hlo & Hin).
    destruct (Samples.max_spec _ Hne') as (m' & -> & Hlo' & Hin').
    f_equal.
    assert (m' <= m).
    { rewrite Forall_forall in Hlo. apply Hlo.
      eapply Permutation_in; [apply Permutation_sym; exact HP | exact Hin']. }
    assert (m <= m').
    { rewrite Forall_forall in Hlo'. apply Hlo'.
      eapply Permutation_in; [exact HP | exact Hin]. }
    lia.
Qed.

Lemma sum_permutation (ds ds' : list time.Duration) :
  Permutation ds ds' -> bgstats.sum ds = bgstats.sum ds'.
Proof.
  intros HP. unfold bgstats.sum. cbn.
  rewrite !Samples.sum_Duration by int_range.
  now rewrite (total_permutation _ _ HP).
Qed.

End ArrivalOrder.

(** X10. The engine with samples does not depend on the arrival order:
    feeding a permutation of the same jobs gives the same Completed,
    Succeeded, Failed, Invalid, AggregateRunTime, AverageRunTime,
    MinimumRunTime and MaximumRunTime. *)
Theorem statistics_ignore_arrival_order
    (n : Z) (jobs jobs' : list bgjob.BackgroundJob) :
  Permutation jobs jobs' ->
  Z.of_nat (List.length jobs) <= GoInt.max_int ->
  let s := bgstats.feed (bgstats.New n) jobs in
  let s' := bgstats.feed (bgstats.New n) jobs' in
  bgstats.Completed s = bgstats.Completed s' /\
  bgstats.Succeeded s = bgstats.Succeeded s' /\
  bgstats.Failed s = bgstats.Failed s' /\
  bgstats.Invalid s = bgstats.Invalid s' /\
  bgstats.AggregateRunTime s = bgstats.AggregateRunTime s' /\
  bgstats.AverageRunTime s = bgstats.AverageRunTime s' /\
  bgstats.MinimumRunTime s = bgstats.MinimumRunTime s' /\
  bgstats.MaximumRunTime s = bgstats.MaximumRunTime s'.
Proof.
  intros HP Hlen s s'.
  assert (Hlen' : Z.of_nat (List.length jobs') <= GoInt.max_int)
    by (rewrite <- (Permutation_length HP); exact Hlen).
  destruct (StatsCounters.feed_counts n jobs Hlen) as (C1 & C2 & C3 & C4).
  destruct (StatsCounters.feed_counts n jobs' Hlen') as (C1' & C2' & C3' & C4').
  fold s in C1, C2, C3, C4. fold s' in C1', C2', C3', C4'.
  assert (HD : Permutation (bgstats.durations s) (bgstats.durations s')).
  { unfold s, s'. rewrite !StatsCounters.feed_durations.
    now apply Permutation_map. }
  rewrite C1, C2, C3, C4, C1', C2', C3', C4'.
  rewrite (Permutation_length HP).
  rewrite !(count_status_permutation _ _ _ HP).
  unfold bgstats.AggregateRunTime, bgstats.AverageRunTime,
    bgstats.MinimumRunTime, bgstats.MaximumRunTime, bgstats.average.
  rewrite (ArrivalOrder.sum_permutation _ _ HD),
    (ArrivalOrder.min_permutation _ _ HD),
    (ArrivalOrder.max_permutation _ _ HD), (Permutation_length HD).
  repeat split.
Qed.

(** Witness of X10: two jobs in either order. *)
Lemma statistics_ignore_arrival_order_witness :
  bgstats.MinimumRunTime
    (bgstats.feed (bgstats.New 2) [finished_job 0 3; finished_job 1 9])
  = bgstats.MinimumRunTime
      (bgstats.feed (bgstats.New 2) [finished_job 1 9; finished_job 0 3]).
Proof.
  assert (HP : Permutation [finished_job 0 3; finished_job 1 9]
                           [finished_job 1 9; finished_job 0 3])
    by apply perm_swap.
  assert (HL : Z.of_nat (List.length [finished_job 0 3; finished_job 1 9])
               <= GoInt.max_int) by (vm_compute; discriminate).
  destruct (statistics_ignore_arrival_order 2 _ _ HP HL)
    as (_ & _ & _ & _ & _ & _ & H & _).
  exact H.
Defined.

Lemma div_self (m : positive) (e : Z) :
  Zpos (digits2_pos m) = 53 ->
  F64.div (S754_finite false m e) (S754_finite false m e) = F64.of_int 1.
Proof.
  intros Hd. rewrite div_normal by (try assumption; lia).
  rewrite (Z.mul_comm (Zpos m)), Z.div_mul, Z.mod_mul by lia.
  rewrite (proj2 (new_location_exact (Zpos m) 0) eq_refl).
  replace (e - e - 53) with (-53) by lia.
  vm_compute. reflexivity.
Qed.

Lemma percentage_of_all (m : positive) (e : Z) :
  Zpos (digits2_pos m) = 53 ->
  bgstats.percentage (S754_finite false m e) (S754_finite false m e)
  = F64.of_int 100.
Proof.
  intros Hd. unfold bgstats.percentage. rewrite div_self by assumption.
  vm_compute. reflexivity.
Qed.

Lemma percentage_of_none (m : positive) (e : Z) :
  bgstats.percentage (F64.of_int 0) (S754_finite false m e) = S754_zero false.
Proof. reflexivity. Qed.

(** X11. For 1 <= Total < 2^53: on a fresh accumulator the completion,
    success and failure percentages are 0; once Total jobs are completed
    CompletionPercentage is exactly 100, and when all of them succeeded
    SuccessPercentage is 100 and FailurePercentage is 0. *)
Theorem percentages_at_the_ends (n : Z) (jobs : list bgjob.BackgroundJob) :
  1 <= n < 2 ^ 53 ->
  (bgstats.CompletionPercentage (bgstats.New n) = F64.of_int 0 /\
   bgstats.SuccessPercentage (bgstats.New n) = F64.of_int 0 /\
   bgstats.FailurePercentage (bgstats.New n) = F64.of_int 0) /\
  (Z.of_nat (List.length jobs) = n ->
   bgstats.CompletionPercentage (bgstats.feed (bgstats.New n) jobs)
     = F64.of_int 100 /\
   (Forall (fun bj => bgjob.ExitStatus bj = 0) jobs ->
    bgstats.SuccessPercentage (bgstats.feed (bgstats.New n) jobs)
      = F64.of_int 100 /\
    bgstats.FailurePercentage (bgstats.feed (bgstats.New n) jobs)
      = F64.of_int 0)).
Proof.
  intros Hn.
  destruct (of_int_exact n (Z.log2 n + 1)) as (m & Em & _ & Hd);
    [apply log2_bound53; lia | apply log2_digits; lia |].
  split.
  - unfold bgstats.CompletionPercentage, bgstats.SuccessPercentage,
      bgstats.FailurePercentage.
    cbn [bgstats.New bgstats.Init bgstats.Completed bgstats.Succeeded
         bgstats.Failed bgstats.Total bgstats.zero].
    rewrite Em. repeat split.
  - intros Hlen.
    assert (Hlen' : Z.of_nat (List.length jobs) <= GoInt.max_int)
      by (rewrite pow53_value in Hn; rewrite max_int_value; lia).
    destruct (StatsCounters.feed_counts n jobs Hlen') as (HC & HS & HF & _).
    pose proof (StatsCounters.feed_Total n jobs) as HT.
    unfold bgstats.CompletionPercentage, bgstats.SuccessPercentage,
      bgstats.FailurePercentage.
    rewrite HC, HS, HF, HT, Hlen, Em.
    split; [now apply percentage_of_all|].
    intros Hall.
    assert (Hs : count_status (fun z => z =? 0) jobs = n
                 /\ count_status (fun z => z >? 0) jobs = 0).
    { rewrite <- Hlen. clear - Hall.
      induction jobs as [|bj jobs IH] using rev_ind; [split; reflexivity|].
      apply Forall_app in Hall. destruct Hall as [Hj Hb].
      inversion Hb as [|x l Hx _]; subst.
      destruct (IH Hj) as [I1 I2].
      rewrite !count_status_snoc, I1, I2, Hx, length_app. cbn. split; lia. }
    destruct Hs as [-> ->]. rewrite Em.
    split; [now apply percentage_of_all | reflexivity].
Qed.

(** Witness of X11: three jobs of three. *)
Lemma percentages_at_the_ends_witness :
  bgstats.CompletionPercentage
    (bgstats.feed (bgstats.New 3)
       [finished_job 0 3; finished_job 0 9; finished_job 1 4])
  = F64.of_int 100.
Proof.
  assert (H3 : 1 <= 3 < 2 ^ 53) by (rewrite pow53_value; lia).
  exact (proj1 (proj2 (percentages_at_the_ends 3
           [finished_job 0 3; finished_job 0 9; finished_job 1 4] H3)
         eq_refl)).
Defined.

Lemma parse_zeros (k : nat) (s : string) :
  NilEmpty.uint_of_string (fmt.zeros k ++ s)
  = option_map (Nat.iter k D0) (NilEmpty.uint_of_string s).
Proof.
  induction k as [|k IH]; cbn [fmt.zeros String.append Nat.iter].
  - destruct (NilEmpty.uint_of_string s); reflexivity.
  - cbn [NilEmpty.uint_of_string]. rewrite IH.
    destruct (NilEmpty.uint_of_string s); reflexivity.
Qed.

Lemma of_uint_leading_zeros (k : nat) (d : uint) :
  N.of_uint (Nat.iter k D0 d) = N.of_uint d.
Proof. induction k as [|k IH]; [reflexivity|]. exact IH. Qed.

Lemma parse_digits (m : N) :
  NilEmpty.uint_of_string (fmt.digits m) = Some (N.to_uint m).
Proof.
  unfold fmt.digits, NilZero.string_of_uint.
  destruct (N.to_uint m) eqn:E; try apply NilEmpty.usu.
  exfalso. destruct m as [|p]; [discriminate E|].
  exact (DecimalPos.Unsigned.to_uint_nonnil p E).
Qed.

(** The decimal number can be read back from the padded text. *)
Lemma pad06d_decodes (n : Z) :
  0 <= n ->
  option_map N.of_uint (NilEmpty.uint_of_string (fmt.pad06d n))
  = Some (Z.to_N n).
Proof.
  intros Hn. unfold fmt.pad06d.
  destruct (Z.ltb_spec n 0); [lia|].
  rewrite parse_zeros, parse_digits. cbn [option_map].
  rewrite of_uint_leading_zeros, DecimalN.Unsigned.of_to.
  f_equal. destruct n; try reflexivity; lia.
Qed.

Lemma append_inv_head (p s s' : string) :
  (p ++ s)%string = (p ++ s')%string -> s = s'.
Proof.
  induction p as [|a p IH]; cbn; intros H; [exact H|].
  injection H as H. now apply IH.
Qed.

(** X12. Under one prefix, jobs built by bgjob.New with different
    non-negative ids have different names. *)
Theorem job_names_identify_ids (i j : Z) (pfx : string)
    (command command' : list string) :
  0 <= i -> 0 <= j ->
  bgjob.Name (bgjob.New i pfx command) = bgjob.Name (bgjob.New j pfx command') ->
  i = j.
Proof.
  intros Hi Hj. rewrite !New_Name. intros H.
  apply append_inv_head in H. injection H as H.
  pose proof (pad06d_decodes i Hi) as Di.
  pose proof (pad06d_decodes j Hj) as Dj.
  rewrite H, Dj in Di. injection Di as Di. lia.
Qed.

Lemma pad06d_width (n : Z) : (6 <= String.length (fmt.pad06d n))%nat.
Proof.
  unfold fmt.pad06d.
  assert (L : forall k s, String.length (fmt.zeros k ++ s)
                          = (k + String.length s)%nat).
  { induction k as [|k IH]; intros s; cbn; [reflexivity|]. now rewrite IH. }
  destruct (n <? 0); cbn [String.length]; rewrite L; lia.
Qed.

(** X13. The jobs of a queue built by New have pairwise distinct names,
    each "bgjob_" followed by the id padded with zeros to at least six
    digits (so at least 12 characters). *)
Theorem queue_names_are_distinct (N C : Z) (pfx : string)
    (command : list string) (bq : bgqueue.BgQueue) :
  bgqueue.New N C pfx command = Some bq ->
  NoDup (map bgjob.Name (bgqueue.Jobs bq)) /\
  Forall (fun bj =>
            bgjob.Name bj = ("bgjob_" ++ fmt.pad06d (bgjob.Id bj))%string /\
            (12 <= String.length (bgjob.Name bj))%nat)
         (bgqueue.Jobs bq).
Proof.
  intros Hnew.
  destruct (New_fields N C pfx command) as [_ Hb].
  destruct (Hb bq Hnew) as (_ & _ & _ & _ & _ & _ & _ & Hids & _).
  destruct (queue_job_names N C pfx command bq Hnew) as [_ Hnames].
  split.
  - rewrite Hnames. unfold bgqueue.job_ids. rewrite map_map.
    apply NoDup_nth_error. intros a b Ha Hab.
    rewrite length_map, length_seq in Ha.
    rewrite !nth_error_map, !nth_error_seq in Hab.
    destruct (Nat.ltb_spec a (Z.to_nat N)); [|lia].
    destruct (Nat.ltb_spec b (Z.to_nat N)); [|discriminate Hab].
    injection Hab as Hab.
    pose proof (pad06d_decodes (Z.of_nat a) ltac:(lia)) as Da.
    pose proof (pad06d_decodes (Z.of_nat b) ltac:(lia)) as Db.
    rewrite Hab, Db in Da. injection Da as Da. lia.
  - unfold bgqueue.New, bgqueue.Init in Hnew. cbv zeta in Hnew.
    destruct (_ || _) in Hnew; [discriminate|]. injection Hnew as <-.
    cbn [bgqueue.Jobs]. apply Forall_map. apply Forall_forall. intros x _.
    rewrite New_Name, New_Id. split; [reflexivity|].
    pose proof (pad06d_width x). cbn [String.append String.length]. lia.
Qed.

(** Witness of X12: the id 7 read off two equal names. *)
Lemma job_names_identify_ids_witness :
  bgjob.Name (bgjob.New 7 "bgjob" []) = bgjob.Name (bgjob.New 7 "bgjob" []) /\
  7 = 7.
Proof.
  split; [reflexivity|].
  apply (job_names_identify_ids 7 7 "bgjob" [] []); [lia | lia | reflexivity].
Defined.

(** Witness of X13: three jobs. *)
Lemma queue_names_are_distinct_witness :
  exists bq,
    bgqueue.New 3 2 "xy" ["true"%string] = Some bq /\
    NoDup (map bgjob.Name (bgqueue.Jobs bq)).
Proof.
  eexists. split; [reflexivity|].
  exact (proj1 (queue_names_are_distinct 3 2 "xy" ["true"%string] _ eq_refl)).
Defined.




(** X15. Run writes ExitStatus and CmdError only when cmd.Run() returns
    an error.  Running a job a second time, successfully, leaves Error
    nil, refreshes Stdout, Stderr and Duration, and keeps the exit status
    and launch cause of the first run: after a first run that exited with
    a code, the status still is that code. *)
Theorem Run_keeps_the_status_of_an_earlier_failure
    (bj : bgjob.BackgroundJob) (now1 now2 : time.Time)
    (o1 o2 : exec.Outcome) :
  bgjob.Command bj <> [] ->
  exec.run_error o2 = None ->
  exists bj1 bj2,
    bgjob.Run bj now1 o1 = Some (bj1, exec.run_error o1) /\
    bgjob.Run bj1 now2 o2 = Some (bj2, None) /\
    bgjob.Error bj2 = None /\
    bgjob.ExitStatus bj2 = bgjob.ExitStatus bj1 /\
    bgjob.CmdError bj2 = bgjob.CmdError bj1 /\
    bgjob.Stdout bj2 = exec.out_buffer o2 /\
    bgjob.Stderr bj2 = exec.err_buffer o2 /\
    bgjob.Duration bj2 = time.Sub now2 (bgjob.Started bj) /\
    (forall code, exec.run_error o1 = Some (exec.ExitError code) ->
                  bgjob.ExitStatus bj2 = code).
Proof.
  intros Hne H2. unfold bgjob.Run.
  destruct (bgjob.Command bj) as [|c cs] eqn:Ec; [congruence|].
  eexists. eexists. split; [reflexivity|].
  cbn [bgjob.Command bgjob.MarkFinished]. rewrite Ec.
  cbn. rewrite H2. cbn.
  split; [reflexivity|]. repeat split.
  intros code E. rewrite E. reflexivity.
Qed.


(** Witness of X15: a run that exits with status 7, then one that
    succeeds. *)
Lemma Run_keeps_the_status_of_an_earlier_failure_witness :
  exists bj1 bj2,
    bgjob.Run (bgjob.New 0 "bgjob" ["false"%string]) 5 (exited_with 7)
      = Some (bj1, exec.run_error (exited_with 7)) /\
    bgjob.Run bj1 9 exited_zero = Some (bj2, None) /\
    bgjob.ExitStatus bj2 = 7.
Proof.
  destruct (Run_keeps_the_status_of_an_earlier_failure
              (bgjob.New 0 "bgjob" ["false"%string]) 5 9
              (exited_with 7) exited_zero ltac:(discriminate) eq_refl)
    as (bj1 & bj2 & H1 & H2 & _ & _ & _ & _ & _ & _ & H9).
  exists bj1, bj2. split; [exact H1|]. split; [exact H2|].
  apply H9. reflexivity.
Defined.

(** ** The goroutines of [Run] *)

Module SchedFacts.

Import sched.

Lemma length_replace_at {A} (l : list A) i x :
  List.length (replace_at l i x) = List.length l.
Proof.
  revert i. induction l as [|a l IH]; intros [|i]; cbn; auto.
Qed.

Lemma nth_replace_at_eq {A} (l : list A) i x :
  (i < List.length l)%nat -> nth_error (replace_at l i x) i = Some x.
Proof.
  revert i. induction l as [|a l IH]; intros [|i] H; cbn in *; try lia; auto.
  apply IH. lia.
Qed.

Lemma nth_replace_at_ne {A} (l : list A) i j x :
  i <> j -> nth_error (replace_at l i x) j = nth_error l j.
Proof.
  revert i j. induction l as [|a l IH]; intros [|i] [|j] H; cbn; auto; try lia.
Qed.

Lemma nth_replace_at {A} (l : list A) i j x y :
  nth_error (replace_at l i x) j = Some y ->
  (i = j /\ y = x /\ (i < List.length l)%nat) \/ (i <> j /\ nth_error l j = Some y).
Proof.
  intros H. destruct (Nat.eq_dec i j) as [->|Hne].
  - left. assert (j < List.length l)%nat.
    { rewrite <- (length_replace_at l j x).
      apply nth_error_Some. congruence. }
    rewrite nth_replace_at_eq in H by assumption. injection H as <-. auto.
  - right. rewrite nth_replace_at_ne in H by assumption. auto.
Qed.

Lemma count_replace_at (p : job_pc -> bool) (l : list job_pc) i a b :
  nth_error l i = Some a ->
  (count p (replace_at l i b) + b2n (p a) = count p l + b2n (p b))%nat.
Proof.
  unfold count. revert i. induction l as [|c l IH]; intros [|i] H; cbn in *;
    try discriminate.
  - injection H as ->. destruct (p a), (p b); cbn; lia.
  - specialize (IH i H). destruct (p c); cbn; lia.
Qed.

Lemma count_repeat (p : job_pc -> bool) pc n :
  count p (repeat pc n) = (n * b2n (p pc))%nat.
Proof.
  unfold count. induction n as [|n IH]; cbn; [reflexivity|].
  destruct (p pc) eqn:E; cbn in *; lia.
Qed.

Lemma count_positive (p : job_pc -> bool) (l : list job_pc) :
  (0 < count p l)%nat -> exists i pc, nth_error l i = Some pc /\ p pc = true.
Proof.
  unfold count. induction l as [|a l IH]; cbn; [lia|].
  destruct (p a) eqn:E.
  - intros _. exists 0%nat, a. auto.
  - intros H. destruct (IH H) as (i & pc & Hi & Hp). exists (S i), pc. auto.
Qed.

Lemma count_le (p q : job_pc -> bool) (l : list job_pc) :
  (forall pc, p pc = true -> q pc = true) -> (count p l <= count q l)%nat.
Proof.
  intros H. unfold count. induction l as [|a l IH]; cbn; [lia|].
  destruct (p a) eqn:E; [rewrite (H a E); cbn; lia|].
  destruct (q a); cbn; lia.
Qed.

Lemma consume_fields bq bj :
  bgqueue.Jobs (fst (bgqueue.consume bq bj)) = bgqueue.Jobs bq /\
  bgqueue.numJobs (fst (bgqueue.consume bq bj)) = bgqueue.numJobs bq /\
  bgqueue.numSlots (fst (bgqueue.consume bq bj)) = bgqueue.numSlots bq /\
  bgqueue.Stats (fst (bgqueue.consume bq bj))
    = bgstats.Update (bgqueue.Stats bq) bj.
Proof.
  unfold bgqueue.consume.
  destruct (_ >=? _); repeat split.
Qed.

Lemma shape_init bq : 0 <= bgqueue.numSlots bq -> shape bq (init bq).
Proof.
  intros H.
  constructor;
    cbn [init queue main closer pcs slots results closed group consumed ticks
         frontier];
    rewrite ?count_repeat, ?repeat_length, ?Nat.mul_0_r;
    try reflexivity; try (cbn; lia).
  intros j pc Hj. apply nth_error_In, repeat_spec in Hj. subst. split; [lia | reflexivity].
Qed.

Ltac job_counts H :=
  pose proof (count_replace_at holding _ _ _ Ready H);
  pose proof (count_replace_at holding _ _ _ Waiting H);
  pose proof (count_replace_at holding _ _ _ Started H);
  pose proof (count_replace_at holding _ _ _ Finished H);
  pose proof (count_replace_at holding _ _ _ Published H);
  pose proof (count_replace_at holding _ _ _ Released H);
  pose proof (count_replace_at holding _ _ _ Exited H);
  pose proof (count_replace_at alive _ _ _ Ready H);
  pose proof (count_replace_at alive _ _ _ Waiting H);
  pose proof (count_replace_at alive _ _ _ Started H);
  pose proof (count_replace_at alive _ _ _ Finished H);
  pose proof (count_replace_at alive _ _ _ Published H);
  pose proof (count_replace_at alive _ _ _ Released H);
  pose proof (count_replace_at alive _ _ _ Exited H).

Ltac state_fields :=
  cbn [queue main closer pcs slots results closed group consumed ticks
       move store_job set_Jobs set_QueueStart frontier
       bgqueue.set_Stats bgqueue.Jobs bgqueue.numJobs bgqueue.numSlots
       bgqueue.Stats] in *.

Lemma frontier_moved (l : list job_pc) (f i : nat) (old new : job_pc) :
  (forall j pc, nth_error l j = Some pc -> (pc = Unspawned <-> (f <= j)%nat)) ->
  nth_error l i = Some old -> old <> Unspawned -> new <> Unspawned ->
  forall j pc, nth_error (replace_at l i new) j = Some pc ->
               (pc = Unspawned <-> (f <= j)%nat).
Proof.
  intros Hf Hi Ho Hn j pc Hj.
  destruct (nth_replace_at _ _ _ _ _ Hj) as [(-> & -> & _) | (Hne & Hj')].
  - pose proof (Hf j old Hi) as [_ H]. split; [congruence | tauto].
  - now apply Hf.
Qed.

Lemma shape_step bq s s' : shape bq s -> step s s' -> shape bq s'.
Proof.
  intros [H1 H2 H3 H4 H5 H6 H7 H8 H9 H10] Hs.
  destruct Hs.
  - (* enter *)
    constructor; state_fields; rewrite ?H; try assumption; try lia.
    rewrite H in H10. exact H10.
  - (* spawn *)
    assert (Hi : nth_error (pcs s) i = Some Unspawned).
    { destruct (nth_error (pcs s) i) as [pc|] eqn:E.
      - f_equal. apply (H10 i pc E). rewrite H. cbn. lia.
      - apply nth_error_None in E. lia. }
    job_counts Hi.
    constructor; state_fields; rewrite ?length_replace_at;
      cbn [b2n holding alive] in *; try assumption; try lia.
    intros j pc Hj. rewrite H in H10. cbn [frontier] in H10.
    destruct (nth_replace_at _ _ _ _ _ Hj) as [(-> & -> & _) | (Hne & Hj')].
    + split; [discriminate | lia].
    + rewrite (H10 j pc Hj'). lia.
  - (* spawn the closer *)
    constructor; state_fields; try assumption; try lia.
    rewrite H in H10. cbn [frontier] in H10. subst i. rewrite H2 in H10.
    exact H10.
  - (* ready *)
    job_counts H.
    constructor; state_fields; rewrite ?length_replace_at;
      cbn [b2n holding alive] in *; try assumption; try lia.
    apply (frontier_moved _ _ _ Ready); auto; discriminate.
  - (* acquire *)
    job_counts H.
    constructor; state_fields; rewrite ?length_replace_at;
      cbn [b2n holding alive] in *; try assumption; try lia.
    apply (frontier_moved _ _ _ Waiting); auto; discriminate.
  - (* run *)
    job_counts H.
    constructor; state_fields; rewrite ?length_replace_at;
      cbn [b2n holding alive] in *; try assumption; try lia.
    apply (frontier_moved _ _ _ Started); auto; discriminate.
  - (* publish *)
    job_counts H.
    constructor; state_fields; rewrite ?length_replace_at;
      cbn [b2n holding alive] in *; try assumption; try lia.
    apply (frontier_moved _ _ _ Finished); auto; discriminate.
  - (* release *)
    job_counts H.
    constructor; state_fields; rewrite ?length_replace_at;
      cbn [b2n holding alive] in *; try assumption; try lia.
    apply (frontier_moved _ _ _ Published); auto; discriminate.
  - (* done *)
    job_counts H.
    constructor; state_fields; rewrite ?length_replace_at;
      cbn [b2n holding alive] in *; try assumption; try lia.
    apply (frontier_moved _ _ _ Released); auto; discriminate.
  - (* join *)
    constructor; state_fields; try assumption; try lia.
  - (* close *)
    constructor; state_fields; try assumption; try lia.
  - (* receive *)
    destruct (consume_fields (queue s) bj) as (E1 & E2 & E3 & _).
    constructor; state_fields; rewrite ?E1, ?E2, ?E3, ?length_app;
      cbn [List.length]; try assumption; try lia.
  - (* leave *)
    constructor; state_fields; try assumption; try lia.
    rewrite H in H10. exact H10.
  - (* finish *)
    constructor; state_fields; try assumption; try lia.
    rewrite H in H10. exact H10.
Qed.

Lemma shape_reachable bq s :
  0 <= bgqueue.numSlots bq -> reachable bq s -> shape bq s.
Proof.
  intros H0 Hr. induction Hr as [|s s' _ IH Hs].
  - now apply shape_init.
  - exact (shape_step bq s s' IH Hs).
Qed.

End SchedFacts.

Module SchedProtocol.

Import sched SchedFacts.

Lemma count_zero (p : job_pc -> bool) (l : list job_pc) :
  count p l = 0%nat ->
  forall j pc, nth_error l j = Some pc -> p pc = false.
Proof.
  intros H j pc Hj. destruct (p pc) eqn:E; [|reflexivity].
  pose proof (count_replace_at p l j pc pc Hj) as _.
  exfalso. revert j Hj H. unfold count.
  induction l as [|a l IH]; intros [|j] Hj H; cbn in *; try discriminate.
  - injection Hj as ->. rewrite E in H. discriminate.
  - destruct (p a); [discriminate|]. eauto.
Qed.

Lemma protocol_init bq : protocol (init bq).
Proof.
  constructor; cbn [init queue main closer pcs slots results closed group
                    consumed ticks List.app].
  - split; [left; reflexivity | reflexivity].
  - intros [H|H]; discriminate H.
  - split; discriminate.
  - constructor.
  - intros j. split; [intros []|].
    intros (pc & Hj & Hp). apply nth_error_In, repeat_spec in Hj. subst.
    discriminate Hp.
  - intros [H|H]; discriminate H.
Qed.

Lemma handed_moved (l : list job_pc) (L : list nat) (i : nat)
    (old new : job_pc) :
  (forall j, In j L <-> exists pc, nth_error l j = Some pc /\ handed pc = true) ->
  nth_error l i = Some old -> handed new = handed old ->
  forall j, In j L <->
            exists pc, nth_error (replace_at l i new) j = Some pc
                       /\ handed pc = true.
Proof.
  intros HL Hi Hh j. rewrite (HL j).
  assert (Hlt : (i < List.length l)%nat)
    by (apply nth_error_Some; congruence).
  destruct (Nat.eq_dec i j) as [->|Hne].
  - rewrite nth_replace_at_eq by assumption. split.
    + intros (pc & Hj & Hp). rewrite Hi in Hj. injection Hj as <-.
      exists new. split; [reflexivity | congruence].
    + intros (pc & Hj & Hp). injection Hj as <-.
      exists old. split; [assumption | congruence].
  - rewrite nth_replace_at_ne by assumption. reflexivity.
Qed.

Lemma joined_moved (l : list job_pc) (i : nat) (old : job_pc) (P : Prop) :
  (P -> forall j pc, nth_error l j = Some pc -> pc = Exited) ->
  nth_error l i = Some old -> old <> Exited ->
  forall new, P -> forall j pc,
    nth_error (replace_at l i new) j = Some pc -> pc = Exited.
Proof.
  intros H Hi Ho new HP. exfalso. apply Ho. exact (H HP i old Hi).
Qed.

Ltac same_pcs H :=
  constructor; state_fields; try assumption; try (rewrite H in *; assumption).

Lemma protocol_step bq s s' :
  shape bq s -> protocol s -> step s s' -> protocol s'.
Proof.
  intros Hsh [P1 P2 P3 P4 P5 P6] Hs.
  destruct Hs.
  - (* enter *)
    constructor; state_fields; try assumption.
    + rewrite P1, H. split; intros _; [right; exists 0%nat; reflexivity | left; reflexivity].
    + intros [E|E]; discriminate E.
  - (* spawn *)
    assert (Hi : nth_error (pcs s) i = Some Unspawned).
    { destruct (nth_error (pcs s) i) as [pc|] eqn:E.
      - f_equal. apply (sh_frontier _ _ Hsh i pc E). rewrite H. cbn. lia.
      - apply nth_error_None in E. rewrite (sh_pcs _ _ Hsh), <- (sh_jobs _ _ Hsh) in E. lia. }
    assert (Ha : closer s = Absent) by (apply P1; right; eauto).
    constructor; state_fields; try assumption.
    + rewrite Ha. split; intros _; [right; eauto | reflexivity].
    + rewrite Ha. intros [E|E]; discriminate E.
    + apply (handed_moved _ _ _ Unspawned); auto.
    + intros [E|E]; discriminate E.
  - (* spawn the closer *)
    constructor; state_fields; try assumption.
    + split; [discriminate|]. intros [E|[k E]]; discriminate E.
    + intros [E|E]; discriminate E.
    + rewrite P3. assert (Ha : closer s = Absent) by (apply P1; right; eauto).
      rewrite Ha. split; discriminate.
    + intros [E|E]; discriminate E.
  - (* ready *)
    constructor; state_fields; try assumption.
    + intros Hc. apply (joined_moved _ _ Ready _ P2 H); [discriminate | exact Hc].
    + apply (handed_moved _ _ _ Ready); auto.
  - (* acquire *)
    constructor; state_fields; try assumption.
    + intros Hc. apply (joined_moved _ _ Waiting _ P2 H); [discriminate | exact Hc].
    + apply (handed_moved _ _ _ Waiting); auto.
  - (* run *)
    constructor; state_fields; try assumption.
    + intros Hc. apply (joined_moved _ _ Started _ P2 H); [discriminate | exact Hc].
    + apply (handed_moved _ _ _ Started); auto.
  - (* publish *)
    assert (Hnew : ~ In i (consumed s ++ results s)).
    { intros Hin. apply P5 in Hin. destruct Hin as (pc & Hj & Hp).
      rewrite H in Hj. injection Hj as <-. discriminate Hp. }
    assert (Hlt : (i < List.length (pcs s))%nat)
      by (apply nth_error_Some; congruence).
    constructor; state_fields; try assumption.
    + intros Hc. apply (joined_moved _ _ Finished _ P2 H); [discriminate | exact Hc].
    + rewrite app_assoc. apply NoDup_app; [exact P4 | repeat constructor; intros [] |].
      intros a Ha [<-|[]]. exact (Hnew Ha).
    + intros j. rewrite app_assoc, in_app_iff. cbn [In].
      destruct (Nat.eq_dec i j) as [->|Hne].
      * rewrite nth_replace_at_eq by assumption. split.
        -- intros _. exists Published. auto.
        -- intros _. right. now left.
      * rewrite nth_replace_at_ne by assumption. rewrite <- (P5 j). 
        split; [intros [Hin|[E|[]]]; [exact Hin | contradiction] | now left].
    + intros Hm. destruct (P6 Hm) as [_ Hc]. congruence.
  - (* release *)
    constructor; state_fields; try assumption.
    + intros Hc. apply (joined_moved _ _ Published _ P2 H); [discriminate | exact Hc].
    + apply (handed_moved _ _ _ Published); auto.
  - (* done *)
    constructor; state_fields; try assumption.
    + intros Hc j pc Hj.
      destruct (nth_replace_at _ _ _ _ _ Hj) as [(_ & -> & _) | (_ & Hj')];
        [reflexivity | exact (P2 Hc j pc Hj')].
    + apply (handed_moved _ _ _ Released); auto.
  - (* join *)
    assert (Hm : ~ starting (main s)).
    { intros Hst. apply P1 in Hst. congruence. }
    constructor; state_fields; try assumption.
    + split; [discriminate|]. intros Hst. contradiction.
    + intros _ j pc Hj.
      pose proof (sh_group _ _ Hsh) as Hg. rewrite H0 in Hg.
      pose proof (count_zero alive _ (eq_sym Hg) j pc Hj) as Hal.
      destruct pc; try discriminate Hal; [|reflexivity].
      exfalso. pose proof (proj1 (sh_frontier _ _ Hsh j Unspawned Hj) eq_refl) as Hf.
      assert (Hjn : (j < List.length (pcs s))%nat)
        by (apply nth_error_Some; congruence).
      rewrite (sh_pcs _ _ Hsh) in Hjn.
      destruct (main s) eqn:Em; cbn [frontier] in Hf; try lia.
      * apply Hm. now left.
      * apply Hm. right. eauto.
    + rewrite P3, H. split; discriminate.
  - (* close *)
    assert (Hm : ~ starting (main s)).
    { intros Hst. apply P1 in Hst. congruence. }
    constructor; state_fields; try assumption.
    + split; [discriminate|]. intros Hst. contradiction.
    + intros _. apply P2. now left.
    + split; reflexivity.
    + intros Hme. destruct (P6 Hme) as [Hr _]. auto.
  - (* receive *)
    constructor; state_fields; try assumption.
    + rewrite <- app_assoc. cbn [List.app]. rewrite <- H0. exact P4.
    + intros j. rewrite <- app_assoc. cbn [List.app]. rewrite <- H0. apply P5.
    + rewrite H. intros [E|E]; discriminate E.
  - (* leave *)
    constructor; state_fields; try assumption.
    + rewrite P1, H. split; [intros [E|[k E]]; discriminate E
                            | intros [E|[k E]]; discriminate E].
    + auto.
  - (* finish *)
    constructor; state_fields; try assumption.
    + rewrite P1, H. split; [intros [E|[k E]]; discriminate E
                            | intros [E|[k E]]; discriminate E].
    + intros _. apply P6. now left.
Qed.

End SchedProtocol.

Module SchedStats.

Import sched SchedFacts SchedProtocol.

Lemma same_counts_refl a : same_counts a a.
Proof. repeat split. Qed.

Lemma same_counts_Update a b bj :
  same_counts a b -> same_counts (bgstats.Update a bj) (bgstats.Update b bj).
Proof.
  intros (H1 & H2 & H3 & H4 & H5 & H6). unfold same_counts.
  rewrite !StatsCounters.Update_durations, !StatsCounters.Update_Total,
    !StatsCounters.Update_Completed, !StatsCounters.Update_Succeeded,
    !StatsCounters.Update_Failed, !StatsCounters.Update_Invalid.
  rewrite H1, H2, H3, H4, H5, H6. repeat split.
Qed.

Lemma same_counts_clock a b t :
  same_counts a b ->
  same_counts (bgstats.Start a t) b /\ same_counts (bgstats.Finish a t) b.
Proof. intros H. split; exact H. Qed.

Lemma nth_replace_at_other {A} (l : list A) i k x d :
  i <> k -> nth k (replace_at l i x) d = nth k l d.
Proof.
  revert i k. induction l as [|a l IH]; intros [|i] [|k] H; cbn; auto; try lia.
Qed.

Lemma received_store (jobs : list bgjob.BackgroundJob) (L : list nat) i bj :
  ~ In i L ->
  map (fun k => nth k (replace_at jobs i bj) bgjob.zero) L
  = map (fun k => nth k jobs bgjob.zero) L.
Proof.
  intros H. apply map_ext_in. intros k Hk.
  apply nth_replace_at_other. intros ->. contradiction.
Qed.

Lemma feed_snoc_any bqs jobs bj :
  bgstats.feed bqs (jobs ++ [bj]) = bgstats.Update (bgstats.feed bqs jobs) bj.
Proof. unfold bgstats.feed. now rewrite fold_left_app. Qed.

Lemma accounting_init bq : accounting bq (init bq).
Proof.
  constructor.
  - apply same_counts_refl.
  - intros i a b Ha Hb. unfold job_at in Hb. cbn in Hb.
    rewrite Ha in Hb. injection Hb as <-. repeat split.
Qed.

Lemma not_handed_not_consumed s i pc :
  protocol s -> nth_error (pcs s) i = Some pc -> handed pc = false ->
  ~ In i (consumed s).
Proof.
  intros P Hi Hh Hin.
  assert (Hin' : In i (consumed s ++ results s)) by (apply in_or_app; now left).
  apply (pr_handed _ P) in Hin'. destruct Hin' as (pc' & Hj & Hp).
  rewrite Hi in Hj. injection Hj as <-. congruence.
Qed.

Lemma jobs_stored bq s i bj bj' :
  (forall k a b, nth_error (bgqueue.Jobs bq) k = Some a ->
                 job_at s k = Some b -> same_job a b) ->
  job_at s i = Some bj -> same_job bj bj' ->
  forall k a b, nth_error (bgqueue.Jobs bq) k = Some a ->
    nth_error (replace_at (bgqueue.Jobs (queue s)) i bj') k = Some b ->
    same_job a b.
Proof.
  intros H Hi (S1 & S2 & S3) k a b Ha Hb.
  destruct (nth_replace_at _ _ _ _ _ Hb) as [(-> & -> & _) | (_ & Hb')].
  - destruct (H k a bj Ha Hi) as (T1 & T2 & T3).
    repeat split; congruence.
  - exact (H k a b Ha Hb').
Qed.

Lemma Run_same_job bj now o bj' err :
  bgjob.Run bj now o = Some (bj', err) -> same_job bj bj'.
Proof.
  unfold bgjob.Run. destruct (bgjob.Command bj); [discriminate|].
  intros H. injection H as <- _. repeat split.
Qed.

Lemma accounting_step bq s s' :
  protocol s -> accounting bq s -> step s s' -> accounting bq s'.
Proof.
  intros P [A1 A2] Hs.
  destruct Hs.
  - constructor; [exact A1 | exact A2].
  - constructor; [exact A1 | exact A2].
  - constructor; [exact A1 | exact A2].
  - (* ready *)
    constructor; unfold received, job_at in *; state_fields.
    + rewrite received_store; [exact A1|].
      now apply (not_handed_not_consumed s i Ready).
    + apply (jobs_stored bq s i bj); auto. repeat split.
  - (* acquire *)
    constructor; unfold received, job_at in *; state_fields.
    + rewrite received_store; [exact A1|].
      now apply (not_handed_not_consumed s i Waiting).
    + apply (jobs_stored bq s i bj); auto. repeat split.
  - (* run *)
    constructor; unfold received, job_at in *; state_fields.
    + rewrite received_store; [exact A1|].
      now apply (not_handed_not_consumed s i Started).
    + apply (jobs_stored bq s i bj); auto. eapply Run_same_job; eauto.
  - constructor; [exact A1 | exact A2].
  - constructor; [exact A1 | exact A2].
  - constructor; [exact A1 | exact A2].
  - constructor; [exact A1 | exact A2].
  - constructor; [exact A1 | exact A2].
  - (* receive *)
    destruct (consume_fields (queue s) bj) as (E1 & _ & _ & E4).
    constructor; unfold received, job_at in *; state_fields.
    + rewrite E1, E4, map_app. cbn [map].
      rewrite feed_snoc_any.
      assert (Hn : nth i (bgqueue.Jobs (queue s)) bgjob.zero = bj)
        by (apply nth_error_nth; assumption).
      rewrite Hn. now apply same_counts_Update.
    + rewrite E1. exact A2.
  - constructor; [exact A1 | exact A2].
  - constructor; [exact A1 | exact A2].
Qed.

End SchedStats.

Lemma sched_invariants (bq : bgqueue.BgQueue) (s : sched.State) :
  0 <= bgqueue.numSlots bq -> sched.reachable bq s ->
  sched.shape bq s /\ sched.protocol s /\
  sched.accounting bq s.
Proof.
  intros H0 Hr. induction Hr as [|s s' _ (I1 & I2 & I3) Hs].
  - split; [now apply SchedFacts.shape_init|].
    split; [apply SchedProtocol.protocol_init | apply SchedStats.accounting_init].
  - split; [exact (SchedFacts.shape_step bq s s' I1 Hs)|].
    split; [exact (SchedProtocol.protocol_step bq s s' I1 I2 Hs)|].
    exact (SchedStats.accounting_step bq s s' I2 I3 Hs).
Qed.

(** X16. At every point of every run of Run on a queue with C slots, the
    number of tokens in the slot channel is the number of jobs between
    MarkStarted and the deferred release; the jobs whose command is
    running are among them, so never more than C commands run at once. *)
Theorem admission_pool_bounds_running_jobs
    (bq : bgqueue.BgQueue) (s : sched.State) :
  0 <= bgqueue.numSlots bq -> sched.sized bq -> sched.reachable bq s ->
  sched.slots s = sched.count sched.holding (sched.pcs s) /\
  (sched.count sched.executing (sched.pcs s) <= sched.slots s)%nat /\
  Z.of_nat (sched.slots s) <= bgqueue.numSlots bq /\
  Z.of_nat (sched.count sched.executing (sched.pcs s)) <= bgqueue.numSlots bq.
Proof.
  intros H0 _ Hr. destruct (sched_invariants bq s H0 Hr) as (Sh & _).
  pose proof (sched.sh_slots _ _ Sh) as E.
  pose proof (sched.sh_cap _ _ Sh) as C.
  assert (L : (sched.count sched.executing (sched.pcs s)
               <= sched.count sched.holding (sched.pcs s))%nat).
  { apply SchedFacts.count_le. intros [] H; try discriminate H; reflexivity. }
  repeat split; try assumption; lia.
Qed.

Lemma all_exited_at_the_end (bq : bgqueue.BgQueue) (s : sched.State) :
  0 <= bgqueue.numSlots bq -> sched.reachable bq s ->
  sched.main s = sched.Leaving \/ sched.main s = sched.Returned ->
  sched.results s = [] /\ sched.closed s = true /\
  (forall j pc, nth_error (sched.pcs s) j = Some pc -> pc = sched.Exited).
Proof.
  intros H0 Hr Hm. destruct (sched_invariants bq s H0 Hr) as (_ & P & _).
  destruct (sched.pr_end _ P Hm) as [Hres Hcl].
  split; [exact Hres|]. split; [exact Hcl|].
  apply (sched.pr_joined _ P). right.
  now apply (sched.pr_closed _ P).
Qed.

Lemma returned_state (bq : bgqueue.BgQueue) (s : sched.State) :
  0 <= bgqueue.numSlots bq -> sched.reachable bq s ->
  sched.main s = sched.Returned ->
  Permutation (sched.consumed s) (seq 0 (List.length (bgqueue.Jobs bq))) /\
  List.length (sched.received s) = List.length (bgqueue.Jobs bq) /\
  sched.same_counts (bgqueue.Stats (sched.queue s))
              (bgstats.feed (bgqueue.Stats bq) (sched.received s)) /\
  (forall i a, nth_error (bgqueue.Jobs bq) i = Some a ->
     exists b, sched.job_at s i = Some b /\ sched.same_job a b /\ In b (sched.received s)) /\
  sched.slots s = 0%nat /\ sched.group s = 0%nat /\
  sched.results s = [] /\ sched.closed s = true /\
  List.length (sched.ticks s) = List.length (bgqueue.Jobs bq).
Proof.
  intros H0 Hr Hm.
  destruct (sched_invariants bq s H0 Hr) as (Sh & P & A).
  destruct (all_exited_at_the_end bq s H0 Hr (or_intror Hm))
    as (Hres & Hcl & Hex).
  assert (Hperm : Permutation (sched.consumed s)
                    (seq 0 (List.length (bgqueue.Jobs bq)))).
  { pose proof (sched.pr_nodup _ P) as Hnd.
    pose proof (sched.pr_handed _ P) as Hh.
    rewrite Hres, app_nil_r in Hnd, Hh.
    apply NoDup_Permutation; [exact Hnd | apply seq_NoDup|].
    intros x. rewrite Hh, in_seq. split.
    - intros (pc & Hx & _).
      assert (x < List.length (sched.pcs s))%nat
        by (apply nth_error_Some; congruence).
      rewrite (sched.sh_pcs _ _ Sh) in H. lia.
    - intros [_ Hx]. cbn in Hx.
      rewrite <- (sched.sh_pcs _ _ Sh) in Hx.
      destruct (nth_error (sched.pcs s) x) as [pc|] eqn:E;
        [|apply nth_error_None in E; lia].
      exists pc. split; [reflexivity|]. now rewrite (Hex x pc E). }
  assert (Hlen : List.length (sched.consumed s)
                 = List.length (bgqueue.Jobs bq))
    by (rewrite (Permutation_length Hperm); apply length_seq).
  assert (Hzero : forall p, (forall pc, p pc = true -> pc <> sched.Exited) ->
                            sched.count p (sched.pcs s) = 0%nat).
  { intros p Hp.
    destruct (sched.count p (sched.pcs s)) eqn:E; [reflexivity|].
    destruct (SchedFacts.count_positive p (sched.pcs s) ltac:(lia))
      as (i & pc & Hi & Hpc).
    exfalso. exact (Hp pc Hpc (Hex i pc Hi)). }
  split; [exact Hperm|].
  split; [unfold sched.received; now rewrite length_map|].
  split; [exact (sched.ac_stats _ _ A)|].
  split.
  { intros i a Hi.
    assert (Hlt : (i < List.length (bgqueue.Jobs (sched.queue s)))%nat).
    { rewrite (sched.sh_jobs _ _ Sh). apply nth_error_Some. congruence. }
    destruct (nth_error (bgqueue.Jobs (sched.queue s)) i) as [b|] eqn:E;
      [|apply nth_error_None in E; lia].
    exists b. split; [exact E|]. split; [exact (sched.ac_jobs _ _ A i a b Hi E)|].
    unfold sched.received. apply in_map_iff. exists i. split.
    - now apply nth_error_nth.
    - apply (Permutation_in _ (Permutation_sym Hperm)). apply in_seq.
      rewrite <- (sched.sh_jobs _ _ Sh). lia. }
  split.
  { rewrite (sched.sh_slots _ _ Sh). apply Hzero.
    intros [] H; try discriminate H; discriminate. }
  split.
  { rewrite (sched.sh_group _ _ Sh). apply Hzero.
    intros [] H; try discriminate H; discriminate. }
  split; [exact Hres|]. split; [exact Hcl|].
  rewrite (sched.sh_ticks _ _ Sh). exact Hlen.
Qed.

Module SchedProgress.

Import sched SchedFacts SchedProtocol SchedStats.

Lemma reachable_in_reachable bq k s : reachable_in bq k s -> reachable bq s.
Proof.
  induction 1; [apply reach_init | eapply reach_step; eauto].
Qed.

Lemma reachable_reachable_in bq s : reachable bq s -> exists k, reachable_in bq k s.
Proof.
  induction 1 as [|s s' _ [k IH] Hs].
  - exists 0%nat. constructor.
  - exists (S k). econstructor; eauto.
Qed.

Lemma list_sum_cons (x : nat) (l : list nat) :
  list_sum (x :: l) = (x + list_sum l)%nat.
Proof. reflexivity. Qed.

Lemma sum_replace_at (l : list job_pc) i a b :
  nth_error l i = Some a ->
  (list_sum (map job_left (replace_at l i b)) + job_left a
   = list_sum (map job_left l) + job_left b)%nat.
Proof.
  revert i. induction l as [|c l IH]; intros [|i] H;
    cbn [nth_error replace_at map] in *; try discriminate;
    rewrite !list_sum_cons.
  - injection H as ->. lia.
  - specialize (IH i H). lia.
Qed.

Lemma sum_repeat pc n :
  list_sum (map job_left (repeat pc n)) = (n * job_left pc)%nat.
Proof.
  induction n as [|n IH]; [reflexivity|].
  cbn [repeat map Nat.mul]. rewrite list_sum_cons, IH. reflexivity.
Qed.

Lemma consumed_below (l : list nat) (n : nat) :
  NoDup l -> (forall x, In x l -> (x < n)%nat) -> (List.length l <= n)%nat.
Proof.
  intros Hnd Hlt. rewrite <- (length_seq n 0%nat).
  apply NoDup_incl_length; [exact Hnd|].
  intros x Hx. apply in_seq. specialize (Hlt x Hx). lia.
Qed.

Ltac job_step_left H :=
  pose proof (sum_replace_at _ _ _ Waiting H);
  pose proof (sum_replace_at _ _ _ Started H);
  pose proof (sum_replace_at _ _ _ Finished H);
  pose proof (sum_replace_at _ _ _ Published H);
  pose proof (sum_replace_at _ _ _ Released H);
  pose proof (sum_replace_at _ _ _ Exited H);
  rewrite ?length_replace_at; cbn [job_left] in *; lia.

Lemma step_counts_down bq s s' :
  shape bq s -> protocol s -> step s s' ->
  S (steps_left s') = steps_left s.
Proof.
  intros Sh P Hs. unfold steps_left.
  destruct Hs; state_fields.
  - (* enter *)
    rewrite H. cbn [main_left]. lia.
  - (* spawn *)
    assert (Hi : nth_error (pcs s) i = Some Unspawned).
    { destruct (nth_error (pcs s) i) as [pc|] eqn:E.
      - f_equal. apply (sh_frontier _ _ Sh i pc E). rewrite H. cbn. lia.
      - apply nth_error_None in E.
        rewrite (sh_pcs _ _ Sh), <- (sh_jobs _ _ Sh) in E. lia. }
    pose proof (sum_replace_at _ _ _ Ready Hi).
    rewrite length_replace_at, H.
    rewrite (sh_pcs _ _ Sh), <- (sh_jobs _ _ Sh).
    cbn [job_left main_left] in *. lia.
  - (* spawn the closer *)
    assert (Ha : closer s = Absent) by (apply (pr_absent _ P); right; eauto).
    rewrite Ha, H. subst i. rewrite (sh_pcs _ _ Sh), <- (sh_jobs _ _ Sh).
    cbn [closer_left main_left]. lia.
  - job_step_left H.
  - job_step_left H.
  - job_step_left H.
  - job_step_left H.
  - job_step_left H.
  - job_step_left H.
  - (* join *)
    rewrite H. cbn [closer_left]. lia.
  - (* close *)
    rewrite H. cbn [closer_left]. lia.
  - (* receive *)
    rewrite length_app. cbn [List.length].
    assert (Hlt : (List.length (consumed s ++ results s)
                   <= List.length (pcs s))%nat).
    { apply consumed_below; [exact (pr_nodup _ P)|].
      intros x Hx. apply (pr_handed _ P) in Hx. destruct Hx as (pc & Hx & _).
      apply nth_error_Some. congruence. }
    rewrite H0, length_app in Hlt. cbn [List.length] in Hlt. lia.
  - (* leave *)
    rewrite H. cbn [main_left]. lia.
  - (* finish *)
    rewrite H. cbn [main_left]. lia.
Qed.

Lemma steps_left_init bq :
  steps_left (init bq) = (8 * List.length (bgqueue.Jobs bq) + 6)%nat.
Proof.
  unfold steps_left. cbn [init pcs closer main consumed List.length].
  rewrite sum_repeat, repeat_length. cbn [job_left closer_left main_left]. lia.
Qed.

End SchedProgress.

Module SchedLiveness.

Import sched SchedFacts SchedProtocol SchedStats SchedProgress.

Lemma job_exists bq s i pc :
  shape bq s -> nth_error (pcs s) i = Some pc ->
  exists bj, job_at s i = Some bj.
Proof.
  intros Sh Hi. unfold job_at.
  assert (Hlt : (i < List.length (bgqueue.Jobs (queue s)))%nat).
  { rewrite (sh_jobs _ _ Sh), <- (sh_pcs _ _ Sh).
    apply nth_error_Some. congruence. }
  destruct (nth_error (bgqueue.Jobs (queue s)) i) as [bj|] eqn:E;
    [eauto | apply nth_error_None in E; lia].
Qed.

Lemma job_runs bq s i bj :
  well_formed bq -> shape bq s -> accounting bq s ->
  job_at s i = Some bj ->
  exists bj' err, bgjob.Run bj 0 exited_zero = Some (bj', err).
Proof.
  intros [_ Hc] Sh A Hi.
  assert (Hlt : (i < List.length (bgqueue.Jobs bq))%nat).
  { rewrite <- (sh_jobs _ _ Sh). apply nth_error_Some. unfold job_at in Hi.
    congruence. }
  destruct (nth_error (bgqueue.Jobs bq) i) as [a|] eqn:E;
    [|apply nth_error_None in E; lia].
  destruct (ac_jobs _ _ A i a bj E Hi) as (_ & _ & Hcmd).
  rewrite Forall_forall in Hc. pose proof (Hc a (nth_error_In _ _ E)) as Hne.
  unfold bgjob.Run. rewrite <- Hcmd.
  destruct (bgjob.Command a); [congruence|]. eauto.
Qed.

(** A goroutine of a job that holds a token can always move on. *)
Lemma holder_moves bq s i pc :
  well_formed bq -> shape bq s -> protocol s -> accounting bq s ->
  results s = [] -> closed s = false ->
  nth_error (pcs s) i = Some pc -> holding pc = true ->
  exists s', step s s'.
Proof.
  intros W Sh P A Hres Hcl Hi Hh.
  destruct (job_exists bq s i pc Sh Hi) as [bj Hbj].
  destruct pc; try discriminate Hh.
  - destruct (job_runs bq s i bj W Sh A Hbj) as (bj' & err & HR).
    eexists. eapply step_run; eauto.
  - eexists. apply (step_publish s i); auto.
    pose proof (proj1 W) as Hsz. unfold sized in Hsz.
    rewrite Hres, (sh_numJobs _ _ Sh), <- Hsz. cbn.
    assert (i < List.length (pcs s))%nat by (apply nth_error_Some; congruence).
    rewrite (sh_pcs _ _ Sh) in H. lia.
  - pose proof (count_replace_at holding _ _ _ Published Hi) as Hc.
    cbn [b2n holding] in Hc.
    destruct (slots s) as [|k] eqn:Ek.
    + pose proof (sh_slots _ _ Sh) as E. rewrite Ek in E.
      pose proof (count_zero holding _ (eq_sym E) i Published Hi) as F.
      discriminate F.
    + eexists. eapply step_release; eauto.
Qed.

Lemma some_step (bq : bgqueue.BgQueue) (s : State) :
  1 <= bgqueue.numSlots bq -> well_formed bq ->
  reachable bq s -> main s <> Returned ->
  exists s', step s s'.
Proof.
  intros HC W Hr Hm.
  destruct (sched_invariants bq s ltac:(lia) Hr) as (Sh & P & A).
  destruct (main s) eqn:Em; try congruence.
  - eexists. apply (step_enter s 0 0). exact Em.
  - pose proof (sh_bound _ _ Sh) as Hb. rewrite Em in Hb. cbn in Hb.
    destruct (Nat.eq_dec i (List.length (bgqueue.Jobs (queue s)))) as [E|E].
    + eexists. eapply step_spawn_closer; eauto.
    + eexists. eapply step_spawn; eauto.
      rewrite (sh_jobs _ _ Sh) in *. lia.
  - (* the consumer loop *)
    destruct (results s) as [|i rest] eqn:Eres.
    2:{ assert (Hin : In i (consumed s ++ results s))
          by (rewrite Eres; apply in_or_app; right; now left).
        apply (pr_handed _ P) in Hin. destruct Hin as (pc & Hi & _).
        destruct (job_exists bq s i pc Sh Hi) as [bj Hbj].
        eexists. eapply step_receive; eauto. }
    destruct (closed s) eqn:Ecl.
    { eexists. apply step_leave; auto. }
    destruct (closer s) eqn:Ec.
    + exfalso. apply (pr_absent _ P) in Ec. destruct Ec as [E|[k E]]; congruence.
    + destruct (group s) as [|g] eqn:Eg.
      { eexists. apply step_join; auto. }
      (* some goroutine of a job is alive *)
      pose proof (sh_group _ _ Sh) as Hg. rewrite Eg in Hg.
      destruct (count_positive alive (pcs s) ltac:(lia)) as (i & pc & Hi & Hal).
      destruct (job_exists bq s i pc Sh Hi) as [bj Hbj].
      destruct pc; try discriminate Hal.
      * eexists. eapply (step_ready s i bj 0); eauto.
      * destruct (Z_lt_le_dec (Z.of_nat (slots s)) (bgqueue.numSlots (queue s)))
          as [Hfree|Hfull].
        -- eexists. eapply (step_acquire s i bj 0); eauto.
        -- (* every token is taken: a holder moves *)
           rewrite (sh_numSlots _ _ Sh) in Hfull.
           pose proof (sh_slots _ _ Sh) as Hs.
           destruct (count_positive holding (pcs s) ltac:(lia))
             as (k & pck & Hk & Hhk).
           eapply holder_moves; eauto.
      * eapply (holder_moves bq s i Started); eauto.
      * eapply (holder_moves bq s i Finished); eauto.
      * eapply (holder_moves bq s i Published); eauto.
      * eexists. eapply step_done; eauto.
    + eexists. apply step_close; auto.
    + apply (pr_closed _ P) in Ec. congruence.
  - eexists. apply (step_finish s 0). exact Em.
Qed.

Lemma steps_accounted (bq : bgqueue.BgQueue) (k : nat) (s : State) :
  0 <= bgqueue.numSlots bq -> reachable_in bq k s ->
  (k + steps_left s = 8 * List.length (bgqueue.Jobs bq) + 6)%nat.
Proof.
  intros H0 Hr. induction Hr as [|k s s' Hr IH Hs].
  - rewrite steps_left_init. reflexivity.
  - destruct (sched_invariants bq s H0 (reachable_in_reachable _ _ _ Hr))
      as (Sh & P & _).
    pose proof (step_counts_down bq s s' Sh P Hs). lia.
Qed.

Lemma steps_left_at_return (bq : bgqueue.BgQueue) (s : State) :
  0 <= bgqueue.numSlots bq -> reachable bq s ->
  (main s = Returned <-> steps_left s = 0%nat).
Proof.
  intros H0 Hr'. split.
  - intros Hm.
    destruct (returned_state bq s H0 Hr' Hm)
      as (Hperm & _ & _ & _ & _ & _ & _ & _ & _).
    destruct (all_exited_at_the_end bq s H0 Hr' (or_intror Hm))
      as (_ & Hcl & Hex).
    destruct (sched_invariants bq s H0 Hr') as (Sh & P & _).
    unfold steps_left. rewrite Hm.
    assert (Hgone : closer s = Gone) by now apply (pr_closed _ P).
    rewrite Hgone. cbn [closer_left main_left].
    rewrite (Permutation_length Hperm), length_seq, (sh_pcs _ _ Sh).
    assert (Hsum : list_sum (map job_left (pcs s)) = 0%nat).
    { clear - Hex. induction (pcs s) as [|pc l IH]; [reflexivity|].
      cbn [map]. rewrite list_sum_cons.
      rewrite (Hex 0%nat pc eq_refl). cbn [job_left].
      apply IH. intros j pc' Hj. exact (Hex (S j) pc' Hj). }
    rewrite Hsum. lia.
  - unfold steps_left. intros Hz.
    destruct (main s); cbn [main_left] in Hz; try lia. reflexivity.
Qed.

(** From every state of a run the run can be continued until [Run]
    returns. *)
Lemma finishes (bq : bgqueue.BgQueue) :
  1 <= bgqueue.numSlots bq -> well_formed bq ->
  forall n s, (steps_left s <= n)%nat -> reachable bq s ->
  exists s', steps s s' /\ main s' = Returned.
Proof.
  intros HC W. induction n as [|n IH]; intros s Hn Hr.
  - exists s. split; [apply steps_refl|].
    apply (steps_left_at_return bq s ltac:(lia) Hr). lia.
  - assert (Hd : main s = Returned \/ main s <> Returned)
      by (destruct (main s); (now left) || (right; discriminate)).
    destruct Hd as [Hm|Hm]; [exists s; split; [apply steps_refl | exact Hm]|].
    destruct (some_step bq s HC W Hr Hm) as [s1 Hs].
    destruct (sched_invariants bq s ltac:(lia) Hr) as (Sh & P & _).
    pose proof (step_counts_down bq s s1 Sh P Hs) as Hd.
    destruct (IH s1 ltac:(lia) (reach_step bq s s1 Hr Hs)) as (s2 & H2 & Hm2).
    exists s2. split; [exact (steps_step s s1 s2 Hs H2) | exact Hm2].
Qed.

Lemma zero_slots_stall (bq : bgqueue.BgQueue) (s : State) :
  bgqueue.numSlots bq = 0 -> bgqueue.Jobs bq <> [] ->
  reachable bq s ->
  (forall j pc, nth_error (pcs s) j = Some pc ->
     pc = Unspawned \/ pc = Ready \/ pc = Waiting) /\
  consumed s = [] /\ results s = [] /\
  main s <> Leaving /\ main s <> Returned.
Proof.
  intros HC Hne Hr.
  assert (Hpcs : forall j pc, nth_error (pcs s) j = Some pc ->
                   pc = Unspawned \/ pc = Ready \/ pc = Waiting).
  { induction Hr as [|s s' Hr IH Hs].
    - intros j pc Hj. cbn in Hj. apply nth_error_In, repeat_spec in Hj. auto.
    - destruct (sched_invariants bq s ltac:(lia) Hr) as (Sh & _ & _).
      destruct Hs; state_fields; try exact IH;
        try (intros j pc Hj;
             destruct (nth_replace_at _ _ _ _ _ Hj) as [(_ & -> & _) | (_ & Hj')];
             [auto | exact (IH j pc Hj')]);
        try (exfalso;
             match goal with
             | H : nth_error (pcs s) ?i = Some ?p |- _ =>
                 destruct (IH i p H) as [E|[E|E]]; discriminate E
             end).
      exfalso. rewrite (sh_numSlots _ _ Sh), HC in H1. lia. }
  destruct (sched_invariants bq s ltac:(lia) Hr) as (Sh & P & _).
  assert (Hnone : consumed s ++ results s = []).
  { destruct (consumed s ++ results s) as [|x l] eqn:E; [reflexivity|].
    assert (Hin : In x (consumed s ++ results s)) by (rewrite E; now left).
    apply (pr_handed _ P) in Hin. destruct Hin as (pc & Hx & Hh).
    destruct (Hpcs x pc Hx) as [->|[->| ->]]; discriminate Hh. }
  apply app_eq_nil in Hnone. destruct Hnone as [Hc Hres].
  split; [exact Hpcs|]. split; [exact Hc|]. split; [exact Hres|].
  assert (Hend : ~ (main s = Leaving \/ main s = Returned)).
  { intros Hm.
    destruct (all_exited_at_the_end bq s ltac:(lia) Hr Hm) as (_ & _ & Hex).
    destruct (bgqueue.Jobs bq) as [|a l] eqn:Ej; [congruence|].
    pose proof (sh_pcs _ _ Sh) as Hl. rewrite Ej in Hl. cbn in Hl.
    destruct (pcs s) as [|pc l']; [discriminate Hl|].
    pose proof (Hex 0%nat pc eq_refl) as E1.
    destruct (Hpcs 0%nat pc eq_refl) as [E|[E|E]]; congruence. }
  split; intros E; apply Hend; auto.
Qed.

End SchedLiveness.

Module SchedRefine.

Import sched SchedFacts SchedProtocol SchedStats.

Lemma set_Jobs_same bq : set_Jobs bq (bgqueue.Jobs bq) = bq.
Proof. destruct bq; reflexivity. Qed.

Lemma consume_set_Jobs q J bj :
  bgqueue.consume (set_Jobs q J) bj
  = (set_Jobs (fst (bgqueue.consume q bj)) J, snd (bgqueue.consume q bj)).
Proof.
  unfold bgqueue.consume.
  cbn [set_Jobs bgqueue.set_Stats bgqueue.Stats bgqueue.nextTick].
  destruct (_ >=? _); reflexivity.
Qed.

Lemma drain_app_one bq l bj :
  bgqueue.drain bq (l ++ [bj])
  = (fst (bgqueue.consume (fst (bgqueue.drain bq l)) bj),
     snd (bgqueue.drain bq l)
       ++ [snd (bgqueue.consume (fst (bgqueue.drain bq l)) bj)]).
Proof.
  revert bq. induction l as [|a l IH]; intros bq.
  - cbn [List.app]. rewrite drain_cons. reflexivity.
  - cbn [List.app]. rewrite !drain_cons, IH. reflexivity.
Qed.

Lemma Run_main_drain bq t1 t2 l t3 :
  bgqueue.Run_main bq t1 t2 l t3
  = (bgqueue.set_Stats (fst (bgqueue.drain (entered bq t1 t2) l))
       (bgstats.Finish
          (bgqueue.Stats (fst (bgqueue.drain (entered bq t1 t2) l))) t3),
     snd (bgqueue.drain (entered bq t1 t2) l)).
Proof.
  unfold bgqueue.Run_main, entered.
  cbn [set_QueueStart bgqueue.set_Stats bgqueue.numJobs bgqueue.numSlots
       bgqueue.prefix bgqueue.numTicks bgqueue.nextTick bgqueue.tickStep
       bgqueue.Command bgqueue.Jobs bgqueue.QueueStart bgqueue.Stats].
  destruct (bgqueue.drain _ l) as [q fl]. reflexivity.
Qed.

Lemma entered_set_Jobs q J t1 t2 :
  set_Jobs (set_QueueStart
              (bgqueue.set_Stats q (bgstats.Start (bgqueue.Stats q) t1)) t2) J
  = entered (set_Jobs q J) t1 t2.
Proof. reflexivity. Qed.

Lemma sequential_init bq : sequential bq (init bq).
Proof.
  unfold sequential. cbn [init main queue consumed ticks].
  rewrite set_Jobs_same. auto.
Qed.

(** A goroutine that has not sent its result overwrites its job object:
    the received jobs are untouched. *)
Lemma received_moved s i pc q bj tokens counter pc' :
  protocol s -> nth_error (pcs s) i = Some pc -> handed pc = false ->
  q = store_job (queue s) i bj ->
  received (move s i pc' q tokens counter) = received s.
Proof.
  intros P Hi Hh ->. unfold received. state_fields.
  apply received_store. exact (not_handed_not_consumed s i pc P Hi Hh).
Qed.

Lemma sequential_stored bq s i pc pc' bj tokens counter :
  protocol s -> nth_error (pcs s) i = Some pc -> handed pc = false ->
  sequential bq s ->
  sequential bq (move s i pc' (store_job (queue s) i bj) tokens counter).
Proof.
  intros P Hi Hh H. unfold sequential in *.
  rewrite (received_moved s i pc _ bj tokens counter pc' P Hi Hh eq_refl).
  cbn [move queue main consumed ticks] in *.
  exact H.
Qed.

Lemma sequential_kept bq s s' :
  set_Jobs (queue s') (bgqueue.Jobs bq) = set_Jobs (queue s) (bgqueue.Jobs bq) ->
  received s' = received s -> ticks s' = ticks s -> consumed s' = consumed s ->
  main s' = main s \/
  (main s <> Entering /\ main s <> Returned /\
   main s' <> Entering /\ main s' <> Returned) ->
  sequential bq s -> sequential bq s'.
Proof.
  intros Hq Hr Ht Hc Hm H. unfold sequential in *. cbv zeta in *.
  rewrite Hq, Hr, Ht, Hc.
  destruct Hm as [->|(M1 & M2 & M3 & M4)]; [exact H|].
  destruct (main s); try congruence; destruct (main s'); try congruence;
    exact H.
Qed.

Lemma sequential_step bq s s' :
  protocol s -> sequential bq s -> step s s' -> sequential bq s'.
Proof.
  intros P H Hs.
  destruct Hs.
  - (* enter *)
    unfold sequential in *. cbv zeta in *. rewrite H0 in H.
    destruct H as (Hq & Hc & Ht).
    unfold received. cbn [main queue ticks consumed]. rewrite Hc, Ht.
    cbn [map]. exists now1, now2. cbn [bgqueue.drain]. f_equal.
    rewrite entered_set_Jobs, Hq. reflexivity.
  - (* spawn *)
    apply (sequential_kept bq s); try reflexivity; [|exact H].
    right. state_fields. rewrite H0. repeat split; discriminate.
  - (* spawn the closer *)
    apply (sequential_kept bq s); try reflexivity; [|exact H].
    right. state_fields. rewrite H0. repeat split; discriminate.
  - exact (sequential_stored bq s i Ready _ _ _ _ P H0 eq_refl H).
  - exact (sequential_stored bq s i Waiting _ _ _ _ P H0 eq_refl H).
  - exact (sequential_stored bq s i Started _ _ _ _ P H0 eq_refl H).
  - apply (sequential_kept bq s); try reflexivity; [|exact H]. now left.
  - apply (sequential_kept bq s); try reflexivity; [|exact H]. now left.
  - apply (sequential_kept bq s); try reflexivity; [|exact H]. now left.
  - apply (sequential_kept bq s); try reflexivity; [|exact H]. now left.
  - apply (sequential_kept bq s); try reflexivity; [|exact H]. now left.
  - (* receive *)
    destruct (consume_fields (queue s) bj) as (E1 & _).
    unfold sequential in *. cbv zeta in *. state_fields. rewrite H0 in *.
    destruct H as (t1 & t2 & H). exists t1, t2.
    assert (Hrec : received
               {| queue := fst (bgqueue.consume (queue s) bj);
                  main := Draining; closer := closer s; pcs := pcs s;
                  slots := slots s; results := rest; closed := closed s;
                  group := group s; consumed := consumed s ++ [i];
                  ticks := ticks s
                           ++ [snd (bgqueue.consume (queue s) bj)] |}
               = received s ++ [bj]).
    { unfold received. state_fields. rewrite E1, map_app. cbn [map].
      f_equal. f_equal. apply nth_error_nth. exact H2. }
    rewrite Hrec, drain_app_one, <- H. cbn [fst snd].
    rewrite consume_set_Jobs. reflexivity.
  - (* leave *)
    apply (sequential_kept bq s); try reflexivity; [|exact H].
    right. state_fields. rewrite H0. repeat split; discriminate.
  - (* finish *)
    unfold sequential in *. cbv zeta in *. rewrite H0 in H.
    destruct H as (t1 & t2 & H). state_fields.
    exists t1, t2, now. rewrite Run_main_drain.
    change (received _) with (received s). rewrite <- H. reflexivity.
Qed.

Lemma stage_same_class pc pc' a b :
  stage pc a b ->
  (pc = Unspawned /\ pc' = Ready) \/
  (handed pc' = true /\ (pc = Finished \/ handed pc = true)) ->
  stage pc' a b.
Proof.
  intros H [[-> ->]|[H1 H2]]; [exact H|].
  destruct pc'; try discriminate H1;
    destruct H2 as [->|H2]; try exact H;
    destruct pc; try discriminate H2; exact H.
Qed.

Lemma lifecycle_init bq : lifecycle bq (init bq).
Proof.
  intros i pc a b Hp Ha Hb. unfold job_at in Hb. cbn [init queue pcs] in *.
  apply nth_error_In, repeat_spec in Hp. subst pc. cbn. congruence.
Qed.

Lemma lifecycle_pcs bq s s' i pc pc' :
  queue s' = queue s -> pcs s' = replace_at (pcs s) i pc' ->
  nth_error (pcs s) i = Some pc ->
  (pc = Unspawned /\ pc' = Ready) \/
  (handed pc' = true /\ (pc = Finished \/ handed pc = true)) ->
  lifecycle bq s -> lifecycle bq s'.
Proof.
  intros Hq Hp Hi Hc H j pcj a b Hj Ha Hb.
  unfold job_at in *. rewrite Hq in Hb. rewrite Hp in Hj.
  destruct (nth_replace_at _ _ _ _ _ Hj) as [(-> & -> & _) | (Hne & Hj')].
  - apply (stage_same_class pc); [|exact Hc]. exact (H j pc a b Hi Ha Hb).
  - exact (H j pcj a b Hj' Ha Hb).
Qed.

Lemma lifecycle_stored bq s i pc pc' bj bj' tokens counter :
  nth_error (pcs s) i = Some pc -> job_at s i = Some bj ->
  (forall a, stage pc a bj -> stage pc' a bj') ->
  lifecycle bq s ->
  lifecycle bq (move s i pc' (store_job (queue s) i bj') tokens counter).
Proof.
  intros Hi Hbj Hst H j pcj a b Hj Ha Hb.
  unfold job_at in *. state_fields.
  destruct (nth_replace_at _ _ _ _ _ Hj) as [(-> & -> & _) | (Hne & Hj')].
  - assert (Hlt : (j < List.length (bgqueue.Jobs (queue s)))%nat)
      by (apply nth_error_Some; congruence).
    rewrite nth_replace_at_eq in Hb by assumption. injection Hb as <-.
    apply Hst. exact (H j pc a bj Hi Ha Hbj).
  - rewrite nth_replace_at_ne in Hb by assumption.
    exact (H j pcj a b Hj' Ha Hb).
Qed.

Lemma lifecycle_other bq s s' :
  bgqueue.Jobs (queue s') = bgqueue.Jobs (queue s) -> pcs s' = pcs s ->
  lifecycle bq s -> lifecycle bq s'.
Proof.
  intros Hq Hp H j pc a b Hj Ha Hb. unfold job_at in *.
  rewrite Hq in Hb. rewrite Hp in Hj. exact (H j pc a b Hj Ha Hb).
Qed.

Lemma Run_returns_its_error bj now o bj' err :
  bgjob.Run bj now o = Some (bj', err) -> err = bgjob.Error bj'.
Proof.
  unfold bgjob.Run. destruct (bgjob.Command bj); [discriminate|].
  intros H. injection H as <- <-. reflexivity.
Qed.

Lemma lifecycle_step bq s s' :
  shape bq s -> lifecycle bq s -> step s s' -> lifecycle bq s'.
Proof.
  intros Sh H Hs.
  destruct Hs.
  - apply (lifecycle_other bq s); [reflexivity | reflexivity | exact H].
  - (* spawn *)
    assert (Hi : nth_error (pcs s) i = Some Unspawned).
    { destruct (nth_error (pcs s) i) as [pc|] eqn:E.
      - f_equal. apply (sh_frontier _ _ Sh i pc E). rewrite H0. cbn. lia.
      - apply nth_error_None in E.
        rewrite (sh_pcs _ _ Sh), <- (sh_jobs _ _ Sh) in E. lia. }
    apply (lifecycle_pcs bq s _ i Unspawned Ready); auto.
  - apply (lifecycle_other bq s); [reflexivity | reflexivity | exact H].
  - (* ready *)
    apply (lifecycle_stored bq s i Ready _ bj); auto.
    intros a ->. exists now. reflexivity.
  - (* acquire *)
    apply (lifecycle_stored bq s i Waiting _ bj); auto.
    intros a [t1 ->]. exists t1, now. reflexivity.
  - (* run *)
    apply (lifecycle_stored bq s i Started _ bj); auto.
    intros a (t1 & t2 & ->). exists t1, t2, now, o.
    rewrite H2. f_equal. f_equal. eapply Run_returns_its_error; eauto.
  - (* publish *)
    apply (lifecycle_pcs bq s _ i Finished Published); auto.
  - apply (lifecycle_pcs bq s _ i Published Released); auto.
  - apply (lifecycle_pcs bq s _ i Released Exited); auto.
  - apply (lifecycle_other bq s); [reflexivity | reflexivity | exact H].
  - apply (lifecycle_other bq s); [reflexivity | reflexivity | exact H].
  - (* receive *)
    destruct (consume_fields (queue s) bj) as (E1 & _).
    apply (lifecycle_other bq s); [exact E1 | reflexivity | exact H].
  - apply (lifecycle_other bq s); [reflexivity | reflexivity | exact H].
  - apply (lifecycle_other bq s); [reflexivity | reflexivity | exact H].
Qed.

Lemma refinement_reachable bq s :
  0 <= bgqueue.numSlots bq -> reachable bq s ->
  sequential bq s /\ lifecycle bq s.
Proof.
  intros H0 Hr. induction Hr as [|s s' Hr (I1 & I2) Hs].
  - split; [apply sequential_init | apply lifecycle_init].
  - destruct (sched_invariants bq s H0 Hr) as (Sh & P & _).
    split; [exact (sequential_step bq s s' P I1 Hs)|].
    exact (lifecycle_step bq s s' Sh I2 Hs).
Qed.

End SchedRefine.

Module SchedSamples.

Import sched.

(** Fires one enabled step of a queue of one job; the clock shows 7 and
    the command exits with status 0. *)
Ltac fire :=
  first
    [ eapply (step_enter _ 7 7); reflexivity
    | eapply step_spawn; [reflexivity | cbv; lia]
    | eapply step_spawn_closer; [reflexivity | reflexivity]
    | eapply (step_ready _ 0%nat _ 7); reflexivity
    | eapply (step_acquire _ 0%nat _ 7); reflexivity
    | eapply (step_run _ 0%nat _ 7 exited_zero); reflexivity
    | eapply (step_publish _ 0%nat); reflexivity
    | eapply (step_release _ 0%nat); reflexivity
    | eapply (step_done _ 0%nat); reflexivity
    | eapply step_join; reflexivity
    | eapply step_close; reflexivity
    | eapply step_receive; reflexivity
    | eapply step_leave; reflexivity
    | eapply step_finish with (now := 7); reflexivity ].

(** Extends a run by one step and normalises the state reached. *)
Ltac advance H :=
  match type of H with
  | reachable_in ?bq ?k ?s =>
      let s' := fresh "s" in
      let Hs := fresh "Hs" in
      let H' := fresh "H" in
      evar (s' : State);
      assert (Hs : step s s') by (unfold s'; fire);
      unfold s' in Hs; clear s'; cbv in Hs;
      pose proof (reach_S bq k _ _ H Hs) as H';
      clear Hs H; rename H' into H
  end.

Ltac advance_by n H :=
  lazymatch n with
  | O => idtac
  | S ?k => advance H; advance_by k H
  end.

Ltac run_for n :=
  let H := fresh "H" in
  match goal with
  | |- reachable_in ?bq _ _ =>
      pose proof (reach_0 bq) as H; cbv in H; advance_by n H; exact H
  end.

Lemma one_job_started :
  exists s, reachable_in one_job 5 s /\ nth_error (pcs s) 0 = Some Started.
Proof.
  eexists. split; [run_for 5%nat | reflexivity].
Qed.

Lemma one_job_run :
  exists s, reachable_in one_job 14 s /\ main s = Returned.
Proof.
  eexists. split; [run_for 14%nat | reflexivity].
Qed.

Lemma no_slot_waiting :
  exists s, reachable_in no_slot 4 s /\ nth_error (pcs s) 0 = Some Waiting.
Proof.
  eexists. split; [run_for 4%nat | reflexivity].
Qed.

End SchedSamples.

(** X17. When Run returns, the consumer loop has received every job of
    the queue exactly once; the accumulator counts exactly the received
    jobs; every job object still is the job it was (id, name, command);
    every token is back, the wait group is at zero, the result channel is
    empty and closed, and the tick test ran once per job. *)
Theorem run_delivers_every_job_once
    (bq : bgqueue.BgQueue) (s : sched.State) :
  0 <= bgqueue.numSlots bq -> sched.sized bq -> sched.reachable bq s ->
  sched.main s = sched.Returned ->
  Permutation (sched.consumed s) (seq 0 (List.length (bgqueue.Jobs bq))) /\
  List.length (sched.received s) = List.length (bgqueue.Jobs bq) /\
  sched.same_counts (bgqueue.Stats (sched.queue s))
              (bgstats.feed (bgqueue.Stats bq) (sched.received s)) /\
  (forall i a, nth_error (bgqueue.Jobs bq) i = Some a ->
     exists b, sched.job_at s i = Some b /\ sched.same_job a b /\
               In b (sched.received s)) /\
  sched.slots s = 0%nat /\ sched.group s = 0%nat /\
  sched.results s = [] /\ sched.closed s = true /\
  List.length (sched.ticks s) = List.length (bgqueue.Jobs bq).
Proof. intros H0 _ Hr Hm. exact (returned_state bq s H0 Hr Hm). Qed.

(** X18. With at least one slot, and every job having a command, Run
    cannot get stuck: in every state of every run in which Run has not
    returned some goroutine can take a step, and the run can be continued
    from there until Run returns. *)
Theorem run_never_blocks (bq : bgqueue.BgQueue) (s : sched.State) :
  1 <= bgqueue.numSlots bq -> sched.well_formed bq ->
  sched.reachable bq s ->
  (sched.main s <> sched.Returned -> exists s', sched.step s s') /\
  (exists s', sched.steps s s' /\ sched.main s' = sched.Returned).
Proof.
  intros HC W Hr. split.
  - exact (SchedLiveness.some_step bq s HC W Hr).
  - exact (SchedLiveness.finishes bq HC W (sched.steps_left s) s
             (Nat.le_refl _) Hr).
Qed.

(** X19. A run of Run on n jobs has at most 8 n + 6 steps of its
    goroutines, whatever the interleaving, and Run has returned exactly
    when that many steps have been taken: no run goes on for ever. *)
Theorem run_takes_a_fixed_number_of_steps
    (bq : bgqueue.BgQueue) (k : nat) (s : sched.State) :
  0 <= bgqueue.numSlots bq -> sched.sized bq ->
  sched.reachable_in bq k s ->
  (k <= 8 * List.length (bgqueue.Jobs bq) + 6)%nat /\
  (sched.main s = sched.Returned <->
   k = (8 * List.length (bgqueue.Jobs bq) + 6)%nat).
Proof.
  intros H0 _ Hr.
  pose proof (SchedLiveness.steps_accounted bq k s H0 Hr) as Hk.
  pose proof (SchedLiveness.steps_left_at_return bq s H0
                (SchedProgress.reachable_in_reachable bq k s Hr)) as Hz.
  split; [lia|]. rewrite Hz. lia.
Qed.

(** X20. On a queue with no slot (the slot channel is unbuffered and
    nobody receives from it before sending) no job is ever started:
    every goroutine stays at or before its send on the slot channel,
    nothing is sent or received on the result channel, and Run never
    returns. *)
Theorem no_slot_no_job (bq : bgqueue.BgQueue) (s : sched.State) :
  bgqueue.numSlots bq = 0 -> bgqueue.Jobs bq <> [] ->
  sched.reachable bq s ->
  (forall j pc, nth_error (sched.pcs s) j = Some pc ->
     pc = sched.Unspawned \/ pc = sched.Ready \/ pc = sched.Waiting) /\
  sched.consumed s = [] /\ sched.results s = [] /\
  sched.main s <> sched.Leaving /\ sched.main s <> sched.Returned.
Proof. exact (SchedLiveness.zero_slots_stall bq s). Qed.

Lemma map_nth_seq {A B : Type} (f : A -> B) (l : list A) (d : A) :
  map (fun i => f (nth i l d)) (seq 0 (List.length l)) = map f l.
Proof.
  induction l as [|a l IH]; [reflexivity|].
  cbn [List.length seq map nth]. f_equal.
  rewrite <- seq_shift, map_map. exact IH.
Qed.

(** X21. Whatever the interleaving, when Run returns the queue (the
    job objects apart) and the sequence of progress callbacks are those
    of the sequential loop Run_main over the jobs in the order they
    arrived, for the three clock readings of the run; and the jobs that
    arrived are the queue's jobs in some order. *)
Theorem run_is_Run_main_on_the_arrival_order
    (bq : bgqueue.BgQueue) (s : sched.State) :
  0 <= bgqueue.numSlots bq -> sched.sized bq -> sched.reachable bq s ->
  sched.main s = sched.Returned ->
  (exists t1 t2 t3,
     (sched.set_Jobs (sched.queue s) (bgqueue.Jobs bq), sched.ticks s)
     = bgqueue.Run_main bq t1 t2 (sched.received s) t3) /\
  Permutation (map bgjob.Id (sched.received s))
              (map bgjob.Id (bgqueue.Jobs bq)).
Proof.
  intros H0 _ Hr Hm.
  destruct (SchedRefine.refinement_reachable bq s H0 Hr) as [Sq _].
  destruct (sched_invariants bq s H0 Hr) as (Sh & P & A).
  destruct (returned_state bq s H0 Hr Hm) as (Hperm & _).
  split.
  - unfold sched.sequential in Sq. rewrite Hm in Sq. exact Sq.
  - unfold sched.received. rewrite map_map.
    rewrite <- (map_nth_seq bgjob.Id (bgqueue.Jobs bq) bgjob.zero).
    apply (Permutation_trans
             (l' := map (fun i => bgjob.Id (nth i (bgqueue.Jobs bq) bgjob.zero))
                        (sched.consumed s))).
    + assert (E : map (fun i => bgjob.Id
                        (nth i (bgqueue.Jobs (sched.queue s)) bgjob.zero))
                      (sched.consumed s)
                  = map (fun i => bgjob.Id (nth i (bgqueue.Jobs bq) bgjob.zero))
                        (sched.consumed s)).
      { apply map_ext_in. intros i Hi.
        apply (Permutation_in _ Hperm), in_seq in Hi.
        assert (Hlt : (i < List.length (bgqueue.Jobs bq))%nat) by lia.
        destruct (nth_error (bgqueue.Jobs bq) i) as [a|] eqn:Ea;
          [|apply nth_error_None in Ea; lia].
        rewrite <- (sched.sh_jobs _ _ Sh) in Hlt.
        destruct (nth_error (bgqueue.Jobs (sched.queue s)) i) as [b|] eqn:Eb;
          [|apply nth_error_None in Eb; lia].
        rewrite (nth_error_nth _ _ bgjob.zero Ea),
                (nth_error_nth _ _ bgjob.zero Eb).
        symmetry. exact (proj1 (sched.ac_jobs _ _ A i a b Ea Eb)). }
      rewrite E. apply Permutation_refl.
    + apply Permutation_map. exact Hperm.
Qed.

(** X22. In every state of every run each job object is what runJob has
    made of it so far: untouched before MarkReady, marked ready while
    waiting for a slot, marked started while its command runs, and from
    then on the result of one call of bgjob.Run.  So when Run returns
    every job has been run exactly once, its Created and Started fields
    are the two clock readings of MarkReady and MarkStarted, and its
    Duration runs from MarkStarted (the wait for a slot is not part of
    it) to the end of the command. *)
Theorem every_job_is_run_once (bq : bgqueue.BgQueue) (s : sched.State) :
  0 <= bgqueue.numSlots bq -> sched.sized bq -> sched.reachable bq s ->
  (forall i pc a b,
     nth_error (sched.pcs s) i = Some pc ->
     nth_error (bgqueue.Jobs bq) i = Some a ->
     sched.job_at s i = Some b ->
     sched.stage pc a b) /\
  (sched.main s = sched.Returned ->
   forall i a, nth_error (bgqueue.Jobs bq) i = Some a ->
     exists b t1 t2 t3 o,
       sched.job_at s i = Some b /\ In b (sched.received s) /\
       bgjob.Run (bgjob.MarkStarted (bgjob.MarkReady a t1) t2) t3 o
       = Some (b, exec.run_error o) /\
       bgjob.Created b = t1 /\ bgjob.Started b = t2 /\
       bgjob.Duration b = time.Sub t3 t2 /\
       bgjob.Error b = exec.run_error o /\
       bgjob.ExitStatus b
       = bgjob.exit_status_of (bgjob.ExitStatus a) (exec.run_error o)).
Proof.
  intros H0 _ Hr.
  destruct (SchedRefine.refinement_reachable bq s H0 Hr) as [_ L].
  split; [exact L|].
  intros Hm i a Ha.
  destruct (returned_state bq s H0 Hr Hm) as (_ & _ & _ & Hj & _).
  destruct (Hj i a Ha) as (b & Hb & _ & Hin).
  destruct (all_exited_at_the_end bq s H0 Hr (or_intror Hm)) as (_ & _ & Hex).
  destruct (sched_invariants bq s H0 Hr) as (Sh & _ & _).
  assert (Hlt : (i < List.length (sched.pcs s))%nat).
  { rewrite (sched.sh_pcs _ _ Sh). apply nth_error_Some. congruence. }
  destruct (nth_error (sched.pcs s) i) as [pc|] eqn:Ep;
    [|apply nth_error_None in Ep; lia].
  pose proof (Hex i pc Ep) as ->.
  pose proof (L i sched.Exited a b Ep Ha Hb) as St. cbn [sched.stage] in St.
  destruct St as (t1 & t2 & t3 & o & HR).
  exists b, t1, t2, t3, o.
  split; [exact Hb|]. split; [exact Hin|].
  unfold bgjob.Run in HR |- *.
  cbn [bgjob.MarkStarted bgjob.MarkReady bgjob.Command] in HR |- *.
  destruct (bgjob.Command a) as [|c cs]; [discriminate HR|].
  injection HR as Hb' _. subst b. cbn. repeat split.
Qed.

(** Witness of X16: the queue of one job, while its command runs. *)
Lemma admission_pool_bounds_running_jobs_witness :
  exists s,
    sched.reachable one_job s /\
    nth_error (sched.pcs s) 0 = Some sched.Started /\
    sched.slots s = sched.count sched.holding (sched.pcs s) /\
    Z.of_nat (sched.count sched.executing (sched.pcs s))
      <= bgqueue.numSlots one_job.
Proof.
  destruct SchedSamples.one_job_started as (s & Hr & Hp).
  exists s.
  pose proof (SchedProgress.reachable_in_reachable _ _ _ Hr) as Hr'.
  destruct (admission_pool_bounds_running_jobs one_job s
              ltac:(cbv; discriminate) eq_refl Hr') as (H1 & _ & _ & H4).
  split; [exact Hr'|]. split; [exact Hp|]. split; [exact H1 | exact H4].
Defined.

(** Witness of X17: the queue of one job, run to the end. *)
Lemma run_delivers_every_job_once_witness :
  exists s,
    sched.reachable one_job s /\ sched.main s = sched.Returned /\
    Permutation (sched.consumed s) [0%nat] /\ sched.slots s = 0%nat.
Proof.
  destruct SchedSamples.one_job_run as (s & Hr & Hm).
  exists s.
  pose proof (SchedProgress.reachable_in_reachable _ _ _ Hr) as Hr'.
  destruct (run_delivers_every_job_once one_job s
              ltac:(cbv; discriminate) eq_refl Hr' Hm)
    as (H1 & _ & _ & _ & H5 & _).
  split; [exact Hr'|]. split; [exact Hm|]. split; [exact H1 | exact H5].
Defined.

(** Witness of X18: the queue of one job on entry of Run. *)
Lemma run_never_blocks_witness :
  exists s', sched.steps (sched.init one_job) s' /\
             sched.main s' = sched.Returned.
Proof.
  refine (proj2 (run_never_blocks one_job (sched.init one_job)
                   ltac:(cbv; discriminate) _ (sched.reach_init one_job))).
  split; [reflexivity|].
  repeat constructor. discriminate.
Defined.

(** Witness of X19: the run of one job takes 14 steps. *)
Lemma run_takes_a_fixed_number_of_steps_witness :
  exists s, sched.reachable_in one_job 14 s /\ sched.main s = sched.Returned.
Proof.
  destruct SchedSamples.one_job_run as (s & Hr & _).
  exists s. split; [exact Hr|].
  apply (run_takes_a_fixed_number_of_steps one_job 14 s
           ltac:(cbv; discriminate) eq_refl Hr).
  reflexivity.
Defined.

(** Witness of X20: one job and no slot; the job waits for ever. *)
Lemma no_slot_no_job_witness :
  exists s,
    sched.reachable no_slot s /\
    nth_error (sched.pcs s) 0 = Some sched.Waiting /\
    sched.main s <> sched.Returned.
Proof.
  destruct SchedSamples.no_slot_waiting as (s & Hr & Hp).
  exists s.
  pose proof (SchedProgress.reachable_in_reachable _ _ _ Hr) as Hr'.
  destruct (no_slot_no_job no_slot s eq_refl ltac:(discriminate) Hr')
    as (_ & _ & _ & _ & H5).
  split; [exact Hr'|]. split; [exact Hp | exact H5].
Defined.

(** Witness of X21: the queue of one job, run to the end. *)
Lemma run_is_Run_main_on_the_arrival_order_witness :
  exists s,
    sched.reachable one_job s /\ sched.main s = sched.Returned /\
    Permutation (map bgjob.Id (sched.received s)) [0].
Proof.
  destruct SchedSamples.one_job_run as (s & Hr & Hm).
  exists s.
  pose proof (SchedProgress.reachable_in_reachable _ _ _ Hr) as Hr'.
  destruct (run_is_Run_main_on_the_arrival_order one_job s
              ltac:(cbv; discriminate) eq_refl Hr' Hm) as (_ & H2).
  split; [exact Hr'|]. split; [exact Hm | exact H2].
Defined.

(** Witness of X22: the queue of one job, run to the end. *)
Lemma every_job_is_run_once_witness :
  exists s b,
    sched.reachable one_job s /\ sched.main s = sched.Returned /\
    sched.job_at s 0 = Some b /\ In b (sched.received s).
Proof.
  destruct SchedSamples.one_job_run as (s & Hr & Hm).
  pose proof (SchedProgress.reachable_in_reachable _ _ _ Hr) as Hr'.
  destruct (proj2 (every_job_is_run_once one_job s
                     ltac:(cbv; discriminate) eq_refl Hr') Hm 0%nat
              _ eq_refl)
    as (b & _ & _ & _ & _ & Hb & Hin & _).
  exists s, b.
  split; [exact Hr'|]. split; [exact Hm|]. split; [exact Hb | exact Hin].
Defined.
